(** * Dual-tier cache engine of keygenmusic-api ([src/lib/cache.ts])

    A shallow embedding of [CacheEngine] and [CacheService] and the
    properties of the cache specification settled against it.

    Conventions of the embedding.
    - JavaScript numbers that the engine handles (timestamps, lifespans,
      counters, limits) are integers and are modelled in [Z]; the only
      quotient that is not floored, [efficiency], is an exact rational [Q].
    - [Date.now()] is an explicit argument [now] of every operation: one
      reading per call of an engine method; [getOrSet] has a second
      reading for the time after the supplier, [rateLimit] a second one
      for its catch, [acquireLock] one per poll.
    - The in-memory tier is a JavaScript [Map]; it is an association list
      in insertion order, because [evict] depends on the iteration order.
    - The values in the cache are primitives, the sessions the engine
      builds, and plain objects with their integrity level (extensible,
      not extensible, frozen); an object that [getBatch] builds has a
      prototype besides its own properties.
    - Bun's [RedisClient] and the JSON codec are not part of the
      repository: the client is a record of reply functions over an
      arbitrary state [R] of the remote side, the codec a pair of
      functions; both may raise.
    - A rejected promise or a raised exception is the result [Throw];
      [try_catch] is the source's try/catch: the state reached before the
      exception is kept. *)

From Stdlib Require Import ZArith List String Bool Lia QArith DecimalString.
From Stdlib Require Import DecimalPos DecimalZ.
Import ListNotations.

Open Scope string_scope.
Open Scope Z_scope.

(** ** Values, failures and the effect monad *)

(** What a caller has done to an object before handing it over:
    nothing, [Object.preventExtensions] or [Object.seal] (no property can
    be added, the existing ones stay writable), or [Object.freeze] (no
    property can be added or written). *)
Inductive integrity : Type :=
| Extensible
| NonExtensible
| Frozen.

(** The values callers put in the cache. [VSession] is the object the
    engine itself builds ([CacheUserSession], a fresh object literal);
    [VObject] is any other plain object, with its own data properties and
    its integrity level. The memory tier stores the caller's object
    itself, so a frozen object stays frozen there. *)
#[warnings="-register-all"]
Inductive value : Type :=
| VNull
| VBool (b : bool)
| VNum (n : Z)
| VStr (s : string)
| VSession (userId data : value) (createdAt lastActive : Z)
| VObject (level : integrity) (properties : list (string * value)).

(** JavaScript truthiness, as used by [if (session)] and [!existing]. *)
Definition truthy (v : value) : bool :=
  match v with
  | VNull => false
  | VBool b => b
  | VNum n => negb (n =? 0)
  | VStr s => negb (String.eqb s "")
  | VSession _ _ _ _ => true
  | VObject _ _ => true
  end.

Definition is_null (v : value) : bool :=
  match v with VNull => true | _ => false end.

Inductive error : Type :=
| TransportError (msg : string)
| SerializationError (msg : string)
| TypeError (msg : string)
| SupplierError (msg : string).

Inductive outcome (A : Type) : Type :=
| Ok (a : A)
| Throw (err : error).

Arguments Ok {A} a.
Arguments Throw {A} err.

Definition is_ok {A : Type} (o : outcome A) : bool :=
  match o with Ok _ => true | Throw _ => false end.

(** State and exceptions: the shape of every asynchronous method. *)
Definition Eff (S A : Type) : Type := S -> outcome A * S.

Definition ret {S A : Type} (a : A) : Eff S A := fun s => (Ok a, s).

Definition throw {S A : Type} (err : error) : Eff S A := fun s => (Throw err, s).

Definition bind {S A B : Type} (m : Eff S A) (k : A -> Eff S B) : Eff S B :=
  fun s => match m s with
           | (Ok a, s') => k a s'
           | (Throw err, s') => (Throw err, s')
           end.

Definition try_catch {S A : Type} (m : Eff S A) (h : error -> Eff S A) : Eff S A :=
  fun s => match m s with
           | (Ok a, s') => (Ok a, s')
           | (Throw err, s') => h err s'
           end.

Definition gets {S A : Type} (f : S -> A) : Eff S A := fun s => (Ok (f s), s).

Definition modify {S : Type} (f : S -> S) : Eff S unit := fun s => (Ok tt, f s).

Definition lift_outcome {S A : Type} (o : outcome A) : Eff S A := fun s => (o, s).

Declare Scope eff_scope.
Delimit Scope eff_scope with eff.

Notation "x <- m ;; k" := (bind m (fun x => k))
  (at level 100, m at next level, right associativity) : eff_scope.
Notation "m ;;; k" := (bind m (fun _ => k))
  (at level 100, right associativity) : eff_scope.

(** ** The JavaScript [Map] of the memory tier *)

Section JsMap.

Context {V : Type}.

Fixpoint map_get (k : string) (m : list (string * V)) : option V :=
  match m with
  | [] => None
  | (k', v) :: m' => if String.eqb k' k then Some v else map_get k m'
  end.

Definition map_has (k : string) (m : list (string * V)) : bool :=
  match map_get k m with Some _ => true | None => false end.

(** [Map.prototype.set]: an existing key keeps its place, a new key goes
    last. *)
Fixpoint map_set (k : string) (v : V) (m : list (string * V)) : list (string * V) :=
  match m with
  | [] => [(k, v)]
  | (k', v') :: m' => if String.eqb k' k then (k, v) :: m' else (k', v') :: map_set k v m'
  end.

(** [Map.prototype.delete]; its boolean result is [map_has] beforehand. *)
Definition map_delete (k : string) (m : list (string * V)) : list (string * V) :=
  filter (fun kv => negb (String.eqb (fst kv) k)) m.

Definition map_size (m : list (string * V)) : Z := Z.of_nat (List.length m).

End JsMap.

(** ** Data of [cache.ts] *)

Record CacheStorageConfig : Type := mkConfig {
  primaryEndpoint : string;
  entryLifespan : Z;
  memoryTierLimit : Z
}.

(** The optional fields a caller passes to the constructor. *)
Record CacheStorageConfigInput : Type := mkConfigInput {
  in_primaryEndpoint : option string;
  in_entryLifespan : option Z;
  in_memoryTierLimit : option Z
}.

Record InMemoryCacheEntry : Type := mkEntry {
  entry_value : value;
  expiration : option Z;
  lastAccessed : Z
}.

Record CachePerformanceMetrics : Type := mkMetrics {
  successful : Z;
  failed : Z;
  writes : Z;
  removals : Z;
  currentSize : Z;
  efficiency : Q
}.

Record CacheTrafficControlResult : Type := mkTraffic {
  permitted : bool;
  quota : Z;
  windowReset : Z;
  requestCount : Z
}.

(** The methods of Bun's [RedisClient] that the engine calls, over the
    state [R] of the remote side. *)
Record RedisClient (R : Type) : Type := mkClient {
  r_connect : Eff R unit;
  r_ping : Eff R unit;
  r_get : string -> Eff R (option string);
  r_set : string -> string -> Eff R unit;
  r_expire : string -> Z -> Eff R unit;
  r_exists : string -> Eff R bool;
  r_del : string -> Eff R Z;
  r_incr : string -> Eff R Z;
  r_incrby : string -> Z -> Eff R Z;
  r_ttl : string -> Eff R Z;
  r_flushdb : Eff R unit;
  r_close : R -> R
}.

Arguments r_connect {R} _.
Arguments r_ping {R} _.
Arguments r_get {R} _ _.
Arguments r_set {R} _ _ _.
Arguments r_expire {R} _ _ _.
Arguments r_exists {R} _ _.
Arguments r_del {R} _ _.
Arguments r_incr {R} _ _.
Arguments r_incrby {R} _ _ _.
Arguments r_ttl {R} _ _.
Arguments r_flushdb {R} _.
Arguments r_close {R} _ _.

Definition initial_metrics : CachePerformanceMetrics :=
  mkMetrics 0 0 0 0 0 0%Q.

(** [expiration && ...]: a number is truthy unless it is 0. *)
Definition has_expiration (x : option Z) : bool :=
  match x with
  | Some t => negb (t =? 0)
  | None => false
  end.

(** [entry.expiration && Date.now() > entry.expiration] *)
Definition past_expiration (now : Z) (entry : InMemoryCacheEntry) : bool :=
  match expiration entry with
  | Some t => negb (t =? 0) && (t <? now)
  | None => false
  end.

Definition string_of_Z (n : Z) : string := NilZero.string_of_int (Z.to_int n).

Definition nonempty (s : string) : bool := negb (String.eqb s "").

(** The loop of [evict]: the key of the first entry whose [lastAccessed]
    is strictly below everything seen so far, starting from [Date.now()]
    and the empty key. *)
Fixpoint evict_scan (entries : list (string * InMemoryCacheEntry))
  (candidateKey : string) (oldestAccess : Z) : string :=
  match entries with
  | [] => candidateKey
  | (key, entry) :: rest =>
      if lastAccessed entry <? oldestAccess
      then evict_scan rest key (lastAccessed entry)
      else evict_scan rest candidateKey oldestAccess
  end.

Definition evict_map (now : Z) (m : list (string * InMemoryCacheEntry))
  : list (string * InMemoryCacheEntry) :=
  let candidateKey := evict_scan m "" now in
  if nonempty candidateKey then map_delete candidateKey m else m.

(** [session.lastActive = Date.now()] in a strict-mode module. The
    assignment raises a TypeError on a primitive, on a frozen object that
    has the property, and on an object that lacks the property and cannot
    be extended. The caller has checked that the value is truthy. *)
Definition assign_lastActive (now : Z) (session : value) : outcome value :=
  match session with
  | VSession userId data createdAt _ => Ok (VSession userId data createdAt now)
  | VObject level properties =>
      if map_has "lastActive" properties then
        match level with
        | Frozen =>
            Throw (TypeError "Cannot assign to read only property 'lastActive'")
        | _ => Ok (VObject level (map_set "lastActive" (VNum now) properties))
        end
      else
        match level with
        | Extensible =>
            Ok (VObject level (map_set "lastActive" (VNum now) properties))
        | _ => Throw (TypeError "Cannot add property lastActive, object is not extensible")
        end
  | _ => Throw (TypeError "Cannot create property 'lastActive'")
  end.

(** ** Plain objects used as dictionaries *)

(** [getBatch] collects its answers in an object literal [{}], by
    [result[key] = value]. Such an object has a prototype besides its own
    properties: [Object.prototype] at first, and whatever an assignment to
    the key [__proto__] makes of it. The own properties are looked up by
    key; their enumeration order is not modelled. *)
Inductive prototype : Type :=
| ObjectPrototype
| NullPrototype
| ValuePrototype (v : value).

Record PlainObject : Type := mkObject {
  object_prototype : prototype;
  own_properties : list (string * value)
}.

Definition empty_object : PlainObject := mkObject ObjectPrototype [].

(** The setter of [Object.prototype.__proto__]: an object or null becomes
    the prototype, any other value is ignored. *)
Definition set_prototype (v : value) (o : PlainObject) : PlainObject :=
  match v with
  | VNull => mkObject NullPrototype (own_properties o)
  | VSession _ _ _ _ | VObject _ _ => mkObject (ValuePrototype v) (own_properties o)
  | _ => o
  end.

(** The own data property [key] of an object value, if it has one:
    [Some true] when it is writable, [Some false] when the object is
    frozen. *)
Definition own_data_property (v : value) (key : string) : option bool :=
  match v with
  | VSession _ _ _ _ =>
      if String.eqb key "userId" || String.eqb key "data"
         || String.eqb key "createdAt" || String.eqb key "lastActive"
      then Some true else None
  | VObject level properties =>
      if map_has key properties
      then Some (match level with Frozen => false | _ => true end)
      else None
  | _ => None
  end.

(** [o[key] = v] in a strict-mode module, for an extensible [o]. An own
    property is overwritten. Otherwise the prototype chain decides: a
    writable data property found there, or no property at all, makes the
    assignment define an own property; a read-only one makes it raise a
    TypeError; the accessor [__proto__] of [Object.prototype] takes the
    value for itself. An object value met on the chain has
    [Object.prototype] above it. *)
Definition assign_property (key : string) (v : value) (o : PlainObject)
  : outcome PlainObject :=
  let defined := mkObject (object_prototype o) (map_set key v (own_properties o)) in
  let inherited_from_Object :=
    if String.eqb key "__proto__" then set_prototype v o else defined in
  if map_has key (own_properties o) then Ok defined
  else
    match object_prototype o with
    | NullPrototype => Ok defined
    | ObjectPrototype => Ok inherited_from_Object
    | ValuePrototype p =>
        match own_data_property p key with
        | Some true => Ok defined
        | Some false =>
            Throw (TypeError "Cannot assign to read only property of object")
        | None => Ok inherited_from_Object
        end
    end.

(** [items.reduce((result, {key, value}) => { result[key] = value; return
    result; }, o)] *)
Fixpoint assign_each (items : list (string * value)) (o : PlainObject)
  : outcome PlainObject :=
  match items with
  | [] => Ok o
  | (key, v) :: rest =>
      match assign_property key v o with
      | Ok o' => assign_each rest o'
      | Throw err => Throw err
      end
  end.

(** ** State of a [CacheEngine] *)

(** [primaryClient] records whether the field is non-null; the state the
    client talks to is [remote]. *)
Record CacheEngine (R : Type) : Type := mkEngine {
  remote : R;
  primaryClient : bool;
  memoryCache : list (string * InMemoryCacheEntry);
  metrics : CachePerformanceMetrics;
  config : CacheStorageConfig;
  primaryActive : bool;
  connectionReady : bool
}.

Arguments mkEngine {R} _ _ _ _ _ _ _.
Arguments remote {R} _.
Arguments primaryClient {R} _.
Arguments memoryCache {R} _.
Arguments metrics {R} _.
Arguments config {R} _.
Arguments primaryActive {R} _.
Arguments connectionReady {R} _.

Definition set_remote {R : Type} (r : R) (e : CacheEngine R) : CacheEngine R :=
  mkEngine r (primaryClient e) (memoryCache e) (metrics e) (config e)
    (primaryActive e) (connectionReady e).

Definition set_primaryClient {R : Type} (b : bool) (e : CacheEngine R) : CacheEngine R :=
  mkEngine (remote e) b (memoryCache e) (metrics e) (config e)
    (primaryActive e) (connectionReady e).

Definition set_memoryCache {R : Type} (m : list (string * InMemoryCacheEntry))
  (e : CacheEngine R) : CacheEngine R :=
  mkEngine (remote e) (primaryClient e) m (metrics e) (config e)
    (primaryActive e) (connectionReady e).

Definition set_metrics {R : Type} (m : CachePerformanceMetrics) (e : CacheEngine R)
  : CacheEngine R :=
  mkEngine (remote e) (primaryClient e) (memoryCache e) m (config e)
    (primaryActive e) (connectionReady e).

Definition set_primaryActive {R : Type} (b : bool) (e : CacheEngine R) : CacheEngine R :=
  mkEngine (remote e) (primaryClient e) (memoryCache e) (metrics e) (config e)
    b (connectionReady e).

Definition set_connectionReady {R : Type} (b : bool) (e : CacheEngine R) : CacheEngine R :=
  mkEngine (remote e) (primaryClient e) (memoryCache e) (metrics e) (config e)
    (primaryActive e) b.

(** [this.metrics.successful++] and its siblings. *)
Definition count_successful {R : Type} (e : CacheEngine R) : CacheEngine R :=
  let m := metrics e in
  set_metrics (mkMetrics (successful m + 1) (failed m) (writes m) (removals m)
                 (currentSize m) (efficiency m)) e.

Definition count_failed {R : Type} (e : CacheEngine R) : CacheEngine R :=
  let m := metrics e in
  set_metrics (mkMetrics (successful m) (failed m + 1) (writes m) (removals m)
                 (currentSize m) (efficiency m)) e.

Definition count_write {R : Type} (e : CacheEngine R) : CacheEngine R :=
  let m := metrics e in
  set_metrics (mkMetrics (successful m) (failed m) (writes m + 1) (removals m)
                 (currentSize m) (efficiency m)) e.

Definition count_removal {R : Type} (e : CacheEngine R) : CacheEngine R :=
  let m := metrics e in
  set_metrics (mkMetrics (successful m) (failed m) (writes m) (removals m + 1)
                 (currentSize m) (efficiency m)) e.

Definition resolve_config (env_REDIS_URL : option string) (c : CacheStorageConfigInput)
  : CacheStorageConfig :=
  mkConfig
    (match in_primaryEndpoint c with
     | Some s => s
     | None => match env_REDIS_URL with Some s => s | None => "" end
     end)
    (match in_entryLifespan c with Some n => n | None => 3600 end)
    (match in_memoryTierLimit c with Some n => n | None => 10000 end).

Definition isPrimaryActive {R : Type} (e : CacheEngine R) : bool :=
  primaryActive e && primaryClient e.

(** The expiration [set] gives a local entry. *)
Definition local_expiration (cfg : CacheStorageConfig) (now : Z) (lifespan : option Z)
  : option Z :=
  match lifespan with
  | Some l => Some (now + l * 1000)
  | None => if 0 <? entryLifespan cfg
            then Some (now + entryLifespan cfg * 1000)
            else None
  end.

(** [!entry.expiration || Date.now() <= entry.expiration] of [increment]. *)
Definition counter_live (now : Z) (entry : InMemoryCacheEntry) : bool :=
  match expiration entry with
  | Some t => (t =? 0) || (now <=? t)
  | None => true
  end.

Definition session_key (sessionId : string) : string :=
  ("user_session:" ++ sessionId)%string.

Definition traffic_key (key : string) (window : Z) : string :=
  ("traffic:" ++ key ++ ":" ++ string_of_Z window)%string.

(** ** The methods of [CacheEngine] *)

Section Engine.

Variable R : Type.
Variable client : RedisClient R.
Variable JSON_stringify : value -> outcome string.
Variable JSON_parse : string -> outcome value.

Local Abbreviation M := (Eff (CacheEngine R)).
Local Open Scope eff_scope.

(** A call of a client method from the engine. *)
Definition call {A : Type} (op : Eff R A) : M A :=
  fun e => let (o, r') := op (remote e) in (o, set_remote r' e).

(** [establishPrimaryConnection], awaited to its end. *)
Definition establishPrimaryConnection : M unit :=
  fun e =>
    if connectionReady e then (Ok tt, e)
    else
      try_catch
        (call (r_connect client) ;;;
         modify (set_primaryClient true) ;;;
         call (r_ping client) ;;;
         modify (set_primaryActive true))
        (fun _ => modify (fun e' => set_primaryClient false (set_primaryActive false e')))
        (set_connectionReady true e).

(** The constructor. With an endpoint it starts
    [establishPrimaryConnection] without awaiting it: the method runs up
    to its first [await], the PING. *)
Definition new_CacheEngine (env_REDIS_URL : option string) (c : CacheStorageConfigInput)
  (r : R) : CacheEngine R :=
  let cfg := resolve_config env_REDIS_URL c in
  if nonempty (primaryEndpoint cfg) then
    match r_connect client r with
    | (Ok _, r') => mkEngine r' true [] initial_metrics cfg false true
    | (Throw _, r') => mkEngine r' false [] initial_metrics cfg false true
    end
  else mkEngine r false [] initial_metrics cfg false false.

(** What happens later, outside any call: the pending PING settles, the
    connection closes or comes back. *)
Definition ping_settled : M unit :=
  try_catch
    (call (r_ping client) ;;; modify (set_primaryActive true))
    (fun _ => modify (fun e' => set_primaryClient false (set_primaryActive false e'))).

Definition onclose (e : CacheEngine R) : CacheEngine R := set_primaryActive false e.

Definition onconnect (e : CacheEngine R) : CacheEngine R := set_primaryActive true e.

(** [if (!this.connectionReady && this.config.primaryEndpoint) await ...] *)
Definition ensureConnection : M unit :=
  fun e =>
    if negb (connectionReady e) && nonempty (primaryEndpoint (config e))
    then establishPrimaryConnection e
    else (Ok tt, e).

Definition getMetrics (e : CacheEngine R) : CachePerformanceMetrics * CacheEngine R :=
  let m := metrics e in
  let totalOps := successful m + failed m in
  let m' := mkMetrics (successful m) (failed m) (writes m) (removals m)
              (if isPrimaryActive e then -1 else map_size (memoryCache e))
              (if 0 <? totalOps
               then (inject_Z (successful m) / inject_Z totalOps)%Q
               else 0%Q) in
  (m', set_metrics m' e).

Definition evict (now : Z) : M unit :=
  modify (fun e => set_memoryCache (evict_map now (memoryCache e)) e).

Definition set (now : Z) (key : string) (v : value) (lifespan : option Z) : M bool :=
  try_catch
    (ensureConnection ;;;
     active <- gets isPrimaryActive ;;
     (if active then
        encoded <- lift_outcome (JSON_stringify v) ;;
        call (r_set client key encoded) ;;;
        cfg <- gets config ;;
        let ttl := match lifespan with Some l => l | None => entryLifespan cfg end in
        if 0 <? ttl then call (r_expire client key ttl) else ret tt
      else
        m <- gets memoryCache ;;
        cfg <- gets config ;;
        (if memoryTierLimit cfg <=? map_size m then evict now else ret tt) ;;;
        modify (fun e =>
                  set_memoryCache
                    (map_set key (mkEntry v (local_expiration cfg now lifespan) now)
                       (memoryCache e)) e)) ;;;
     modify count_write ;;;
     ret true)
    (fun _ => ret false).

Definition get (now : Z) (key : string) : M value :=
  try_catch
    (ensureConnection ;;;
     active <- gets isPrimaryActive ;;
     if active then
       raw <- call (r_get client key) ;;
       match raw with
       | Some s =>
           if nonempty s
           then modify count_successful ;;; lift_outcome (JSON_parse s)
           else modify count_failed ;;; ret VNull
       | None => modify count_failed ;;; ret VNull
       end
     else
       m <- gets memoryCache ;;
       match map_get key m with
       | Some entry =>
           if past_expiration now entry then
             modify (fun e => set_memoryCache (map_delete key (memoryCache e)) e) ;;;
             modify count_failed ;;;
             ret VNull
           else
             modify (fun e =>
                       set_memoryCache
                         (map_set key
                            (mkEntry (entry_value entry) (expiration entry) now)
                            (memoryCache e)) e) ;;;
             modify count_successful ;;;
             ret (entry_value entry)
       | None => modify count_failed ;;; ret VNull
       end)
    (fun _ => modify count_failed ;;; ret VNull).

Definition has (now : Z) (key : string) : M bool :=
  try_catch
    (ensureConnection ;;;
     active <- gets isPrimaryActive ;;
     if active then call (r_exists client key)
     else
       m <- gets memoryCache ;;
       match map_get key m with
       | Some entry =>
           if past_expiration now entry then
             modify (fun e => set_memoryCache (map_delete key (memoryCache e)) e) ;;;
             ret false
           else ret true
       | None => ret false
       end)
    (fun _ => ret false).

Definition delete (key : string) : M bool :=
  try_catch
    (ensureConnection ;;;
     active <- gets isPrimaryActive ;;
     if active then
       result <- call (r_del client key) ;;
       modify count_removal ;;;
       ret (0 <? result)
     else
       m <- gets memoryCache ;;
       let wasPresent := map_has key m in
       modify (fun e => set_memoryCache (map_delete key (memoryCache e)) e) ;;;
       (if wasPresent then modify count_removal else ret tt) ;;;
       ret wasPresent)
    (fun _ => ret false).

Definition increment (now : Z) (key : string) (step : Z) : M Z :=
  try_catch
    (ensureConnection ;;;
     active <- gets isPrimaryActive ;;
     if active then
       if step =? 1 then call (r_incr client key) else call (r_incrby client key step)
     else
       m <- gets memoryCache ;;
       let currentVal :=
         match map_get key m with
         | Some entry =>
             if counter_live now entry
             then match entry_value entry with VNum n => n | _ => 0 end
             else 0
         | None => 0
         end in
       let updatedVal := currentVal + step in
       set now key (VNum updatedVal) None ;;;
       ret updatedVal)
    (fun err => throw err).

(** [setBatch] starts one [set] per item, in order, before it awaits any
    of them. A call on the memory tier has no await and runs to its end
    when it is started. A call on the remote tier runs up to its SET
    command; it goes on with EXPIRE and the counter of writes when the
    reply is there, after every call of the batch has been started. So the
    server receives all the SET commands of a batch before the first
    EXPIRE. [set_start] is the first part of a call and [set_finish] the
    second; a reply is fixed when the server takes the command. (The
    constructor has started the handshake whenever an endpoint is
    configured, so no call of a batch has to wait for it; in a state
    that says otherwise [ensureConnection] completes it at once, as in
    every other method.) *)
Inductive started_set : Type :=
| Settled (answer : bool)
| AwaitingSET (key : string) (reply : outcome unit).

Definition set_start (now : Z) (key : string) (v : value) (lifespan : option Z)
  : M started_set :=
  try_catch
    (ensureConnection ;;;
     active <- gets isPrimaryActive ;;
     if active then
       encoded <- lift_outcome (JSON_stringify v) ;;
       fun e =>
         let (reply, r') := r_set client key encoded (remote e) in
         (Ok (AwaitingSET key reply), set_remote r' e)
     else
       answer <- set now key v lifespan ;;
       ret (Settled answer))
    (fun _ => ret (Settled false)).

Definition set_finish (lifespan : option Z) (started : started_set) : M bool :=
  match started with
  | Settled answer => ret answer
  | AwaitingSET key (Throw _) => ret false
  | AwaitingSET key (Ok _) =>
      try_catch
        (cfg <- gets config ;;
         let ttl := match lifespan with Some l => l | None => entryLifespan cfg end in
         (if 0 <? ttl then call (r_expire client key ttl) else ret tt) ;;;
         modify count_write ;;;
         ret true)
        (fun _ => ret false)
  end.

Fixpoint start_each (now : Z) (data : list (string * value)) (lifespan : option Z)
  : M (list started_set) :=
  match data with
  | [] => ret []
  | (key, v) :: rest =>
      started1 <- set_start now key v lifespan ;;
      started <- start_each now rest lifespan ;;
      ret (started1 :: started)
  end.

Fixpoint finish_each (lifespan : option Z) (started : list started_set)
  : M (list bool) :=
  match started with
  | [] => ret []
  | started1 :: rest =>
      outcome1 <- set_finish lifespan started1 ;;
      outcomes <- finish_each lifespan rest ;;
      ret (outcome1 :: outcomes)
  end.

Definition set_each (now : Z) (data : list (string * value)) (lifespan : option Z)
  : M (list bool) :=
  started <- start_each now data lifespan ;;
  finish_each lifespan started.

Definition setBatch (now : Z) (data : list (string * value)) (lifespan : option Z)
  : M bool :=
  try_catch
    (outcomes <- set_each now data lifespan ;;
     ret (forallb (fun b => b) outcomes))
    (fun _ => ret false).

(** [getBatch] starts one [get] per key in the same way. A [get] sends
    one command only, and what it does with the reply touches the
    counters alone, so the calls are taken one after the other. *)
Fixpoint get_each (now : Z) (keys : list string) : M (list (string * value)) :=
  match keys with
  | [] => ret []
  | key :: rest =>
      v <- get now key ;;
      outcomes <- get_each now rest ;;
      ret ((key, v) :: outcomes)
  end.

Definition getBatch (now : Z) (keys : list string) : M PlainObject :=
  try_catch
    (outcomes <- get_each now keys ;;
     lift_outcome (assign_each outcomes empty_object))
    (fun _ =>
       lift_outcome (assign_each (map (fun key => (key, VNull)) keys) empty_object)).

(** [getOrSet]; the supplier has a state [G] of its own, and may take
    time: [get] reads the clock at [now], [set] at [later]. *)
Definition getOrSet {G : Type} (now later : Z) (key : string)
  (generator : Eff G value) (lifespan : option Z) (g : G) (e : CacheEngine R)
  : outcome value * G * CacheEngine R :=
  match get now key e with
  | (Throw err, e1) => (Throw err, g, e1)
  | (Ok cached, e1) =>
      if negb (is_null cached) then (Ok cached, g, e1)
      else
        match generator g with
        | (Throw err, g') => (Throw err, g', e1)
        | (Ok fresh, g') =>
            match set later key fresh lifespan e1 with
            | (Throw err, e2) => (Throw err, g', e2)
            | (Ok _, e2) => (Ok fresh, g', e2)
            end
        end
  end.

(** [rateLimit]. The clock is read at [now] when the call starts and
    again at [caught] when the catch builds its answer, after the awaited
    [increment] has failed. The window is a quotient by
    [windowSeconds * 1000]: the definition stands for a window other
    than 0, where that quotient is a number. *)
Definition rateLimit (now caught : Z) (key : string) (maxRequests windowSeconds : Z)
  : M CacheTrafficControlResult :=
  try_catch
    (let window := now / (windowSeconds * 1000) in
     let controlKey := traffic_key key window in
     current <- increment now controlKey 1 ;;
     (if current =? 1
      then set now controlKey (VNum current) (Some windowSeconds) ;;; ret tt
      else ret tt) ;;;
     ret (mkTraffic (current <=? maxRequests)
            (Z.max 0 (maxRequests - current))
            ((window + 1) * windowSeconds * 1000)
            current))
    (fun _ =>
       ret (mkTraffic true (maxRequests - 1) (caught + windowSeconds * 1000) 1)).

Definition createSession (now : Z) (sessionId : string) (userId sessionData : value)
  (lifespan : option Z) : M bool :=
  set now (session_key sessionId) (VSession userId sessionData now now)
    (Some (match lifespan with Some l => l | None => 86400 end)).

Definition getSession (now : Z) (sessionId : string) : M value :=
  session <- get now (session_key sessionId) ;;
  if truthy session then
    session' <- lift_outcome (assign_lastActive now session) ;;
    set now (session_key sessionId) session' None ;;;
    ret session'
  else ret session.

Definition deleteSession (sessionId : string) : M bool :=
  delete (session_key sessionId).

Definition clear : M bool :=
  try_catch
    (active <- gets isPrimaryActive ;;
     (if active then call (r_flushdb client)
      else modify (set_memoryCache [])) ;;;
     modify (set_metrics initial_metrics) ;;;
     ret true)
    (fun _ => ret false).

Definition getTTL (now : Z) (key : string) : M Z :=
  try_catch
    (active <- gets isPrimaryActive ;;
     if active then call (r_ttl client key)
     else
       m <- gets memoryCache ;;
       match map_get key m with
       | None => ret (-2)
       | Some entry =>
           match expiration entry with
           | None => ret (-1)
           | Some t =>
               if t =? 0 then ret (-1)
               else ret (Z.max 0 (t - now) / 1000)
           end
       end)
    (fun _ => ret (-2)).

Definition setTTL (now : Z) (key : string) (seconds : Z) : M bool :=
  try_catch
    (active <- gets isPrimaryActive ;;
     if active then call (r_expire client key seconds) ;;; ret true
     else
       m <- gets memoryCache ;;
       match map_get key m with
       | Some entry =>
           modify (fun e =>
                     set_memoryCache
                       (map_set key
                          (mkEntry (entry_value entry) (Some (now + seconds * 1000))
                             (lastAccessed entry))
                          (memoryCache e)) e) ;;;
           ret true
       | None => ret false
       end)
    (fun _ => ret false).

Definition shutdown (e : CacheEngine R) : CacheEngine R :=
  let e1 := if primaryClient e
            then set_primaryClient false (set_remote (r_close client (remote e)) e)
            else e in
  set_primaryActive false (set_memoryCache [] e1).

(** ** [CacheService] *)

Definition setJson (now : Z) (key : string) (v : value) (lifespan : option Z) : M bool :=
  set now key v lifespan.

Definition memoize {G P : Type} (fn : P -> Eff G value) (keyBuilder : P -> string)
  (lifespan : option Z) (now later : Z) (params : P) (g : G) (e : CacheEngine R)
  : outcome value * G * CacheEngine R :=
  getOrSet now later (keyBuilder params) (fn params) lifespan g e.

(** The polling loop of [acquireLock]. [polls] are the readings of
    [Date.now()] at the successive tests of the loop condition (the loop
    sleeps 10 ms between two of them); [None] means that the loop is still
    running when the readings run out. [lockToken] is the string drawn
    with [Math.random]. *)
Fixpoint acquireLock_loop (polls : list Z) (startTime : Z) (lockKey lockToken : string)
  (duration timeout : Z) : M (option bool) :=
  match polls with
  | [] => ret None
  | now :: later =>
      if now - startTime <? timeout then
        existing <- get now lockKey ;;
        if negb (truthy existing) then
          acquired <- set now lockKey (VStr lockToken) (Some duration) ;;
          if acquired then ret (Some true)
          else acquireLock_loop later startTime lockKey lockToken duration timeout
        else acquireLock_loop later startTime lockKey lockToken duration timeout
      else ret (Some false)
  end.

Definition acquireLock (startTime : Z) (polls : list Z) (lockToken lockKey : string)
  (duration timeout : option Z) : M (option bool) :=
  acquireLock_loop polls startTime lockKey lockToken
    (match duration with Some d => d | None => 30 end)
    (match timeout with Some t => t | None => 10000 end).

Definition releaseLock (lockKey : string) : M bool := delete lockKey.

End Engine.

Arguments call {R A} _ _.
Arguments establishPrimaryConnection {R} _ _.
Arguments new_CacheEngine {R} _ _ _ _.
Arguments ping_settled {R} _ _.
Arguments onclose {R} _.
Arguments onconnect {R} _.
Arguments ensureConnection {R} _ _.
Arguments getMetrics {R} _.
Arguments evict {R} _ _.
Arguments set {R} _ _ _ _ _ _ _.
Arguments get {R} _ _ _ _ _.
Arguments has {R} _ _ _ _.
Arguments delete {R} _ _ _.
Arguments increment {R} _ _ _ _ _ _.
Arguments set_start {R} _ _ _ _ _ _ _.
Arguments set_finish {R} _ _ _ _.
Arguments start_each {R} _ _ _ _ _ _.
Arguments finish_each {R} _ _ _ _.
Arguments set_each {R} _ _ _ _ _ _.
Arguments setBatch {R} _ _ _ _ _ _.
Arguments get_each {R} _ _ _ _ _.
Arguments getBatch {R} _ _ _ _ _.
Arguments getOrSet {R} _ _ _ {G} _ _ _ _ _ _ _.
Arguments rateLimit {R} _ _ _ _ _ _ _ _.
Arguments createSession {R} _ _ _ _ _ _ _ _.
Arguments getSession {R} _ _ _ _ _ _.
Arguments deleteSession {R} _ _ _.
Arguments clear {R} _ _.
Arguments getTTL {R} _ _ _ _.
Arguments setTTL {R} _ _ _ _ _.
Arguments shutdown {R} _ _.
Arguments releaseLock {R} _ _ _.
Arguments setJson {R} _ _ _ _ _ _.
Arguments memoize {R} _ _ _ {G P} _ _ _ _ _ _ _ _.
Arguments acquireLock_loop {R} _ _ _ _ _ _ _ _ _.
Arguments acquireLock {R} _ _ _ _ _ _ _ _ _.

(** ** Vocabulary of the properties *)

(** A call is served by the memory tier: the remote tier is not active
    and the call does not open the connection (the constructor has
    started it, or no endpoint is configured). *)
Definition local_tier {R : Type} (e : CacheEngine R) : bool :=
  negb (isPrimaryActive e)
  && (connectionReady e || negb (nonempty (primaryEndpoint (config e)))).

(** A call is served by the remote tier. *)
Definition remote_tier {R : Type} (e : CacheEngine R) : bool :=
  isPrimaryActive e
  && (connectionReady e || negb (nonempty (primaryEndpoint (config e)))).

(** The state a local [set] leaves. *)
Definition local_set_state {R : Type} (now : Z) (key : string) (v : value)
  (lifespan : option Z) (e : CacheEngine R) : CacheEngine R :=
  count_write
    (set_memoryCache
       (map_set key (mkEntry v (local_expiration (config e) now lifespan) now)
          (if memoryTierLimit (config e) <=? map_size (memoryCache e)
           then evict_map now (memoryCache e)
           else memoryCache e))
       e).

(** The value [increment] starts from on the memory tier. *)
Definition local_counter (now : Z) (key : string)
  (m : list (string * InMemoryCacheEntry)) : Z :=
  match map_get key m with
  | Some entry =>
      if counter_live now entry
      then match entry_value entry with VNum n => n | _ => 0 end
      else 0
  | None => 0
  end.

(** A supplier that counts its invocations. *)
Definition counting {G : Type} (generator : Eff G value) : Eff (nat * G) value :=
  fun s => let (o, g') := generator (snd s) in (o, (S (fst s), g')).

(** A series of [get] calls, each with its clock reading. *)
Fixpoint get_series {R : Type} (client : RedisClient R)
  (JSON_parse : string -> outcome value) (calls : list (Z * string))
  (e : CacheEngine R) : CacheEngine R :=
  match calls with
  | [] => e
  | (now, key) :: rest =>
      get_series client JSON_parse rest (snd (get client JSON_parse now key e))
  end.

(** An object whose property [lastActive] can be written: it has the
    property and is not frozen, or it lacks it and can be extended. *)
Definition takes_lastActive (v : value) : bool :=
  match v with
  | VSession _ _ _ _ => true
  | VObject Frozen _ => false
  | VObject NonExtensible properties => map_has "lastActive" properties
  | VObject Extensible _ => true
  | _ => false
  end.

(** *** Two remote sides to run the engine against *)

(** A server that cannot be reached: every call is rejected. *)
Definition unreachable {A : Type} : Eff unit A :=
  throw (TransportError "ECONNREFUSED").

Definition down_client : RedisClient unit :=
  mkClient unit unreachable unreachable (fun _ => unreachable)
    (fun _ _ => unreachable) (fun _ _ => unreachable) (fun _ => unreachable)
    (fun _ => unreachable) (fun _ => unreachable) (fun _ _ => unreachable)
    (fun _ => unreachable) unreachable (fun r => r).

(** A reachable server that holds no key: GET answers nil, DEL 0,
    EXISTS false, INCR 1, TTL -2. *)
Definition empty_client : RedisClient unit :=
  mkClient unit (ret tt) (ret tt) (fun _ => ret None)
    (fun _ _ => ret tt) (fun _ _ => ret tt) (fun _ => ret false)
    (fun _ => ret 0) (fun _ => ret 1) (fun _ step => ret step)
    (fun _ => ret (-2)) (ret tt) (fun r => r).

(** A reachable server that keeps the list of the commands it has
    received and holds no key. *)
Definition record {A : Type} (command : string) (reply : A) : Eff (list string) A :=
  fun log => (Ok reply, (log ++ [command])%list).

Definition recording_client : RedisClient (list string) :=
  mkClient (list string) (ret tt) (record "PING" tt)
    (fun key => record ("GET " ++ key) None)
    (fun key _ => record ("SET " ++ key) tt)
    (fun key _ => record ("EXPIRE " ++ key) tt)
    (fun key => record ("EXISTS " ++ key) false)
    (fun key => record ("DEL " ++ key) 0)
    (fun key => record ("INCR " ++ key) 1)
    (fun key step => record ("INCRBY " ++ key) step)
    (fun key => record ("TTL " ++ key) (-2))
    (record "FLUSHDB" tt) (fun log => log).

(** A codec that rejects everything. *)
Definition no_stringify (v : value) : outcome string :=
  Throw (SerializationError "cannot encode").

Definition no_parse (s : string) : outcome value :=
  Throw (SerializationError "cannot decode").

Definition local_only (limit : Z) : CacheStorageConfigInput :=
  mkConfigInput None None (Some limit).

Definition defaults : CacheStorageConfigInput := mkConfigInput None None None.

(** *** Engines to run *)

(** A process without endpoint: memory tier only, at most [limit]
    entries. *)
Definition memory_engine (limit : Z) : CacheEngine unit :=
  new_CacheEngine down_client None (local_only limit) tt.

(** A process whose endpoint answered the PING: remote tier active. *)
Definition connected_engine : CacheEngine unit :=
  snd (ping_settled empty_client
         (new_CacheEngine empty_client (Some "redis://localhost:6379") defaults tt)).

(** The same against the recording server. *)
Definition recording_engine : CacheEngine (list string) :=
  snd (ping_settled recording_client
         (new_CacheEngine recording_client (Some "redis://localhost:6379") defaults [])).

(** [set("k", "v", -1700000000)] at [Date.now() = 1700000000000]: the
    entry gets the expiration 0. *)
Definition epoch_engine : CacheEngine unit :=
  snd (set down_client no_stringify 1700000000000 "k" (VStr "v")
         (Some (-1700000000)) (memory_engine 10000)).

(** [set("k", "v", 1)] at [Date.now() = 1000]: expiration 2000. *)
Definition short_lived_engine : CacheEngine unit :=
  snd (set down_client no_stringify 1000 "k" (VStr "v") (Some 1)
         (memory_engine 10000)).

(** ** The rest of [cache.ts] and its callers *)

(** [diagnostics]: pings again when there is a client, and reports. The
    answer is (primaryActive, memoryActive, metrics). *)
Definition diagnostics {R : Type} (client : RedisClient R) (e : CacheEngine R)
  : (bool * bool * CachePerformanceMetrics) * CacheEngine R :=
  let (primaryHealthy, e1) :=
    if primaryClient e then
      match call (r_ping client) e with
      | (Ok _, e') => (true, e')
      | (Throw _, e') => (false, e')
      end
    else (false, e) in
  let (m, e2) := getMetrics e1 in
  ((primaryHealthy, true, m), e2).

(** [src/lib/get-cache-key.ts] *)
Inductive CacheKeyType : Type := KSearch | KInfo | KLibrary | KDownload.

Definition CacheKeyType_text (type : CacheKeyType) : string :=
  match type with
  | KSearch => "search"
  | KInfo => "info"
  | KLibrary => "library"
  | KDownload => "download"
  end.

Definition CACHE_KEY_BASE : string := "KEYGENMUSIC:".

Definition getCacheKey (type : CacheKeyType) (identifier : string) : string :=
  (CACHE_KEY_BASE ++ CacheKeyType_text type ++ ":" ++ identifier)%string.

(** [src/core/library/types.ts] and [src/core/music/music.ts] *)
Record MusicType : Type := mkMusic {
  music_id : Z;
  composer : string;
  software : string;
  metadata : string;
  path : string
}.

Definition KEYGENMUSIC_URL : string := "https://keygenmusic.tk".

(** [Music.getDownloadUrl]. The cache key is built from the literal
    [`id`], as in the source. [Library.info] fetches and caches records
    and arrays; it is taken as any effectful function [info] on the
    engine. [get] reads the clock at [now], [set] at [later]. *)
Definition getDownloadUrl {R : Type} (client : RedisClient R)
  (JSON_stringify : value -> outcome string) (JSON_parse : string -> outcome value)
  (info : string -> bool -> Eff (CacheEngine R) (option MusicType))
  (now later : Z) (id : string) : Eff (CacheEngine R) value :=
  (let cacheKey := getCacheKey KDownload "id" in
   cached <- get client JSON_parse now cacheKey ;;
   if truthy cached then ret cached
   else
     musicInfo <- info id true ;;
     match musicInfo with
     | None => ret VNull
     | Some m =>
         let completeUrl := (KEYGENMUSIC_URL ++ path m)%string in
         set client JSON_stringify later cacheKey (VStr completeUrl) (Some 86400) ;;;
         ret (VStr completeUrl)
     end)%eff.

(** *** Series of calls *)

(** [set] calls one after the other: (clock, key, value, lifespan). *)
Fixpoint set_series {R : Type} (client : RedisClient R)
  (JSON_stringify : value -> outcome string)
  (calls : list (Z * string * value * option Z)) (e : CacheEngine R) : CacheEngine R :=
  match calls with
  | [] => e
  | (now, key, v, lifespan) :: rest =>
      set_series client JSON_stringify rest
        (snd (set client JSON_stringify now key v lifespan e))
  end.

(** The clock advances strictly from call to call and no key is empty. *)
Fixpoint clock_advances (last : Z) (calls : list (Z * string * value * option Z)) : Prop :=
  match calls with
  | [] => True
  | (now, key, _, _) :: rest => last < now /\ key <> "" /\ clock_advances now rest
  end.

(** [increment] calls on one key, (clock, step) each; the answers in
    order, a failure as [None]. *)
Fixpoint increment_series {R : Type} (client : RedisClient R)
  (JSON_stringify : value -> outcome string) (key : string)
  (calls : list (Z * Z)) (e : CacheEngine R) : list (option Z) * CacheEngine R :=
  match calls with
  | [] => ([], e)
  | (now, step) :: rest =>
      let (o, e1) := increment client JSON_stringify now key step e in
      let (answers, e2) := increment_series client JSON_stringify key rest e1 in
      ((match o with Ok n => Some n | Throw _ => None end) :: answers, e2)
  end.

Fixpoint running_sums (start : Z) (steps : list Z) : list (option Z) :=
  match steps with
  | [] => []
  | step :: rest => Some (start + step) :: running_sums (start + step) rest
  end.

(** Each call is made before the counter written by the previous one
    expires: not later than [lifespan] seconds after it, or any time when
    the lifespan is not positive (no expiration). *)
Fixpoint within_lifespan (lifespan last : Z) (calls : list (Z * Z)) : Prop :=
  match calls with
  | [] => True
  | (now, _) :: rest =>
      (lifespan <= 0 \/ now <= last + lifespan * 1000)
      /\ within_lifespan lifespan now rest
  end.

(** [rateLimit] calls for one key, each with its two clock readings. *)
Fixpoint rateLimit_series {R : Type} (client : RedisClient R)
  (JSON_stringify : value -> outcome string) (key : string)
  (maxRequests windowSeconds : Z) (times : list (Z * Z)) (e : CacheEngine R)
  : list (outcome CacheTrafficControlResult) * CacheEngine R :=
  match times with
  | [] => ([], e)
  | (now, caught) :: rest =>
      let (o, e1) :=
        rateLimit client JSON_stringify now caught key maxRequests windowSeconds e in
      let (answers, e2) :=
        rateLimit_series client JSON_stringify key maxRequests windowSeconds rest e1 in
      (o :: answers, e2)
  end.

(** The answers to [n] calls in a window whose counter stands at
    [count]. *)
Fixpoint window_answers (maxRequests reset count : Z) (n : nat)
  : list (outcome CacheTrafficControlResult) :=
  match n with
  | O => []
  | S n' =>
      Ok (mkTraffic (count + 1 <=? maxRequests) (Z.max 0 (maxRequests - (count + 1)))
            reset (count + 1))
      :: window_answers maxRequests reset (count + 1) n'
  end.

(** The value of the last item of a batch that carries the key. *)
Fixpoint last_value (key : string) (data : list (string * value)) : option value :=
  match data with
  | [] => None
  | (k, v) :: rest =>
      match last_value key rest with
      | Some v' => Some v'
      | None => if String.eqb k key then Some v else None
      end
  end.

(** The entries of the memory tier are well formed for [evict] at
    [now]: no empty key, each last accessed before [now]. *)
Definition evictable (now : Z) (m : list (string * InMemoryCacheEntry)) : Prop :=
  Forall (fun kv => nonempty (fst kv) = true /\ lastAccessed (snd kv) < now) m.

(** ** Lemmas on the map *)

Section JsMapFacts.

Context {V : Type}.
Implicit Types (m : list (string * V)) (k : string) (v : V).

Lemma map_get_set_same m k v : map_get k (map_set k v m) = Some v.
Proof.
  induction m as [|[k' v'] m IH]; simpl.
  - now rewrite String.eqb_refl.
  - destruct (String.eqb k' k) eqn:E; simpl.
    + now rewrite String.eqb_refl.
    + now rewrite E.
Qed.

Lemma map_get_set_other m k k' v :
  k' <> k -> map_get k' (map_set k v m) = map_get k' m.
Proof.
  intros Hne. induction m as [|[k0 v0] m IH]; simpl.
  - destruct (String.eqb k k') eqn:E; [|reflexivity].
    apply String.eqb_eq in E. congruence.
  - destruct (String.eqb k0 k) eqn:E; simpl.
    + apply String.eqb_eq in E. subst k0.
      destruct (String.eqb k k') eqn:E'; [|reflexivity].
      apply String.eqb_eq in E'. congruence.
    + now rewrite IH.
Qed.

Lemma map_get_delete_same m k : map_get k (map_delete k m) = None.
Proof.
  unfold map_delete. induction m as [|[k' v'] m IH]; simpl; [reflexivity|].
  destruct (String.eqb k' k) eqn:E; simpl; [assumption|].
  now rewrite E.
Qed.

Lemma map_get_delete_other m k k' :
  k' <> k -> map_get k' (map_delete k m) = map_get k' m.
Proof.
  intros Hne. unfold map_delete.
  induction m as [|[k0 v0] m IH]; simpl; [reflexivity|].
  destruct (String.eqb k0 k) eqn:E; simpl.
  - apply String.eqb_eq in E. subst k0.
    destruct (String.eqb k k') eqn:E'; [|assumption].
    apply String.eqb_eq in E'. congruence.
  - now rewrite IH.
Qed.

Lemma map_delete_absent m k : map_get k m = None -> map_delete k m = m.
Proof.
  unfold map_delete. induction m as [|[k' v'] m IH]; simpl; [reflexivity|].
  destruct (String.eqb k' k) eqn:E; simpl; [discriminate|].
  intros H. now rewrite IH.
Qed.

Lemma map_size_set_le m k v : map_size (map_set k v m) <= map_size m + 1.
Proof.
  unfold map_size. induction m as [|[k' v'] m IH]; simpl List.length; [lia|].
  destruct (String.eqb k' k); simpl List.length; lia.
Qed.

Lemma map_size_delete_le m k : map_size (map_delete k m) <= map_size m.
Proof.
  unfold map_size, map_delete.
  pose proof (filter_length_le (fun kv : string * V => negb (String.eqb (fst kv) k)) m).
  lia.
Qed.

Lemma map_delete_present_length m k v :
  map_get k m = Some v ->
  (List.length (map_delete k m) < List.length m)%nat.
Proof.
  unfold map_delete.
  induction m as [|[k' v'] m IH]; cbn [map_get filter fst]; [discriminate|].
  destruct (String.eqb k' k) eqn:E; cbn [negb List.length].
  - intros _.
    pose proof (filter_length_le (fun kv : string * V => negb (String.eqb (fst kv) k)) m).
    lia.
  - intros H. specialize (IH H). lia.
Qed.

Lemma map_size_delete_present m k v :
  map_get k m = Some v -> map_size (map_delete k m) <= map_size m - 1.
Proof.
  intros H. apply map_delete_present_length in H. unfold map_size. lia.
Qed.

End JsMapFacts.

(** ** The memory tier, call by call *)

Section LocalTier.

Variable R : Type.
Variable client : RedisClient R.
Variable JSON_stringify : value -> outcome string.
Variable JSON_parse : string -> outcome value.
Implicit Types (e : CacheEngine R) (now : Z) (key : string).

Lemma local_tier_inactive e : local_tier e = true -> isPrimaryActive e = false.
Proof.
  unfold local_tier. intros H. apply andb_prop in H as [H _].
  now apply negb_true_iff in H.
Qed.

Lemma ensureConnection_local e :
  local_tier e = true -> ensureConnection client e = (Ok tt, e).
Proof.
  unfold local_tier, ensureConnection. intros H.
  apply andb_prop in H as [_ H].
  destruct (connectionReady e); cbn [negb andb orb] in *; [reflexivity|].
  apply negb_true_iff in H. now rewrite H.
Qed.

Lemma ensureConnection_remote e :
  remote_tier e = true -> ensureConnection client e = (Ok tt, e).
Proof.
  unfold remote_tier, ensureConnection. intros H.
  apply andb_prop in H as [_ H].
  destruct (connectionReady e); cbn [negb andb orb] in *; [reflexivity|].
  apply negb_true_iff in H. now rewrite H.
Qed.

Lemma remote_tier_active e : remote_tier e = true -> isPrimaryActive e = true.
Proof. unfold remote_tier. intros H. now apply andb_prop in H as [H _]. Qed.

(** Entering a method on the memory tier. *)
Ltac enter_local H :=
  unfold try_catch, bind, gets, modify, ret;
  rewrite (ensureConnection_local _ H);
  rewrite (local_tier_inactive _ H).

Lemma set_local e now key v lifespan :
  local_tier e = true ->
  set client JSON_stringify now key v lifespan e
  = (Ok true, local_set_state now key v lifespan e).
Proof.
  intros H. unfold set, local_set_state, evict. enter_local H.
  destruct (memoryTierLimit (config e) <=? map_size (memoryCache e)); reflexivity.
Qed.

Lemma local_tier_set_memoryCache e m :
  local_tier (set_memoryCache m e) = local_tier e.
Proof. reflexivity. Qed.

Lemma local_tier_set_metrics e m :
  local_tier (set_metrics m e) = local_tier e.
Proof. reflexivity. Qed.

Lemma local_tier_set_state e now key v lifespan :
  local_tier (local_set_state now key v lifespan e) = local_tier e.
Proof. reflexivity. Qed.

Lemma config_set_state e now key v lifespan :
  config (local_set_state now key v lifespan e) = config e.
Proof. reflexivity. Qed.

Lemma get_set_state e now key v lifespan :
  map_get key (memoryCache (local_set_state now key v lifespan e))
  = Some (mkEntry v (local_expiration (config e) now lifespan) now).
Proof. unfold local_set_state. simpl. apply map_get_set_same. Qed.

Lemma get_local_absent e now key :
  local_tier e = true ->
  map_get key (memoryCache e) = None ->
  get client JSON_parse now key e = (Ok VNull, count_failed e).
Proof.
  intros H Hk. unfold get. enter_local H. now rewrite Hk.
Qed.

Lemma get_local_expired e now key entry :
  local_tier e = true ->
  map_get key (memoryCache e) = Some entry ->
  past_expiration now entry = true ->
  get client JSON_parse now key e
  = (Ok VNull, count_failed (set_memoryCache (map_delete key (memoryCache e)) e)).
Proof.
  intros H Hk Hx. unfold get. enter_local H. now rewrite Hk, Hx.
Qed.

Lemma get_local_live e now key entry :
  local_tier e = true ->
  map_get key (memoryCache e) = Some entry ->
  past_expiration now entry = false ->
  get client JSON_parse now key e
  = (Ok (entry_value entry),
     count_successful
       (set_memoryCache
          (map_set key (mkEntry (entry_value entry) (expiration entry) now)
             (memoryCache e)) e)).
Proof.
  intros H Hk Hx. unfold get. enter_local H. now rewrite Hk, Hx.
Qed.

Lemma has_local_absent e now key :
  local_tier e = true ->
  map_get key (memoryCache e) = None ->
  has client now key e = (Ok false, e).
Proof.
  intros H Hk. unfold has. enter_local H. now rewrite Hk.
Qed.

Lemma has_local_expired e now key entry :
  local_tier e = true ->
  map_get key (memoryCache e) = Some entry ->
  past_expiration now entry = true ->
  has client now key e
  = (Ok false, set_memoryCache (map_delete key (memoryCache e)) e).
Proof.
  intros H Hk Hx. unfold has. enter_local H. now rewrite Hk, Hx.
Qed.

Lemma has_local_live e now key entry :
  local_tier e = true ->
  map_get key (memoryCache e) = Some entry ->
  past_expiration now entry = false ->
  has client now key e = (Ok true, e).
Proof.
  intros H Hk Hx. unfold has. enter_local H. now rewrite Hk, Hx.
Qed.

Lemma delete_local e key :
  local_tier e = true ->
  delete client key e
  = (Ok (map_has key (memoryCache e)),
     let e' := set_memoryCache (map_delete key (memoryCache e)) e in
     if map_has key (memoryCache e) then count_removal e' else e').
Proof.
  intros H. unfold delete. enter_local H.
  destruct (map_has key (memoryCache e)); reflexivity.
Qed.

Lemma increment_local e now key step :
  local_tier e = true ->
  increment client JSON_stringify now key step e
  = (Ok (local_counter now key (memoryCache e) + step),
     local_set_state now key
       (VNum (local_counter now key (memoryCache e) + step)) None e).
Proof.
  intros H. unfold increment. enter_local H.
  fold (local_counter now key (memoryCache e)).
  now rewrite (set_local _ _ _ _ _ H).
Qed.

Lemma getTTL_local e now key :
  local_tier e = true ->
  getTTL client now key e
  = (Ok match map_get key (memoryCache e) with
        | None => -2
        | Some entry =>
            if has_expiration (expiration entry)
            then Z.max 0 (match expiration entry with Some t => t | None => 0 end - now) / 1000
            else -1
        end, e).
Proof.
  intros H. unfold getTTL, try_catch, bind, gets, ret.
  rewrite (local_tier_inactive _ H).
  destruct (map_get key (memoryCache e)) as [entry|]; [|reflexivity].
  destruct (expiration entry) as [t|]; [|reflexivity].
  simpl. destruct (t =? 0); reflexivity.
Qed.

End LocalTier.

(** ** Expired entries: [get], [has] and [getTTL] *)

Lemma past_expiration_true now entry t :
  expiration entry = Some t -> t <> 0 -> t < now ->
  past_expiration now entry = true.
Proof.
  intros Hx Hz Hlt. unfold past_expiration. rewrite Hx.
  apply andb_true_intro. split.
  - apply negb_true_iff. now apply Z.eqb_neq.
  - now apply Z.ltb_lt.
Qed.

(** What [get] and [has] do where the test of the expiration works, that
    is for every expiration other than 0. On the memory tier, an entry
    whose expiration is such a timestamp in the past is a miss for [get]:
    [get] returns null, counts a failed read and removes the entry, so
    that any later [has] on the key answers false and finds nothing to
    remove; [has] on the expired entry itself answers false and removes
    it. *)
Lemma expired_entry_is_missed_and_purged :
  forall (R : Type) (client : RedisClient R) (JSON_parse : string -> outcome value)
    (e : CacheEngine R) (now later : Z) (key : string)
    (entry : InMemoryCacheEntry) (t : Z),
    local_tier e = true ->
    map_get key (memoryCache e) = Some entry ->
    expiration entry = Some t ->
    t <> 0 ->
    t < now ->
    let e1 := snd (get client JSON_parse now key e) in
    fst (get client JSON_parse now key e) = Ok VNull /\
    map_get key (memoryCache e1) = None /\
    failed (metrics e1) = failed (metrics e) + 1 /\
    successful (metrics e1) = successful (metrics e) /\
    has client later key e1 = (Ok false, e1) /\
    fst (has client now key e) = Ok false /\
    map_get key (memoryCache (snd (has client now key e))) = None.
Proof.
  intros R client JSON_parse e now later key entry t Hl Hk Hx Hz Hlt.
  pose proof (past_expiration_true now entry t Hx Hz Hlt) as Hp.
  rewrite (get_local_expired R client JSON_parse e now key entry Hl Hk Hp).
  rewrite (has_local_expired R client e now key entry Hl Hk Hp).
  cbn [fst snd].
  assert (Hgone : map_get key
            (memoryCache (count_failed (set_memoryCache (map_delete key (memoryCache e)) e)))
          = None) by apply map_get_delete_same.
  repeat split; try reflexivity; try assumption.
  now apply has_local_absent.
Qed.

Lemma expired_entry_example :
  (local_tier short_lived_engine = true /\
   map_get "k" (memoryCache short_lived_engine) = Some (mkEntry (VStr "v") (Some 2000) 1000) /\
   2000 <> 0 /\ 2000 < 3000) /\
  fst (get down_client no_parse 3000 "k" short_lived_engine) = Ok VNull /\
  has down_client 9000 "k" (snd (get down_client no_parse 3000 "k" short_lived_engine))
  = (Ok false, snd (get down_client no_parse 3000 "k" short_lived_engine)).
Proof.
  assert (H1 : local_tier short_lived_engine = true) by reflexivity.
  assert (H2 : map_get "k" (memoryCache short_lived_engine)
               = Some (mkEntry (VStr "v") (Some 2000) 1000)) by reflexivity.
  assert (H3 : 2000 <> 0) by discriminate.
  assert (H4 : 2000 < 3000) by reflexivity.
  split; [repeat split; assumption|].
  pose proof (expired_entry_is_missed_and_purged unit down_client no_parse
                short_lived_engine 3000 9000 "k" _ 2000 H1 H2 eq_refl H3 H4) as H.
  cbv zeta in H. destruct H as (Ha & _ & _ & _ & Hb & _).
  split; assumption.
Defined.

(** C3 (the code departs from it). An entry with an expiration in the
    past is to be a miss for [get] and [has], and purged. The engine
    tests [entry.expiration && Date.now() > entry.expiration], which is
    meant to skip the entries without expiration and also skips the
    expiration 0, a falsy number: [set('k', 'v', -1700000000)] at
    [Date.now() = 1700000000000] stores the expiration 0, and one
    millisecond later [get] serves the entry as a hit and [has] reports it
    present. *)
Theorem C3_expiration_zero_is_a_hit :
  local_tier epoch_engine = true /\
  map_get "k" (memoryCache epoch_engine)
  = Some (mkEntry (VStr "v") (Some 0) 1700000000000) /\
  0 < 1700000000001 /\
  fst (get down_client no_parse 1700000000001 "k" epoch_engine) = Ok (VStr "v") /\
  successful (metrics (snd (get down_client no_parse 1700000000001 "k" epoch_engine))) = 1 /\
  fst (has down_client 1700000000001 "k" epoch_engine) = Ok true.
Proof. repeat split. Qed.

(** What [getTTL] does where the test of the expiration works, that is
    for every expiration other than 0. On the memory tier, for an entry
    whose expiration is such a timestamp in the past, [getTTL] answers 0,
    not -2, and leaves the engine as it was, the entry included; [get] and
    [has] at the same instant report absence and remove the entry. *)
Lemma getTTL_of_expired_entry_is_zero :
  forall (R : Type) (client : RedisClient R) (JSON_parse : string -> outcome value)
    (e : CacheEngine R) (now : Z) (key : string)
    (entry : InMemoryCacheEntry) (t : Z),
    local_tier e = true ->
    map_get key (memoryCache e) = Some entry ->
    expiration entry = Some t ->
    t <> 0 ->
    t < now ->
    getTTL client now key e = (Ok 0, e) /\
    map_get key (memoryCache (snd (getTTL client now key e))) = Some entry /\
    fst (get client JSON_parse now key e) = Ok VNull /\
    map_get key (memoryCache (snd (get client JSON_parse now key e))) = None /\
    fst (has client now key e) = Ok false /\
    map_get key (memoryCache (snd (has client now key e))) = None.
Proof.
  intros R client JSON_parse e now key entry t Hl Hk Hx Hz Hlt.
  pose proof (past_expiration_true now entry t Hx Hz Hlt) as Hp.
  assert (Httl : getTTL client now key e = (Ok 0, e)).
  { rewrite (getTTL_local R client e now key Hl), Hk, Hx.
    unfold has_expiration.
    apply Z.eqb_neq in Hz. rewrite Hz. cbn [negb].
    replace (Z.max 0 (t - now)) with 0 by lia. reflexivity. }
  rewrite Httl.
  rewrite (get_local_expired R client JSON_parse e now key entry Hl Hk Hp).
  rewrite (has_local_expired R client e now key entry Hl Hk Hp).
  cbn [fst snd].
  repeat split; try assumption; apply map_get_delete_same.
Qed.

Lemma getTTL_of_expired_entry_example :
  (local_tier short_lived_engine = true /\
   map_get "k" (memoryCache short_lived_engine) = Some (mkEntry (VStr "v") (Some 2000) 1000) /\
   2000 <> 0 /\ 2000 < 3000) /\
  getTTL down_client 3000 "k" short_lived_engine = (Ok 0, short_lived_engine) /\
  fst (get down_client no_parse 3000 "k" short_lived_engine) = Ok VNull.
Proof.
  assert (H1 : local_tier short_lived_engine = true) by reflexivity.
  assert (H2 : map_get "k" (memoryCache short_lived_engine)
               = Some (mkEntry (VStr "v") (Some 2000) 1000)) by reflexivity.
  assert (H3 : 2000 <> 0) by discriminate.
  assert (H4 : 2000 < 3000) by reflexivity.
  split; [repeat split; assumption|].
  destruct (getTTL_of_expired_entry_is_zero unit down_client no_parse
              short_lived_engine 3000 "k" _ 2000 H1 H2 eq_refl H3 H4)
    as (Ha & _ & Hb & _).
  split; assumption.
Defined.

(** C10 (the code departs from it). For an entry whose expiration has
    passed [getTTL] is to answer 0, while [get] and [has] report absence.
    [getTTL] tests [!entry.expiration], which is meant for the entries
    without expiration and also takes the expiration 0, a falsy number:
    for the entry that [set('k', 'v', -1700000000)] stores at
    [Date.now() = 1700000000000], whose expiration 0 has passed, [getTTL]
    answers -1 (no expiry), and [get] serves the entry instead of
    reporting it absent. It is the same test as in [get] and [has]. *)
Theorem C10_expiration_zero_has_no_ttl :
  local_tier epoch_engine = true /\
  map_get "k" (memoryCache epoch_engine)
  = Some (mkEntry (VStr "v") (Some 0) 1700000000000) /\
  0 < 1700000000001 /\
  fst (getTTL down_client 1700000000001 "k" epoch_engine) = Ok (-1) /\
  fst (get down_client no_parse 1700000000001 "k" epoch_engine) = Ok (VStr "v").
Proof. repeat split. Qed.

(** ** Capacity of the memory tier and [evict] *)

(** What the loop of [evict] returns: the candidate it started from when
    no entry is older than the starting bound, otherwise the key of an
    entry whose [lastAccessed] is minimal. *)
Lemma evict_scan_spec :
  forall (l : list (string * InMemoryCacheEntry)) (c : string) (o : Z),
    (evict_scan l c o = c /\ Forall (fun kv => o <= lastAccessed (snd kv)) l)
    \/ (exists en, In (evict_scan l c o, en) l /\ lastAccessed en < o /\
                   Forall (fun kv => lastAccessed en <= lastAccessed (snd kv)) l).
Proof.
  induction l as [|[k0 e0] l IH]; intros c o; simpl.
  - left. split; [reflexivity|constructor].
  - destruct (lastAccessed e0 <? o) eqn:E.
    + apply Z.ltb_lt in E. right.
      destruct (IH k0 (lastAccessed e0)) as [[Hk Hall]|(en & Hin & Hlt & Hall)].
      * exists e0. rewrite Hk. repeat split; [now left|assumption|].
        constructor; [simpl; lia|assumption].
      * exists en. repeat split; [now right|lia|].
        constructor; [simpl; lia|assumption].
    + apply Z.ltb_ge in E.
      destruct (IH c o) as [[Hk Hall]|(en & Hin & Hlt & Hall)].
      * left. split; [assumption|]. constructor; [simpl; lia|assumption].
      * right. exists en. repeat split; [now right|assumption|].
        constructor; [simpl; lia|assumption].
Qed.

Lemma In_map_get {V : Type} (m : list (string * V)) (k : string) (v : V) :
  In (k, v) m -> exists v', map_get k m = Some v'.
Proof.
  induction m as [|[k0 v0] m IH]; simpl; [contradiction|].
  intros [H|H].
  - inversion H; subst. rewrite String.eqb_refl. now exists v.
  - destruct (String.eqb k0 k); [now exists v0|auto].
Qed.

(** When some entry was last accessed before [now] and no key is the
    empty string, [evict] removes an entry. *)
Lemma evict_map_shrinks now (m : list (string * InMemoryCacheEntry)) :
  m <> [] ->
  Forall (fun kv => nonempty (fst kv) = true /\ lastAccessed (snd kv) < now) m ->
  map_size (evict_map now m) <= map_size m - 1.
Proof.
  intros Hne Hall. unfold evict_map.
  destruct (evict_scan_spec m "" now) as [[_ Hge]|(en & Hin & _ & _)].
  - destruct m as [|kv m]; [congruence|].
    inversion Hall; subst. inversion Hge; subst. lia.
  - rewrite Forall_forall in Hall.
    destruct (Hall _ Hin) as [Hk _]. simpl in Hk. rewrite Hk.
    destruct (In_map_get _ _ _ Hin) as [v' Hv'].
    now apply map_size_delete_present with (v := v').
Qed.

(** The capacity is respected by [set] on the memory tier provided the
    clock has advanced since every entry was last accessed and no key is
    the empty string. *)
Lemma set_within_limit_when_clock_advanced :
  forall (R : Type) (client : RedisClient R) (JSON_stringify : value -> outcome string)
    (e : CacheEngine R) (now : Z) (key : string) (v : value) (lifespan : option Z),
    local_tier e = true ->
    0 < memoryTierLimit (config e) ->
    map_size (memoryCache e) <= memoryTierLimit (config e) ->
    Forall (fun kv => nonempty (fst kv) = true /\ lastAccessed (snd kv) < now)
      (memoryCache e) ->
    map_size (memoryCache (snd (set client JSON_stringify now key v lifespan e)))
    <= memoryTierLimit (config e).
Proof.
  intros R client JSON_stringify e now key v lifespan Hl Hpos Hsize Hall.
  rewrite (set_local R client JSON_stringify e now key v lifespan Hl).
  unfold local_set_state. cbn [snd]. simpl memoryCache.
  destruct (memoryTierLimit (config e) <=? map_size (memoryCache e)) eqn:E.
  - apply Z.leb_le in E.
    assert (Hne : memoryCache e <> []).
    { intros Hnil. rewrite Hnil in E. unfold map_size in E. simpl in E. lia. }
    pose proof (evict_map_shrinks now (memoryCache e) Hne Hall) as Hs.
    pose proof (map_size_set_le (evict_map now (memoryCache e)) key
                  (mkEntry v (local_expiration (config e) now lifespan) now)).
    lia.
  - apply Z.leb_gt in E.
    pose proof (map_size_set_le (memoryCache e) key
                  (mkEntry v (local_expiration (config e) now lifespan) now)).
    lia.
Qed.

(** C1 (the code departs from it). With [memoryTierLimit = 1], two
    [set] calls on different keys within one millisecond leave two
    entries in the memory tier: [evict] starts its search from
    [Date.now()] and compares strictly, so an entry accessed in the
    current millisecond is never a candidate and nothing is evicted. *)
Theorem C1_same_millisecond_writes_exceed_the_limit :
  let e1 := snd (set down_client no_stringify 1000 "a" (VNum 1) None (memory_engine 1)) in
  let e2 := snd (set down_client no_stringify 1000 "b" (VNum 2) None e1) in
  local_tier e1 = true /\
  memoryTierLimit (config e1) = 1 /\
  map_size (memoryCache e1) = 1 /\
  evict_map 1000 (memoryCache e1) = memoryCache e1 /\
  map_size (memoryCache e2) = 2 /\
  map_has "a" (memoryCache e2) = true /\
  map_has "b" (memoryCache e2) = true.
Proof. repeat split. Qed.

(** The same overrun for a key that is the empty string: [evict] selects
    it as the oldest entry, then takes the empty candidate for "no
    candidate" and removes nothing. *)
Lemma evict_never_removes_the_empty_key :
  let e1 := snd (set down_client no_stringify 1000 "" (VNum 1) None (memory_engine 1)) in
  let e2 := snd (set down_client no_stringify 5000 "b" (VNum 2) None e1) in
  evict_scan (memoryCache e1) "" 5000 = "" /\
  map_size (memoryCache e2) = 2.
Proof. repeat split. Qed.

(** ** [delete] and the removals counter *)

Lemma delete_remote :
  forall (R : Type) (client : RedisClient R) (e : CacheEngine R) (key : string)
    (n : Z) (r' : R),
    remote_tier e = true ->
    r_del client key (remote e) = (Ok n, r') ->
    delete client key e = (Ok (0 <? n), count_removal (set_remote r' e)).
Proof.
  intros R client e key n r' Hr Hdel.
  unfold delete, try_catch, bind, gets, modify, ret, call.
  rewrite (ensureConnection_remote R client e Hr).
  rewrite (remote_tier_active R e Hr), Hdel. reflexivity.
Qed.

(** On the memory tier the counter moves exactly when [delete] answers
    true. *)
Lemma delete_local_counts :
  forall (R : Type) (client : RedisClient R) (e : CacheEngine R) (key : string),
    local_tier e = true ->
    removals (metrics (snd (delete client key e)))
    = removals (metrics e)
      + (match fst (delete client key e) with Ok true => 1 | _ => 0 end).
Proof.
  intros R client e key Hl. rewrite (delete_local R client e key Hl).
  cbn [fst snd]. destruct (map_has key (memoryCache e)); simpl; lia.
Qed.

(** C7 (the code departs from it). On the remote tier [delete]
    increments [removals] before it looks at the reply: deleting a key
    the server does not hold (DEL answers 0) returns false and still
    counts a removal. *)
Theorem C7_remote_delete_counts_an_absent_key :
  remote_tier connected_engine = true /\
  r_del empty_client "missing" (remote connected_engine) = (Ok 0, tt) /\
  fst (delete empty_client "missing" connected_engine) = Ok false /\
  removals (metrics connected_engine) = 0 /\
  removals (metrics (snd (delete empty_client "missing" connected_engine))) = 1.
Proof. repeat split. Qed.

(** ** Facts that hold on both tiers *)

(** A try/catch whose handler returns normally always returns
    normally. *)
Lemma try_catch_total {S A : Type} (m : Eff S A) (h : error -> Eff S A) :
  (forall err s, is_ok (fst (h err s)) = true) ->
  forall s, is_ok (fst (try_catch m h s)) = true.
Proof.
  intros Hh s. unfold try_catch.
  destruct (m s) as [[a|err] s']; [reflexivity|apply Hh].
Qed.

(** Assigning null never fails on an object whose prototype is
    [Object.prototype] or null: the catch of [getBatch] always answers. *)
Lemma assign_each_nulls (keys : list string) (o : PlainObject) :
  (forall p, object_prototype o <> ValuePrototype p) ->
  is_ok (assign_each (map (fun key => (key, VNull)) keys) o) = true.
Proof.
  revert o. induction keys as [|key keys IH]; intros o Hp; [reflexivity|].
  cbn [map assign_each]. unfold assign_property.
  destruct (map_has key (own_properties o)).
  - apply IH. exact Hp.
  - destruct (object_prototype o) as [| |p] eqn:Hproto.
    + apply IH. destruct (String.eqb key "__proto__"); cbn; discriminate.
    + apply IH. cbn. discriminate.
    + now destruct (Hp p).
Qed.

Lemma set_never_throws :
  forall (R : Type) (client : RedisClient R) (JSON_stringify : value -> outcome string)
    (e : CacheEngine R) (now : Z) (key : string) (v : value) (lifespan : option Z),
    is_ok (fst (set client JSON_stringify now key v lifespan e)) = true.
Proof.
  intros. unfold set. apply try_catch_total. reflexivity.
Qed.

Lemma get_never_throws :
  forall (R : Type) (client : RedisClient R) (JSON_parse : string -> outcome value)
    (e : CacheEngine R) (now : Z) (key : string),
    is_ok (fst (get client JSON_parse now key e)) = true.
Proof. intros. unfold get. apply try_catch_total. reflexivity. Qed.

Lemma delete_never_throws :
  forall (R : Type) (client : RedisClient R) (e : CacheEngine R) (key : string),
    is_ok (fst (delete client key e)) = true.
Proof. intros. unfold delete. apply try_catch_total. reflexivity. Qed.

Lemma establishPrimaryConnection_keeps :
  forall (R : Type) (client : RedisClient R) (e : CacheEngine R),
    fst (establishPrimaryConnection client e) = Ok tt /\
    metrics (snd (establishPrimaryConnection client e)) = metrics e /\
    memoryCache (snd (establishPrimaryConnection client e)) = memoryCache e /\
    config (snd (establishPrimaryConnection client e)) = config e.
Proof.
  intros R client e. unfold establishPrimaryConnection.
  destruct (connectionReady e); [repeat split|].
  unfold try_catch, bind, modify, call. cbn [remote set_connectionReady].
  destruct (r_connect client (remote e)) as [[[]|err] r1]; cbn.
  - destruct (r_ping client r1) as [[[]|err] r2]; cbn; repeat split.
  - repeat split.
Qed.

Lemma ensureConnection_keeps :
  forall (R : Type) (client : RedisClient R) (e : CacheEngine R),
    fst (ensureConnection client e) = Ok tt /\
    metrics (snd (ensureConnection client e)) = metrics e /\
    memoryCache (snd (ensureConnection client e)) = memoryCache e /\
    config (snd (ensureConnection client e)) = config e.
Proof.
  intros R client e. unfold ensureConnection.
  destruct (negb (connectionReady e) && nonempty (primaryEndpoint (config e))).
  - apply establishPrimaryConnection_keeps.
  - repeat split.
Qed.

(** Once [ensureConnection] has run, it has nothing left to do. *)
Lemma ensureConnection_twice :
  forall (R : Type) (client : RedisClient R) (e : CacheEngine R),
    ensureConnection client (snd (ensureConnection client e))
    = (Ok tt, snd (ensureConnection client e)).
Proof.
  intros R client e.
  assert (Hready :
            connectionReady (snd (ensureConnection client e)) = true
            \/ nonempty (primaryEndpoint (config (snd (ensureConnection client e))))
               = false).
  { unfold ensureConnection.
    destruct (connectionReady e) eqn:Hr; cbn [negb andb]; [left; exact Hr|].
    destruct (nonempty (primaryEndpoint (config e))) eqn:Hn; [|right; exact Hn].
    left. unfold establishPrimaryConnection. rewrite Hr.
    unfold try_catch, bind, modify, call. cbn [remote set_connectionReady].
    destruct (r_connect client (remote e)) as [[[]|err] r1]; cbn; [|reflexivity].
    destruct (r_ping client r1) as [[[]|err] r2]; reflexivity. }
  set (e1 := snd (ensureConnection client e)) in *.
  unfold ensureConnection.
  destruct Hready as [H|H]; rewrite H; [reflexivity|].
  now rewrite andb_false_r.
Qed.

(** The two parts of a call, one after the other, are [set]. *)
Lemma set_start_then_finish :
  forall (R : Type) (client : RedisClient R) (JSON_stringify : value -> outcome string)
    (e : CacheEngine R) (now : Z) (key : string) (v : value) (lifespan : option Z),
    (started <- set_start client JSON_stringify now key v lifespan ;;
     set_finish client lifespan started)%eff e
    = set client JSON_stringify now key v lifespan e.
Proof.
  intros R client JSON_stringify e now key v lifespan.
  pose proof (ensureConnection_twice R client e) as Htwice.
  destruct (ensureConnection_keeps R client e) as (Hok & _).
  unfold set_start, set, try_catch, bind, gets, modify, ret, lift_outcome, call, evict.
  destruct (ensureConnection client e) as [o e1]. cbn [fst snd] in Hok, Htwice.
  subst o. cbv beta.
  destruct (isPrimaryActive e1) eqn:Ha.
  - destruct (JSON_stringify v) as [encoded|err]; [|reflexivity].
    destruct (r_set client key encoded (remote e1)) as [[[]|err] r1]; [|reflexivity].
    cbn [set_finish]. unfold try_catch, bind, gets, modify, ret, call.
    cbn [config set_remote remote].
    set (ttl := match lifespan with
                | Some l => l
                | None => entryLifespan (config e1)
                end).
    destruct (0 <? ttl); [|reflexivity].
    destruct (r_expire client key ttl r1) as [[[]|err] r2]; reflexivity.
  - cbv beta. rewrite Htwice, Ha.
    destruct (memoryTierLimit (config e1) <=? map_size (memoryCache e1));
      reflexivity.
Qed.

(** Every [get] counts a read: a hit, a miss, or both when the remote
    payload is found and then fails to decode. *)
Lemma get_counts_a_read :
  forall (R : Type) (client : RedisClient R) (JSON_parse : string -> outcome value)
    (e : CacheEngine R) (now : Z) (key : string),
    let m := metrics e in
    let m' := metrics (snd (get client JSON_parse now key e)) in
    (successful m' = successful m + 1 /\ failed m' = failed m)
    \/ (successful m' = successful m /\ failed m' = failed m + 1)
    \/ (successful m' = successful m + 1 /\ failed m' = failed m + 1).
Proof.
  intros R client JSON_parse e now key. cbv zeta.
  unfold get, try_catch, bind, gets, modify, ret, call, lift_outcome.
  destruct (ensureConnection_keeps R client e) as (Hok & Hm & _ & _).
  destruct (ensureConnection client e) as [o e1]. cbn [fst snd] in Hok, Hm.
  subst o. rewrite <- Hm.
  destruct (isPrimaryActive e1).
  - destruct (r_get client key (remote e1)) as [[[s|]|err] r1]; cbn.
    + destruct (nonempty s); cbn.
      * destruct (JSON_parse s); cbn; [left|right; right]; split; reflexivity.
      * right; left; split; reflexivity.
    + right; left; split; reflexivity.
    + right; left; split; reflexivity.
  - destruct (map_get key (memoryCache e1)) as [entry|]; cbn.
    + destruct (past_expiration now entry); cbn;
        [right; left|left]; split; reflexivity.
    + right; left; split; reflexivity.
Qed.

Lemma get_series_counts :
  forall (R : Type) (client : RedisClient R) (JSON_parse : string -> outcome value)
    (calls : list (Z * string)) (e : CacheEngine R),
    let m := metrics e in
    let m' := metrics (get_series client JSON_parse calls e) in
    successful m <= successful m' /\
    failed m <= failed m' /\
    successful m + failed m + Z.of_nat (List.length calls)
    <= successful m' + failed m'.
Proof.
  intros R client JSON_parse calls. cbv zeta.
  induction calls as [|[now key] calls IH]; intros e.
  - simpl. lia.
  - cbn [get_series List.length].
    specialize (IH (snd (get client JSON_parse now key e))).
    pose proof (get_counts_a_read R client JSON_parse e now key) as H.
    cbv zeta in H. lia.
Qed.

(** ** Metrics *)

(** C8. After any series of [get] calls, on either tier, started from
    an engine whose read counters are not negative (a new engine has
    both at 0), [getMetrics] reports the counters as they are, an
    efficiency equal to successful / (successful + failed) when a read
    has been counted, and 0 when both counters are 0; every [get] of the
    series has been counted. *)
Theorem C8_efficiency_is_the_hit_ratio :
  forall (R : Type) (client : RedisClient R) (JSON_parse : string -> outcome value)
    (e0 : CacheEngine R) (calls : list (Z * string)),
    0 <= successful (metrics e0) ->
    0 <= failed (metrics e0) ->
    let e := get_series client JSON_parse calls e0 in
    let s := successful (metrics e) in
    let f := failed (metrics e) in
    let reported := fst (getMetrics e) in
    successful reported = s /\
    failed reported = f /\
    Z.of_nat (List.length calls) <= s + f /\
    (0 < s + f ->
     efficiency reported = (inject_Z s / inject_Z (s + f))%Q) /\
    (s = 0 /\ f = 0 -> efficiency reported = 0%Q) /\
    (calls <> [] -> efficiency reported = (inject_Z s / inject_Z (s + f))%Q).
Proof.
  intros R client JSON_parse e0 calls Hs Hf. cbv zeta.
  pose proof (get_series_counts R client JSON_parse calls e0) as H.
  cbv zeta in H. destruct H as (H1 & H2 & H3).
  set (e := get_series client JSON_parse calls e0) in *.
  assert (Hpos : 0 < successful (metrics e) + failed (metrics e) ->
                 efficiency (fst (getMetrics e))
                 = (inject_Z (successful (metrics e))
                    / inject_Z (successful (metrics e) + failed (metrics e)))%Q).
  { intros Hgt. unfold getMetrics. cbn [fst efficiency].
    apply Z.ltb_lt in Hgt. now rewrite Hgt. }
  repeat split.
  - lia.
  - exact Hpos.
  - intros [Hs0 Hf0]. unfold getMetrics. cbn [fst efficiency].
    rewrite Hs0, Hf0. reflexivity.
  - intros Hne. apply Hpos.
    destruct calls as [|c calls]; [congruence|].
    cbn [List.length] in H3. lia.
Qed.

Lemma C8_efficiency_witness :
  (0 <= successful (metrics short_lived_engine) /\
   0 <= failed (metrics short_lived_engine)) /\
  efficiency
    (fst (getMetrics
            (get_series down_client no_parse
               [(1500, "k"); (1600, "absent"); (3000, "k")] short_lived_engine)))
  = (inject_Z 1 / inject_Z (1 + 2))%Q.
Proof.
  assert (H1 : 0 <= successful (metrics short_lived_engine)) by (vm_compute; discriminate).
  assert (H2 : 0 <= failed (metrics short_lived_engine)) by (vm_compute; discriminate).
  split; [split; assumption|].
  destruct (C8_efficiency_is_the_hit_ratio unit down_client no_parse short_lived_engine
              [(1500, "k"); (1600, "absent"); (3000, "k")] H1 H2)
    as (_ & _ & _ & _ & _ & H).
  apply H. discriminate.
Defined.

(** ** Sessions *)

Lemma createSession_local :
  forall (R : Type) (client : RedisClient R) (JSON_stringify : value -> outcome string)
    (e : CacheEngine R) (now : Z) (sessionId : string) (userId data : value)
    (lifespan : option Z),
    local_tier e = true ->
    createSession client JSON_stringify now sessionId userId data lifespan e
    = (Ok true,
       local_set_state now (session_key sessionId) (VSession userId data now now)
         (Some (match lifespan with Some l => l | None => 86400 end)) e).
Proof.
  intros. unfold createSession. now apply set_local.
Qed.

(** What [set] sends on the remote tier: SET, then EXPIRE with the
    lifespan given or else the default [entryLifespan], when positive. *)
Lemma set_remote_tier :
  forall (R : Type) (client : RedisClient R) (JSON_stringify : value -> outcome string)
    (e : CacheEngine R) (now : Z) (key : string) (v : value) (lifespan : option Z)
    (encoded : string) (r1 : R),
    remote_tier e = true ->
    JSON_stringify v = Ok encoded ->
    r_set client key encoded (remote e) = (Ok tt, r1) ->
    let ttl := match lifespan with Some l => l | None => entryLifespan (config e) end in
    set client JSON_stringify now key v lifespan e
    = if 0 <? ttl then
        match r_expire client key ttl r1 with
        | (Ok _, r2) => (Ok true, count_write (set_remote r2 e))
        | (Throw _, r2) => (Ok false, set_remote r2 e)
        end
      else (Ok true, count_write (set_remote r1 e)).
Proof.
  intros R client JSON_stringify e now key v lifespan encoded r1 Hr Henc Hset.
  cbv zeta.
  unfold set, try_catch, bind, gets, modify, ret, call, lift_outcome.
  rewrite (ensureConnection_remote R client e Hr).
  rewrite (remote_tier_active R e Hr), Henc, Hset.
  change (config (set_remote r1 e)) with (config e).
  destruct (0 <? match lifespan with Some l => l | None => entryLifespan (config e) end).
  - change (remote (set_remote r1 e)) with r1.
    destruct (r_expire client key
                match lifespan with Some l => l | None => entryLifespan (config e) end r1)
      as [[[]|err] r2]; reflexivity.
  - reflexivity.
Qed.



(** ** [getOrSet] *)




(** ** Locks *)




(** ** Rate limiting *)

Lemma rateLimit_local :
  forall (R : Type) (client : RedisClient R) (JSON_stringify : value -> outcome string)
    (e : CacheEngine R) (now caught : Z) (key : string) (maxRequests windowSeconds : Z),
    local_tier e = true ->
    let window := now / (windowSeconds * 1000) in
    let controlKey := traffic_key key window in
    let count := local_counter now controlKey (memoryCache e) + 1 in
    let counted := local_set_state now controlKey (VNum count) None e in
    rateLimit client JSON_stringify now caught key maxRequests windowSeconds e
    = (Ok (mkTraffic (count <=? maxRequests) (Z.max 0 (maxRequests - count))
             ((window + 1) * windowSeconds * 1000) count),
       if count =? 1
       then local_set_state now controlKey (VNum count) (Some windowSeconds) counted
       else counted).
Proof.
  intros R client JSON_stringify e now caught key maxRequests windowSeconds Hl. cbv zeta.
  unfold rateLimit, try_catch, bind.
  rewrite (increment_local R client JSON_stringify e now _ 1 Hl).
  destruct (local_counter now (traffic_key key (now / (windowSeconds * 1000)))
              (memoryCache e) + 1 =? 1) eqn:E.
  - rewrite set_local by exact Hl. reflexivity.
  - reflexivity.
Qed.

(** The counter entry a local [rateLimit] leaves. *)
Lemma rateLimit_local_entry :
  forall (R : Type) (client : RedisClient R) (JSON_stringify : value -> outcome string)
    (e : CacheEngine R) (now caught : Z) (key : string) (maxRequests windowSeconds : Z),
    local_tier e = true ->
    let controlKey := traffic_key key (now / (windowSeconds * 1000)) in
    let count := local_counter now controlKey (memoryCache e) + 1 in
    let e' := snd (rateLimit client JSON_stringify now caught key maxRequests
                     windowSeconds e) in
    local_tier e' = true /\
    config e' = config e /\
    map_get controlKey (memoryCache e')
    = Some (mkEntry (VNum count)
              (if count =? 1 then Some (now + windowSeconds * 1000)
               else local_expiration (config e) now None)
              now).
Proof.
  intros R client JSON_stringify e now caught key maxRequests windowSeconds Hl. cbv zeta.
  pose proof (rateLimit_local R client JSON_stringify e now caught key maxRequests
                windowSeconds Hl) as H.
  cbv zeta in H. rewrite H. cbn [snd].
  destruct (local_counter now (traffic_key key (now / (windowSeconds * 1000)))
              (memoryCache e) + 1 =? 1) eqn:E.
  - repeat split; [exact Hl|]. rewrite get_set_state. reflexivity.
  - repeat split; [exact Hl|]. rewrite get_set_state. reflexivity.
Qed.

(** Two instants of one window are less than a window apart. *)
Lemma same_window_close (d t t' : Z) :
  0 < d -> t / d = t' / d -> t' - t < d.
Proof.
  intros Hd Hw.
  pose proof (Z.mul_div_le t d Hd).
  pose proof (Z.mul_succ_div_gt t' d Hd).
  rewrite <- Hw in *. nia.
Qed.

(** Within its window the counter entry is always found live, provided
    the default lifespan, which [increment] gives it again at every call,
    is not shorter than the window. *)
Lemma counter_live_in_window :
  forall (cfg : CacheStorageConfig) (windowSeconds t t' count : Z),
    0 < windowSeconds ->
    windowSeconds <= entryLifespan cfg \/ entryLifespan cfg <= 0 ->
    t / (windowSeconds * 1000) = t' / (windowSeconds * 1000) ->
    counter_live t'
      (mkEntry (VNum count)
         (if count =? 1 then Some (t + windowSeconds * 1000)
          else local_expiration cfg t None) t) = true.
Proof.
  intros cfg ws t t' count Hws Hlife Hw.
  assert (Hclose : t' - t < ws * 1000) by (apply same_window_close; [lia|assumption]).
  unfold counter_live. cbn [expiration].
  destruct (count =? 1).
  - apply orb_true_iff. right. apply Z.leb_le. lia.
  - unfold local_expiration.
    destruct (0 <? entryLifespan cfg) eqn:E; [|reflexivity].
    apply Z.ltb_lt in E.
    apply orb_true_iff. right. apply Z.leb_le. lia.
Qed.

(** One more call in the window of a live counter. *)
Lemma rateLimit_local_next :
  forall (R : Type) (client : RedisClient R) (JSON_stringify : value -> outcome string)
    (e : CacheEngine R) (now caught : Z) (key : string) (maxRequests windowSeconds : Z)
    (entry : InMemoryCacheEntry) (c : Z),
    local_tier e = true ->
    map_get (traffic_key key (now / (windowSeconds * 1000))) (memoryCache e) = Some entry ->
    entry_value entry = VNum c ->
    counter_live now entry = true ->
    fst (rateLimit client JSON_stringify now caught key maxRequests windowSeconds e)
    = Ok (mkTraffic (c + 1 <=? maxRequests) (Z.max 0 (maxRequests - (c + 1)))
            ((now / (windowSeconds * 1000) + 1) * windowSeconds * 1000) (c + 1)) /\
    local_counter now (traffic_key key (now / (windowSeconds * 1000))) (memoryCache e) = c.
Proof.
  intros R client JSON_stringify e now caught key maxRequests windowSeconds entry c
    Hl Hk Hv Hlive.
  assert (Hc : local_counter now (traffic_key key (now / (windowSeconds * 1000)))
                 (memoryCache e) = c).
  { unfold local_counter. now rewrite Hk, Hlive, Hv. }
  pose proof (rateLimit_local R client JSON_stringify e now caught key maxRequests
                windowSeconds Hl) as H.
  cbv zeta in H. rewrite H, Hc. split; reflexivity.
Qed.

Lemma rateLimit_in_window_step :
  forall (R : Type) (client : RedisClient R) (JSON_stringify : value -> outcome string)
    (e : CacheEngine R) (t t' caught : Z) (key : string)
    (maxRequests windowSeconds count : Z),
    local_tier e = true ->
    0 < windowSeconds ->
    windowSeconds <= entryLifespan (config e) \/ entryLifespan (config e) <= 0 ->
    t / (windowSeconds * 1000) = t' / (windowSeconds * 1000) ->
    map_get (traffic_key key (t / (windowSeconds * 1000))) (memoryCache e)
    = Some (mkEntry (VNum count)
              (if count =? 1 then Some (t + windowSeconds * 1000)
               else local_expiration (config e) t None) t) ->
    let r := rateLimit client JSON_stringify t' caught key maxRequests windowSeconds e in
    fst r = Ok (mkTraffic (count + 1 <=? maxRequests)
                  (Z.max 0 (maxRequests - (count + 1)))
                  ((t / (windowSeconds * 1000) + 1) * windowSeconds * 1000)
                  (count + 1)) /\
    local_tier (snd r) = true /\
    config (snd r) = config e /\
    map_get (traffic_key key (t' / (windowSeconds * 1000))) (memoryCache (snd r))
    = Some (mkEntry (VNum (count + 1))
              (if count + 1 =? 1 then Some (t' + windowSeconds * 1000)
               else local_expiration (config e) t' None) t').
Proof.
  intros R client JSON_stringify e t t' caught key maxRequests windowSeconds count
    Hl Hws Hlife Hw Hk. cbv zeta.
  pose proof (counter_live_in_window (config e) windowSeconds t t' count Hws Hlife Hw)
    as Hlive.
  rewrite Hw in Hk.
  destruct (rateLimit_local_next R client JSON_stringify e t' caught key maxRequests
              windowSeconds _ count Hl Hk eq_refl Hlive) as [Hres Hc].
  destruct (rateLimit_local_entry R client JSON_stringify e t' caught key maxRequests
              windowSeconds Hl) as (Hl' & Hcfg & Hentry).
  rewrite Hc in Hentry. rewrite Hw.
  repeat split; assumption.
Qed.

(** What [rateLimit] does, on the window
    [floor(now / (windowSeconds*1000))] and the counter key
    [traffic:<key>:<window>]:
    - when [increment] returns [current], the answer is permitted =
      (current <= maxRequests), quota = max(0, maxRequests - current),
      windowReset = (window+1)*windowSeconds*1000, requestCount = current,
      and [set] with lifespan [windowSeconds] is called exactly when
      [current] is 1;
    - when [increment] fails, the answer is permitted with requestCount 1
      and a windowReset one window after the clock reading of the catch;
    - on the memory tier the count is the live counter plus one and the
      counter entry expires after [windowSeconds] exactly when the count is
      1; at every later call [increment] writes the entry again with the
      default lifespan;
    - on the memory tier, four calls with maxRequests = 3 in one window,
      starting without counter, answer true, true, true, false with
      requestCount 1, 2, 3, 4 provided the default lifespan is at least
      the window (as with the defaults 3600 and a window of 60). *)
Lemma rateLimit_fixed_window :
  forall (R : Type) (client : RedisClient R) (JSON_stringify : value -> outcome string)
    (e : CacheEngine R) (now caught : Z) (key : string) (maxRequests windowSeconds : Z),
    let window := now / (windowSeconds * 1000) in
    let controlKey := traffic_key key window in
    let reset := (window + 1) * windowSeconds * 1000 in
    let r := rateLimit client JSON_stringify now caught key maxRequests windowSeconds e in
    controlKey = ("traffic:" ++ key ++ ":" ++ string_of_Z window)%string /\
    (forall current e1,
        increment client JSON_stringify now controlKey 1 e = (Ok current, e1) ->
        fst r = Ok (mkTraffic (current <=? maxRequests)
                      (Z.max 0 (maxRequests - current)) reset current) /\
        snd r = if current =? 1
                then snd (set client JSON_stringify now controlKey (VNum 1)
                            (Some windowSeconds) e1)
                else e1) /\
    (forall err e1,
        increment client JSON_stringify now controlKey 1 e = (Throw err, e1) ->
        r = (Ok (mkTraffic true (maxRequests - 1) (caught + windowSeconds * 1000) 1),
             e1)) /\
    (local_tier e = true ->
     let count := local_counter now controlKey (memoryCache e) + 1 in
     fst r = Ok (mkTraffic (count <=? maxRequests) (Z.max 0 (maxRequests - count))
                   reset count) /\
     map_get controlKey (memoryCache (snd r))
     = Some (mkEntry (VNum count)
               (if count =? 1 then Some (now + windowSeconds * 1000)
                else local_expiration (config e) now None) now)) /\
    (forall t2 t3 t4 caught2 caught3 caught4 : Z,
        local_tier e = true ->
        0 < windowSeconds ->
        windowSeconds <= entryLifespan (config e) \/ entryLifespan (config e) <= 0 ->
        map_get controlKey (memoryCache e) = None ->
        t2 / (windowSeconds * 1000) = window ->
        t3 / (windowSeconds * 1000) = window ->
        t4 / (windowSeconds * 1000) = window ->
        let r1 := rateLimit client JSON_stringify now caught key 3 windowSeconds e in
        let r2 := rateLimit client JSON_stringify t2 caught2 key 3 windowSeconds (snd r1) in
        let r3 := rateLimit client JSON_stringify t3 caught3 key 3 windowSeconds (snd r2) in
        let r4 := rateLimit client JSON_stringify t4 caught4 key 3 windowSeconds (snd r3) in
        fst r1 = Ok (mkTraffic true 2 reset 1) /\
        fst r2 = Ok (mkTraffic true 1 reset 2) /\
        fst r3 = Ok (mkTraffic true 0 reset 3) /\
        fst r4 = Ok (mkTraffic false 0 reset 4)).
Proof.
  intros R client JSON_stringify e now caught key maxRequests windowSeconds. cbv zeta.
  set (window := now / (windowSeconds * 1000)).
  set (controlKey := traffic_key key window).
  split; [reflexivity|]. split; [|split; [|split]].
  - intros current e1 Hinc.
    unfold rateLimit, try_catch, bind. fold window. fold controlKey. rewrite Hinc.
    destruct (current =? 1) eqn:E.
    + apply Z.eqb_eq in E. subst current.
      pose proof (set_never_throws R client JSON_stringify e1 now controlKey (VNum 1)
                    (Some windowSeconds)) as Hset.
      destruct (set client JSON_stringify now controlKey (VNum 1)
                  (Some windowSeconds) e1) as [[b|err] e2];
        [|discriminate Hset].
      split; reflexivity.
    + split; reflexivity.
  - intros err e1 Hinc.
    unfold rateLimit, try_catch, bind. fold window. fold controlKey. rewrite Hinc.
    reflexivity.
  - intros Hl.
    pose proof (rateLimit_local R client JSON_stringify e now caught key maxRequests
                  windowSeconds Hl) as H.
    destruct (rateLimit_local_entry R client JSON_stringify e now caught key maxRequests
                windowSeconds Hl) as (_ & _ & Hentry).
    cbv zeta in H. fold window in H, Hentry. fold controlKey in H, Hentry.
    rewrite H at 1. split; [reflexivity|exact Hentry].
  - intros t2 t3 t4 caught2 caught3 caught4 Hl Hws Hlife Hfree Hw2 Hw3 Hw4.
    assert (Hc0 : local_counter now controlKey (memoryCache e) = 0).
    { unfold local_counter. now rewrite Hfree. }
    pose proof (rateLimit_local R client JSON_stringify e now caught key 3
                  windowSeconds Hl) as H1.
    destruct (rateLimit_local_entry R client JSON_stringify e now caught key 3
                windowSeconds Hl) as (Hl1 & Hcfg1 & Hentry1).
    cbv zeta in H1. fold window in H1, Hentry1. fold controlKey in H1, Hentry1.
    rewrite Hc0 in H1, Hentry1.
    set (e1 := snd (rateLimit client JSON_stringify now caught key 3 windowSeconds e)) in *.
    rewrite <- Hcfg1 in Hlife, Hentry1.
    destruct (rateLimit_in_window_step R client JSON_stringify e1 now t2 caught2 key 3
                windowSeconds (0 + 1) Hl1 Hws Hlife (eq_sym Hw2) Hentry1)
      as (Hr2 & Hl2 & Hcfg2 & Hentry2).
    set (e2 := snd (rateLimit client JSON_stringify t2 caught2 key 3 windowSeconds e1)) in *.
    rewrite <- Hcfg2 in Hlife, Hentry2.
    assert (Hw23 : t2 / (windowSeconds * 1000) = t3 / (windowSeconds * 1000))
      by congruence.
    destruct (rateLimit_in_window_step R client JSON_stringify e2 t2 t3 caught3 key 3
                windowSeconds (0 + 1 + 1) Hl2 Hws Hlife Hw23 Hentry2)
      as (Hr3 & Hl3 & Hcfg3 & Hentry3).
    set (e3 := snd (rateLimit client JSON_stringify t3 caught3 key 3 windowSeconds e2)) in *.
    rewrite <- Hcfg3 in Hlife, Hentry3.
    assert (Hw34 : t3 / (windowSeconds * 1000) = t4 / (windowSeconds * 1000))
      by congruence.
    destruct (rateLimit_in_window_step R client JSON_stringify e3 t3 t4 caught4 key 3
                windowSeconds (0 + 1 + 1 + 1) Hl3 Hws Hlife Hw34 Hentry3)
      as (Hr4 & _).
    rewrite Hw2 in Hr3. rewrite Hw3 in Hr4.
    fold window in Hr2.
    split; [|split; [|split]].
    + subst e1. rewrite H1 at 1. reflexivity.
    + exact Hr2.
    + exact Hr3.
    + exact Hr4.
Qed.

Lemma rateLimit_four_calls_example :
  let e := memory_engine 10000 in
  let r1 := rateLimit down_client no_stringify 1700000000000 1700000000000
              "ip" 3 60 e in
  let r2 := rateLimit down_client no_stringify 1700000001000 1700000001000
              "ip" 3 60 (snd r1) in
  let r3 := rateLimit down_client no_stringify 1700000002000 1700000002000
              "ip" 3 60 (snd r2) in
  let r4 := rateLimit down_client no_stringify 1700000003000 1700000003000
              "ip" 3 60 (snd r3) in
  (local_tier e = true /\ 0 < 60 /\ 60 <= entryLifespan (config e) /\
   map_get (traffic_key "ip" 28333333) (memoryCache e) = None) /\
  fst r1 = Ok (mkTraffic true 2 1700000040000 1) /\
  fst r2 = Ok (mkTraffic true 1 1700000040000 2) /\
  fst r3 = Ok (mkTraffic true 0 1700000040000 3) /\
  fst r4 = Ok (mkTraffic false 0 1700000040000 4) /\
  fst (rateLimit down_client no_stringify 1700000000000 1700000000007 "ip" 3 60
         connected_engine)
  = Ok (mkTraffic true 2 1700000060007 1).
Proof.
  cbv zeta.
  assert (H1 : local_tier (memory_engine 10000) = true) by reflexivity.
  assert (H2 : 0 < 60) by reflexivity.
  assert (H3 : 60 <= entryLifespan (config (memory_engine 10000)))
    by (vm_compute; discriminate).
  assert (H4 : map_get (traffic_key "ip" 28333333) (memoryCache (memory_engine 10000))
               = None) by reflexivity.
  split; [repeat split; assumption|].
  destruct (rateLimit_fixed_window unit down_client no_stringify
              (memory_engine 10000) 1700000000000 1700000000000 "ip" 3 60)
    as (_ & _ & _ & _ & Hfour).
  destruct (Hfour 1700000001000 1700000002000 1700000003000
              1700000001000 1700000002000 1700000003000 H1 H2 (or_introl H3) H4
              eq_refl eq_refl eq_refl) as (Ha & Hb & Hc & Hd).
  destruct (rateLimit_fixed_window unit down_client no_stringify
              connected_engine 1700000000000 1700000000007 "ip" 3 60)
    as (_ & _ & Hopen & _).
  split; [exact Ha|]. split; [exact Hb|]. split; [exact Hc|]. split; [exact Hd|].
  now rewrite (Hopen (TransportError "ECONNREFUSED") connected_engine eq_refl).
Defined.

(** C2 (the code departs from it). On the memory tier with the
    default configuration, four calls of [rateLimit] with maxRequests = 3
    inside one window of 86400 s, the third two hours after the second,
    answer with requestCount 1, 2, 1, 2 and are all permitted. [increment]
    stores the counter again through [set] without lifespan, so from the
    second call on the counter expires after the default [entryLifespan]
    (3600 s) instead of the window, and a later call of the same window
    finds it expired and starts again from 1. *)
Theorem C2_counter_restarts_inside_a_long_window :
  let e := memory_engine 10000 in
  let r1 := rateLimit down_client no_stringify 1699920001000 1699920001000
              "ip" 3 86400 e in
  let r2 := rateLimit down_client no_stringify 1699920002000 1699920002000
              "ip" 3 86400 (snd r1) in
  let r3 := rateLimit down_client no_stringify 1699927201000 1699927201000
              "ip" 3 86400 (snd r2) in
  let r4 := rateLimit down_client no_stringify 1699927202000 1699927202000
              "ip" 3 86400 (snd r3) in
  (local_tier e = true /\ entryLifespan (config e) = 3600 /\
   1699920001000 / (86400 * 1000) = 19675 /\
   1699920002000 / (86400 * 1000) = 19675 /\
   1699927201000 / (86400 * 1000) = 19675 /\
   1699927202000 / (86400 * 1000) = 19675) /\
  fst r1 = Ok (mkTraffic true 2 1700006400000 1) /\
  map_get (traffic_key "ip" 19675) (memoryCache (snd r1))
  = Some (mkEntry (VNum 1) (Some 1700006401000) 1699920001000) /\
  fst r2 = Ok (mkTraffic true 1 1700006400000 2) /\
  map_get (traffic_key "ip" 19675) (memoryCache (snd r2))
  = Some (mkEntry (VNum 2) (Some 1699923602000) 1699920002000) /\
  fst r3 = Ok (mkTraffic true 2 1700006400000 1) /\
  fst r4 = Ok (mkTraffic true 1 1700006400000 2).
Proof. repeat split. Qed.

(** The same with the window of 60 s when the engine is configured with
    [entryLifespan = 1]: four calls two seconds apart count 1, 2, 1, 2. *)
Lemma counter_restarts_with_a_short_default_lifespan :
  let e := new_CacheEngine down_client None (mkConfigInput None (Some 1) None) tt in
  let r1 := rateLimit down_client no_stringify 1700000000000 1700000000000
              "ip" 3 60 e in
  let r2 := rateLimit down_client no_stringify 1700000002000 1700000002000
              "ip" 3 60 (snd r1) in
  let r3 := rateLimit down_client no_stringify 1700000004000 1700000004000
              "ip" 3 60 (snd r2) in
  let r4 := rateLimit down_client no_stringify 1700000006000 1700000006000
              "ip" 3 60 (snd r3) in
  option_map requestCount (match fst r1 with Ok x => Some x | Throw _ => None end) = Some 1 /\
  option_map requestCount (match fst r2 with Ok x => Some x | Throw _ => None end) = Some 2 /\
  option_map requestCount (match fst r3 with Ok x => Some x | Throw _ => None end) = Some 1 /\
  fst r4 = Ok (mkTraffic true 1 1700000040000 2).
Proof. repeat split. Qed.

(** ** Failures *)

(** [increment] hands the failure of the remote command to its caller. *)
Lemma increment_propagates :
  forall (R : Type) (client : RedisClient R) (JSON_stringify : value -> outcome string)
    (e : CacheEngine R) (now : Z) (key : string) (step : Z) (err : error) (r' : R),
    remote_tier e = true ->
    (if step =? 1 then r_incr client key (remote e)
     else r_incrby client key step (remote e)) = (Throw err, r') ->
    increment client JSON_stringify now key step e = (Throw err, set_remote r' e).
Proof.
  intros R client JSON_stringify e now key step err r' Hr Hcmd.
  unfold increment, try_catch, bind, gets, throw, call.
  rewrite (ensureConnection_remote R client e Hr).
  rewrite (remote_tier_active R e Hr).
  destruct (step =? 1); rewrite Hcmd; reflexivity.
Qed.

Lemma getSession_outcome :
  forall (R : Type) (client : RedisClient R) (JSON_stringify : value -> outcome string)
    (JSON_parse : string -> outcome value) (e : CacheEngine R) (now : Z)
    (sessionId : string),
    let found := fst (get client JSON_parse now (session_key sessionId) e) in
    let r := fst (getSession client JSON_stringify JSON_parse now sessionId e) in
    exists v,
      found = Ok v /\
      (truthy v = false -> r = Ok v) /\
      (takes_lastActive v = true -> is_ok r = true) /\
      (truthy v = true -> takes_lastActive v = false ->
       exists msg, r = Throw (TypeError msg)).
Proof.
  intros R client JSON_stringify JSON_parse e now sessionId. cbv zeta.
  unfold getSession, bind, lift_outcome, ret.
  pose proof (get_never_throws R client JSON_parse e now (session_key sessionId)) as Hg.
  destruct (get client JSON_parse now (session_key sessionId) e) as [[v|err] e1];
    [|discriminate Hg].
  exists v. cbn [fst]. split; [reflexivity|].
  assert (Hstored : forall session',
             is_ok (fst ((set client JSON_stringify now (session_key sessionId)
                            session' None ;;; ret session')%eff e1)) = true).
  { intros session'. unfold bind, ret.
    pose proof (set_never_throws R client JSON_stringify e1 now (session_key sessionId)
                  session' None) as Hs.
    destruct (set client JSON_stringify now (session_key sessionId) session' None e1)
      as [[b|err] e2]; [reflexivity|discriminate Hs]. }
  unfold bind, ret in Hstored.
  destruct v as [|b|n|s|u d c l|level properties];
    cbn [truthy takes_lastActive assign_lastActive].
  - repeat split; try discriminate; reflexivity.
  - destruct b; cbn; repeat split; try discriminate; try reflexivity.
    intros _ _. eexists. reflexivity.
  - destruct (negb (n =? 0)); cbn; repeat split; try discriminate; try reflexivity.
    intros _ _. eexists. reflexivity.
  - destruct (negb (String.eqb s "")); cbn; repeat split; try discriminate;
      try reflexivity.
    intros _ _. eexists. reflexivity.
  - split; [discriminate|]. split; [intros _; apply Hstored|discriminate].
  - split; [discriminate|].
    destruct level; destruct (map_has "lastActive" properties);
      (split; [try discriminate; intros _; apply Hstored
              |try discriminate; intros _ _; eexists; reflexivity]).
Qed.

Lemma getOrSet_outcome :
  forall (R : Type) (client : RedisClient R) (JSON_stringify : value -> outcome string)
    (JSON_parse : string -> outcome value) (G : Type) (generator : Eff G value)
    (e : CacheEngine R) (now later : Z) (key : string) (lifespan : option Z) (g : G),
    let r := fst (fst (getOrSet client JSON_stringify JSON_parse now later key
                         generator lifespan g e)) in
    (is_ok (fst (generator g)) = true -> is_ok r = true) /\
    (forall err, r = Throw err -> fst (generator g) = Throw err).
Proof.
  intros R client JSON_stringify JSON_parse G generator e now later key lifespan g.
  cbv zeta. unfold getOrSet.
  pose proof (get_never_throws R client JSON_parse e now key) as Hg.
  destruct (get client JSON_parse now key e) as [[v|err0] e1]; [|discriminate Hg].
  destruct (negb (is_null v)); cbn [fst].
  - split; [reflexivity|discriminate].
  - destruct (generator g) as [[fresh|gerr] g']; cbn [fst].
    + pose proof (set_never_throws R client JSON_stringify e1 later key fresh lifespan)
        as Hs.
      destruct (set client JSON_stringify later key fresh lifespan e1)
        as [[b|err1] e2]; [|discriminate Hs].
      cbn [fst]. split; [reflexivity|discriminate].
    + split; [discriminate|]. intros err H. exact H.
Qed.


(** The exception of [increment], on a server that rejects the command. *)
Lemma increment_propagates_example :
  remote_tier connected_engine = true /\
  fst (increment down_client no_stringify 1000 "hits" 1 connected_engine)
  = Throw (TransportError "ECONNREFUSED").
Proof. repeat split. Qed.


(** Nor does [getSession] return normally on every object: the memory
    tier hands back the object the caller stored, and on a frozen one the
    assignment of [lastActive] raises a TypeError. *)
Lemma getSession_on_a_frozen_object :
  let frozen := VObject Frozen [("userId", VNum 42); ("lastActive", VNum 1000)] in
  let e := snd (set down_client no_stringify 1000 (session_key "s1") frozen None
                  (memory_engine 10000)) in
  fst (get down_client no_parse 2000 (session_key "s1") e) = Ok frozen /\
  fst (getSession down_client no_stringify no_parse 2000 "s1" e)
  = Throw (TypeError "Cannot assign to read only property 'lastActive'").
Proof. repeat split. Qed.

(** * Further properties of the engine and its callers *)

(** ** More on the memory tier *)

Lemma get_local_cache :
  forall (R : Type) (client : RedisClient R) (JSON_parse : string -> outcome value)
    (e : CacheEngine R) (now : Z) (key : string),
    local_tier e = true ->
    memoryCache (snd (get client JSON_parse now key e))
    = match map_get key (memoryCache e) with
      | None => memoryCache e
      | Some entry =>
          if past_expiration now entry then map_delete key (memoryCache e)
          else map_set key (mkEntry (entry_value entry) (expiration entry) now)
                 (memoryCache e)
      end.
Proof.
  intros R client JSON_parse e now key Hl.
  destruct (map_get key (memoryCache e)) as [entry|] eqn:Hk.
  - destruct (past_expiration now entry) eqn:Hx.
    + now rewrite (get_local_expired R client JSON_parse e now key entry Hl Hk Hx).
    + now rewrite (get_local_live R client JSON_parse e now key entry Hl Hk Hx).
  - now rewrite (get_local_absent R client JSON_parse e now key Hl Hk).
Qed.

Lemma has_local_cache :
  forall (R : Type) (client : RedisClient R) (e : CacheEngine R) (now : Z) (key : string),
    local_tier e = true ->
    memoryCache (snd (has client now key e))
    = match map_get key (memoryCache e) with
      | None => memoryCache e
      | Some entry =>
          if past_expiration now entry then map_delete key (memoryCache e)
          else memoryCache e
      end.
Proof.
  intros R client e now key Hl.
  destruct (map_get key (memoryCache e)) as [entry|] eqn:Hk.
  - destruct (past_expiration now entry) eqn:Hx.
    + now rewrite (has_local_expired R client e now key entry Hl Hk Hx).
    + now rewrite (has_local_live R client e now key entry Hl Hk Hx).
  - now rewrite (has_local_absent R client e now key Hl Hk).
Qed.

Lemma setTTL_local :
  forall (R : Type) (client : RedisClient R) (e : CacheEngine R) (now : Z)
    (key : string) (seconds : Z),
    local_tier e = true ->
    setTTL client now key seconds e
    = match map_get key (memoryCache e) with
      | Some entry =>
          (Ok true,
           set_memoryCache
             (map_set key
                (mkEntry (entry_value entry) (Some (now + seconds * 1000))
                   (lastAccessed entry))
                (memoryCache e)) e)
      | None => (Ok false, e)
      end.
Proof.
  intros R client e now key seconds Hl.
  unfold setTTL, try_catch, bind, gets, modify, ret.
  rewrite (local_tier_inactive R e Hl).
  destruct (map_get key (memoryCache e)); reflexivity.
Qed.

(** An entry is live at [later] when written at [now] with [lifespan]. *)
Lemma written_entry_live :
  forall (cfg : CacheStorageConfig) (now later : Z) (v : value) (lifespan : option Z),
    match lifespan with
    | Some l => later <= now + l * 1000
    | None => entryLifespan cfg <= 0 \/ later <= now + entryLifespan cfg * 1000
    end ->
    past_expiration later (mkEntry v (local_expiration cfg now lifespan) now) = false.
Proof.
  intros cfg now later v lifespan H.
  unfold past_expiration, local_expiration. cbn [expiration].
  destruct lifespan as [l|].
  - apply andb_false_iff. right. apply Z.ltb_ge. exact H.
  - destruct (0 <? entryLifespan cfg) eqn:E; [|reflexivity].
    apply Z.ltb_lt in E.
    apply andb_false_iff. right. apply Z.ltb_ge. lia.
Qed.

(** X1. On the memory tier, a value written by [set] is returned by
    [get], and reported by [has], at any time up to the end of its
    lifespan (the one given, else the default; for ever when the default
    is not positive), also when the store was at capacity. *)
Theorem X1_set_then_get_returns_the_value :
  forall (R : Type) (client : RedisClient R) (JSON_stringify : value -> outcome string)
    (JSON_parse : string -> outcome value) (e : CacheEngine R) (now later : Z)
    (key : string) (v : value) (lifespan : option Z),
    local_tier e = true ->
    match lifespan with
    | Some l => later <= now + l * 1000
    | None => entryLifespan (config e) <= 0
              \/ later <= now + entryLifespan (config e) * 1000
    end ->
    let e1 := snd (set client JSON_stringify now key v lifespan e) in
    fst (set client JSON_stringify now key v lifespan e) = Ok true /\
    fst (get client JSON_parse later key e1) = Ok v /\
    has client later key e1 = (Ok true, e1) /\
    successful (metrics (snd (get client JSON_parse later key e1)))
    = successful (metrics e) + 1 /\
    writes (metrics e1) = writes (metrics e) + 1.
Proof.
  intros R client JSON_stringify JSON_parse e now later key v lifespan Hl Hlive.
  cbv zeta. rewrite (set_local R client JSON_stringify e now key v lifespan Hl).
  cbn [fst snd].
  set (e1 := local_set_state now key v lifespan e).
  assert (Hl1 : local_tier e1 = true) by exact Hl.
  assert (Hk : map_get key (memoryCache e1)
               = Some (mkEntry v (local_expiration (config e) now lifespan) now))
    by apply get_set_state.
  pose proof (written_entry_live (config e) now later v lifespan Hlive) as Hx.
  rewrite (get_local_live R client JSON_parse e1 later key _ Hl1 Hk Hx).
  rewrite (has_local_live R client e1 later key _ Hl1 Hk Hx).
  repeat split.
Qed.

Lemma X1_set_then_get_witness :
  (local_tier (memory_engine 1) = true /\ 4000 <= 1000 + 5 * 1000) /\
  fst (get down_client no_parse 4000 "k"
         (snd (set down_client no_stringify 1000 "k" (VStr "v") (Some 5)
                 (memory_engine 1))))
  = Ok (VStr "v").
Proof.
  assert (H1 : local_tier (memory_engine 1) = true) by reflexivity.
  assert (H2 : 4000 <= 1000 + 5 * 1000) by (vm_compute; discriminate).
  split; [split; assumption|].
  destruct (X1_set_then_get_returns_the_value unit down_client no_stringify no_parse
              (memory_engine 1) 1000 4000 "k" (VStr "v") (Some 5) H1 H2)
    as (_ & H & _).
  exact H.
Defined.

(** X2. On the memory tier, a call on one key leaves the entry of every
    other key as it was: [get], [has], [delete] and [setTTL] always, [set]
    whenever the store is below its limit (no eviction). *)
Theorem X2_other_keys_are_untouched :
  forall (R : Type) (client : RedisClient R) (JSON_stringify : value -> outcome string)
    (JSON_parse : string -> outcome value) (e : CacheEngine R) (now : Z)
    (key other : string) (v : value) (lifespan : option Z) (seconds : Z),
    local_tier e = true ->
    other <> key ->
    let before := map_get other (memoryCache e) in
    map_get other (memoryCache (snd (get client JSON_parse now key e))) = before /\
    map_get other (memoryCache (snd (has client now key e))) = before /\
    map_get other (memoryCache (snd (delete client key e))) = before /\
    map_get other (memoryCache (snd (setTTL client now key seconds e))) = before /\
    (map_size (memoryCache e) < memoryTierLimit (config e) ->
     map_get other (memoryCache (snd (set client JSON_stringify now key v lifespan e)))
     = before).
Proof.
  intros R client JSON_stringify JSON_parse e now key other v lifespan seconds
    Hl Hne. cbv zeta.
  split; [|split; [|split; [|split]]].
  - rewrite (get_local_cache R client JSON_parse e now key Hl).
    destruct (map_get key (memoryCache e)) as [entry|]; [|reflexivity].
    destruct (past_expiration now entry).
    + now apply map_get_delete_other.
    + now apply map_get_set_other.
  - rewrite (has_local_cache R client e now key Hl).
    destruct (map_get key (memoryCache e)) as [entry|]; [|reflexivity].
    destruct (past_expiration now entry); [|reflexivity].
    now apply map_get_delete_other.
  - rewrite (delete_local R client e key Hl). cbn [snd].
    destruct (map_has key (memoryCache e)); cbn;
      now apply map_get_delete_other.
  - rewrite (setTTL_local R client e now key seconds Hl).
    destruct (map_get key (memoryCache e)) as [entry|]; [|reflexivity].
    cbn. now apply map_get_set_other.
  - intros Hroom.
    rewrite (set_local R client JSON_stringify e now key v lifespan Hl).
    unfold local_set_state. cbn [snd]. cbn [memoryCache count_write set_metrics set_memoryCache].
    apply Z.leb_gt in Hroom. rewrite Hroom.
    now apply map_get_set_other.
Qed.

Lemma X2_other_keys_witness :
  (local_tier short_lived_engine = true /\ "k" <> "other"
   /\ map_size (memoryCache short_lived_engine)
      < memoryTierLimit (config short_lived_engine)) /\
  map_get "k"
    (memoryCache (snd (set down_client no_stringify 1500 "other" (VNum 1) None
                         short_lived_engine)))
  = Some (mkEntry (VStr "v") (Some 2000) 1000).
Proof.
  assert (H1 : local_tier short_lived_engine = true) by reflexivity.
  assert (H2 : "k" <> "other") by discriminate.
  assert (H3 : map_size (memoryCache short_lived_engine)
               < memoryTierLimit (config short_lived_engine)) by reflexivity.
  split; [repeat split; assumption|].
  destruct (X2_other_keys_are_untouched unit down_client no_stringify no_parse
              short_lived_engine 1500 "other" "k" (VNum 1) None 0 H1 H2)
    as (_ & _ & _ & _ & H).
  rewrite (H H3). reflexivity.
Defined.

(** ** Eviction *)

Local Open Scope list_scope.

Lemma Forall_map_set {V : Type} (P : string * V -> Prop) (m : list (string * V))
  (k : string) (v : V) :
  Forall P m -> P (k, v) -> Forall P (map_set k v m).
Proof.
  intros Hm Hkv. induction m as [|[k0 v0] m IH]; simpl.
  - constructor; [assumption|constructor].
  - inversion Hm; subst. destruct (String.eqb k0 k).
    + constructor; assumption.
    + constructor; [assumption|]. now apply IH.
Qed.

Lemma Forall_map_delete {V : Type} (P : string * V -> Prop) (m : list (string * V))
  (k : string) :
  Forall P m -> Forall P (map_delete k m).
Proof.
  intros Hm. unfold map_delete. rewrite Forall_forall in *.
  intros x Hx. apply filter_In in Hx. now apply Hm.
Qed.

Lemma Forall_evict_map (P : string * InMemoryCacheEntry -> Prop) (now : Z)
  (m : list (string * InMemoryCacheEntry)) :
  Forall P m -> Forall P (evict_map now m).
Proof.
  intros Hm. unfold evict_map.
  destruct (nonempty (evict_scan m "" now)); [|assumption].
  now apply Forall_map_delete.
Qed.

Lemma nonempty_true (s : string) : s <> "" -> nonempty s = true.
Proof.
  intros H. unfold nonempty. apply negb_true_iff. now apply String.eqb_neq.
Qed.

(** A key absent from the keys is not affected by [Map.delete]. *)
Lemma map_delete_not_in {V : Type} (m : list (string * V)) (k : string) :
  ~ In k (map fst m) -> map_delete k m = m.
Proof.
  unfold map_delete. induction m as [|[k0 v0] m IH]; simpl; [reflexivity|].
  intros H. destruct (String.eqb k0 k) eqn:E.
  - apply String.eqb_eq in E. exfalso. apply H. now left.
  - simpl. f_equal. apply IH. intros Hin. apply H. now right.
Qed.

Lemma map_delete_middle {V : Type} (l1 l2 : list (string * V)) (k : string) (v : V) :
  NoDup (map fst (l1 ++ (k, v) :: l2)) ->
  map_delete k (l1 ++ (k, v) :: l2) = l1 ++ l2.
Proof.
  intros Hnd. rewrite map_app in Hnd. cbn [map fst] in Hnd.
  pose proof (NoDup_remove_2 _ _ _ Hnd) as Hnotin.
  unfold map_delete. rewrite filter_app. cbn [filter fst].
  rewrite String.eqb_refl. cbn [negb].
  fold (map_delete k l1). fold (map_delete k l2).
  rewrite !map_delete_not_in; [reflexivity| |];
    intros Hin; apply Hnotin; apply in_or_app; [now right|now left].
Qed.

Lemma NoDup_keys_get {V : Type} (m : list (string * V)) (k : string) (v : V) :
  NoDup (map fst m) -> In (k, v) m -> map_get k m = Some v.
Proof.
  induction m as [|[k0 v0] m IH]; simpl; [contradiction|].
  intros Hnd [H|H].
  - inversion H; subst. now rewrite String.eqb_refl.
  - inversion Hnd; subst. destruct (String.eqb k0 k) eqn:E.
    + apply String.eqb_eq in E. subst k0. exfalso. apply H2.
      apply in_map_iff. exists (k, v). split; [reflexivity|assumption].
    + now apply IH.
Qed.

Lemma map_set_keys {V : Type} (m : list (string * V)) (k : string) (v : V) :
  map fst (map_set k v m)
  = if map_has k m then map fst m else map fst m ++ [k].
Proof.
  unfold map_has. induction m as [|[k0 v0] m IH]; simpl; [reflexivity|].
  destruct (String.eqb k0 k) eqn:E; simpl.
  - apply String.eqb_eq in E. now subst.
  - rewrite IH. destruct (map_get k m); reflexivity.
Qed.

Lemma map_get_none_not_in {V : Type} (m : list (string * V)) (k : string) :
  map_get k m = None -> ~ In k (map fst m).
Proof.
  induction m as [|[k0 v0] m IH]; simpl; [tauto|].
  destruct (String.eqb k0 k) eqn:E; [discriminate|].
  apply String.eqb_neq in E. intros H [Hin|Hin]; [congruence|]. now apply IH.
Qed.

Lemma map_set_NoDup {V : Type} (m : list (string * V)) (k : string) (v : V) :
  NoDup (map fst m) -> NoDup (map fst (map_set k v m)).
Proof.
  intros Hnd. rewrite map_set_keys. unfold map_has.
  destruct (map_get k m) eqn:E; [assumption|].
  apply map_get_none_not_in in E.
  apply NoDup_app; [assumption|repeat constructor; simpl; tauto|].
  intros x Hx [Hk|[]]. now subst.
Qed.

Lemma In_map_set_other {V : Type} (m : list (string * V)) (k k' : string) (v v' : V) :
  k' <> k -> In (k', v') m -> In (k', v') (map_set k v m).
Proof.
  intros Hne. induction m as [|[k0 v0] m IH]; simpl; [contradiction|].
  intros [H|H].
  - inversion H; subst. destruct (String.eqb k' k) eqn:E.
    + apply String.eqb_eq in E. congruence.
    + now left.
  - destruct (String.eqb k0 k); right; auto.
Qed.

(** The loop of [evict] returns the first entry among those of least
    [lastAccessed], when one is older than the starting bound. *)
Lemma evict_scan_first_least :
  forall (l : list (string * InMemoryCacheEntry)) (c : string) (o : Z),
    (evict_scan l c o = c /\ Forall (fun kv => o <= lastAccessed (snd kv)) l)
    \/ (exists l1 en l2,
           l = l1 ++ (evict_scan l c o, en) :: l2 /\ lastAccessed en < o /\
           Forall (fun kv => lastAccessed en < lastAccessed (snd kv)) l1 /\
           Forall (fun kv => lastAccessed en <= lastAccessed (snd kv)) l2).
Proof.
  induction l as [|[k0 e0] l IH]; intros c o; simpl.
  - left. split; [reflexivity|constructor].
  - destruct (lastAccessed e0 <? o) eqn:E.
    + apply Z.ltb_lt in E. right.
      destruct (IH k0 (lastAccessed e0)) as [[Hk Hall]|(l1 & en & l2 & Hl & Hlt & H1 & H2)].
      * exists [], e0, l. rewrite Hk. repeat split; [assumption|constructor|assumption].
      * exists ((k0, e0) :: l1), en, l2. repeat split.
        -- simpl. now rewrite <- Hl.
        -- lia.
        -- constructor; [simpl; lia|assumption].
        -- assumption.
    + apply Z.ltb_ge in E.
      destruct (IH c o) as [[Hk Hall]|(l1 & en & l2 & Hl & Hlt & H1 & H2)].
      * left. split; [assumption|]. constructor; [simpl; lia|assumption].
      * right. exists ((k0, e0) :: l1), en, l2. repeat split.
        -- simpl. now rewrite <- Hl.
        -- assumption.
        -- constructor; [simpl; lia|assumption].
        -- assumption.
Qed.

(** X3. On the memory tier with a positive [memoryTierLimit], a store
    that is within the limit stays within it over any series of [set]
    calls whose clock reading advances strictly from call to call, past
    the last access of every entry already stored, when no key stored or
    written is empty. *)
Theorem X3_store_stays_within_its_limit :
  forall (R : Type) (client : RedisClient R) (JSON_stringify : value -> outcome string)
    (calls : list (Z * string * value * option Z)) (e : CacheEngine R) (last : Z),
    local_tier e = true ->
    0 < memoryTierLimit (config e) ->
    map_size (memoryCache e) <= memoryTierLimit (config e) ->
    Forall (fun kv => nonempty (fst kv) = true /\ lastAccessed (snd kv) <= last)
      (memoryCache e) ->
    clock_advances last calls ->
    map_size (memoryCache (set_series client JSON_stringify calls e))
    <= memoryTierLimit (config e).
Proof.
  intros R client JSON_stringify calls.
  induction calls as [|[[[now key] v] lifespan] calls IH];
    intros e last Hl Hpos Hsize Hall Hclock.
  - exact Hsize.
  - cbn [set_series]. destruct Hclock as (Hlt & Hkey & Hrest).
    assert (Hev : Forall (fun kv => nonempty (fst kv) = true
                                    /\ lastAccessed (snd kv) < now) (memoryCache e)).
    { eapply Forall_impl; [|exact Hall]. intros kv [H1 H2]. split; [assumption|lia]. }
    pose proof (set_within_limit_when_clock_advanced R client JSON_stringify e now key v
                  lifespan Hl Hpos Hsize Hev) as Hsize1.
    rewrite (set_local R client JSON_stringify e now key v lifespan Hl) in *.
    cbn [snd] in *.
    apply (IH (local_set_state now key v lifespan e) now); try assumption.
    unfold local_set_state. cbn [memoryCache count_write set_metrics set_memoryCache].
    apply Forall_map_set.
    + assert (Hle : Forall (fun kv => nonempty (fst kv) = true
                                      /\ lastAccessed (snd kv) <= now) (memoryCache e)).
      { eapply Forall_impl; [|exact Hall]. intros kv [H1 H2]. split; [assumption|lia]. }
      destruct (memoryTierLimit (config e) <=? map_size (memoryCache e));
        [now apply Forall_evict_map|assumption].
    + split; [now apply nonempty_true|simpl; lia].
Qed.

Lemma X3_store_within_limit_witness :
  (local_tier (memory_engine 2) = true /\
   0 < memoryTierLimit (config (memory_engine 2)) /\
   map_size (memoryCache (memory_engine 2)) <= memoryTierLimit (config (memory_engine 2)) /\
   clock_advances 0
     [(1000, "a", VNum 1, None); (2000, "b", VNum 2, None); (3000, "c", VNum 3, None)]) /\
  map_size
    (memoryCache
       (set_series down_client no_stringify
          [(1000, "a", VNum 1, None); (2000, "b", VNum 2, None); (3000, "c", VNum 3, None)]
          (memory_engine 2)))
  <= 2.
Proof.
  assert (H1 : local_tier (memory_engine 2) = true) by reflexivity.
  assert (H2 : 0 < memoryTierLimit (config (memory_engine 2))) by reflexivity.
  assert (H3 : map_size (memoryCache (memory_engine 2))
               <= memoryTierLimit (config (memory_engine 2)))
    by (vm_compute; discriminate).
  assert (H4 : clock_advances 0
                 [(1000, "a", VNum 1, None); (2000, "b", VNum 2, None);
                  (3000, "c", VNum 3, None)]).
  { cbn. repeat split; try reflexivity; discriminate. }
  split; [exact (conj H1 (conj H2 (conj H3 H4)))|].
  apply (X3_store_stays_within_its_limit unit down_client no_stringify _
           (memory_engine 2) 0 H1 H2 H3 (Forall_nil _) H4).
Defined.

(** X4. When no key is empty and every entry was last accessed before
    the current time, [evict] removes exactly one entry, the first in
    insertion order among those with the least [lastAccessed], and keeps
    all the others in their order. *)
Theorem X4_evict_removes_the_least_recently_accessed :
  forall (now : Z) (m : list (string * InMemoryCacheEntry)),
    m <> [] ->
    NoDup (map fst m) ->
    evictable now m ->
    exists before key entry after,
      m = before ++ (key, entry) :: after /\
      Forall (fun kv => lastAccessed entry < lastAccessed (snd kv)) before /\
      Forall (fun kv => lastAccessed entry <= lastAccessed (snd kv)) after /\
      evict_map now m = before ++ after.
Proof.
  intros now m Hne Hnd Hev. unfold evictable in Hev.
  destruct (evict_scan_first_least m "" now)
    as [[_ Hge]|(l1 & en & l2 & Hm & Hlt & H1 & H2)].
  - destruct m as [|kv m]; [congruence|].
    inversion Hev; subst. inversion Hge; subst. lia.
  - exists l1, (evict_scan m "" now), en, l2.
    repeat split; try assumption.
    unfold evict_map.
    assert (Hk : nonempty (evict_scan m "" now) = true).
    { rewrite Forall_forall in Hev.
      assert (Hin : In (evict_scan m "" now, en) m).
      { rewrite Hm at 2. apply in_or_app. right. now left. }
      now destruct (Hev _ Hin). }
    rewrite Hk. rewrite Hm at 2. apply map_delete_middle. now rewrite <- Hm.
Qed.

Lemma X4_evict_witness :
  let m := [("a", mkEntry (VNum 1) None 300); ("b", mkEntry (VNum 2) None 100);
            ("c", mkEntry (VNum 3) None 100)] in
  (m <> [] /\ NoDup (map fst m) /\ evictable 500 m) /\
  exists before key entry after,
    m = before ++ (key, entry) :: after /\
    evict_map 500 m = before ++ after.
Proof.
  cbv zeta.
  set (m := [("a", mkEntry (VNum 1) None 300); ("b", mkEntry (VNum 2) None 100);
             ("c", mkEntry (VNum 3) None 100)]).
  assert (H1 : m <> []) by discriminate.
  assert (H2 : NoDup (map fst m)).
  { repeat constructor; simpl; intuition discriminate. }
  assert (H3 : evictable 500 m).
  { repeat constructor. }
  split; [repeat split; assumption|].
  destruct (X4_evict_removes_the_least_recently_accessed 500 m H1 H2 H3)
    as (before & key & entry & after & Hm & _ & _ & Hev).
  exists before, key, entry, after. split; assumption.
Defined.



(** ** [delete], [increment] and the batch calls *)

Lemma set_memoryCache_same {R : Type} (e : CacheEngine R) :
  set_memoryCache (memoryCache e) e = e.
Proof. destruct e; reflexivity. Qed.

(** X6. On the memory tier [delete] answers whether the key had an
    entry, expired or not (an expired entry that was not purged yet counts
    as a removal), and leaves no entry: after it [get] and [has] report the
    key absent, and a second [delete] answers false and changes nothing. *)
Theorem X6_delete_removes_the_entry :
  forall (R : Type) (client : RedisClient R) (JSON_parse : string -> outcome value)
    (e : CacheEngine R) (now : Z) (key : string),
    local_tier e = true ->
    let r := delete client key e in
    fst r = Ok (map_has key (memoryCache e)) /\
    removals (metrics (snd r))
    = removals (metrics e) + (if map_has key (memoryCache e) then 1 else 0) /\
    map_get key (memoryCache (snd r)) = None /\
    fst (get client JSON_parse now key (snd r)) = Ok VNull /\
    has client now key (snd r) = (Ok false, snd r) /\
    delete client key (snd r) = (Ok false, snd r).
Proof.
  intros R client JSON_parse e now key Hl. cbv zeta.
  rewrite (delete_local R client e key Hl). cbn [fst snd].
  set (e1 := if map_has key (memoryCache e)
             then count_removal (set_memoryCache (map_delete key (memoryCache e)) e)
             else set_memoryCache (map_delete key (memoryCache e)) e).
  assert (Hl1 : local_tier e1 = true).
  { subst e1. destruct (map_has key (memoryCache e)); exact Hl. }
  assert (Hk1 : map_get key (memoryCache e1) = None).
  { subst e1. destruct (map_has key (memoryCache e)); cbn; apply map_get_delete_same. }
  split; [reflexivity|]. split.
  { subst e1. destruct (map_has key (memoryCache e)); cbn; lia. }
  split; [exact Hk1|]. split.
  { now rewrite (get_local_absent R client JSON_parse e1 now key Hl1 Hk1). }
  split.
  { now apply has_local_absent. }
  rewrite (delete_local R client e1 key Hl1).
  unfold map_has. rewrite Hk1. cbn zeta.
  rewrite (map_delete_absent _ _ Hk1), set_memoryCache_same. reflexivity.
Qed.

Lemma X6_delete_witness :
  local_tier short_lived_engine = true /\
  fst (delete down_client "k" short_lived_engine) = Ok true /\
  fst (get down_client no_parse 1500 "k" (snd (delete down_client "k" short_lived_engine)))
  = Ok VNull.
Proof.
  assert (H1 : local_tier short_lived_engine = true) by reflexivity.
  split; [exact H1|].
  destruct (X6_delete_removes_the_entry unit down_client no_parse short_lived_engine
              1500 "k" H1) as (Ha & _ & _ & Hb & _).
  split; [exact Ha|exact Hb].
Defined.

Lemma increment_series_from_counter :
  forall (R : Type) (client : RedisClient R) (JSON_stringify : value -> outcome string)
    (key : string) (calls : list (Z * Z)) (e : CacheEngine R) (last count : Z),
    local_tier e = true ->
    map_get key (memoryCache e)
    = Some (mkEntry (VNum count) (local_expiration (config e) last None) last) ->
    within_lifespan (entryLifespan (config e)) last calls ->
    fst (increment_series client JSON_stringify key calls e)
    = running_sums count (map snd calls).
Proof.
  intros R client JSON_stringify key calls.
  induction calls as [|[now step] calls IH]; intros e last count Hl Hk Hin.
  - reflexivity.
  - cbn [increment_series map snd running_sums].
    destruct Hin as [Hnow Hrest].
    assert (Hc : local_counter now key (memoryCache e) = count).
    { unfold local_counter. rewrite Hk.
      unfold counter_live, local_expiration. cbn [expiration entry_value].
      destruct (0 <? entryLifespan (config e)) eqn:E; [|reflexivity].
      apply Z.ltb_lt in E.
      assert (Hle : (now <=? last + entryLifespan (config e) * 1000) = true)
        by (apply Z.leb_le; lia).
      rewrite Hle, orb_true_r. reflexivity. }
    rewrite (increment_local R client JSON_stringify e now key step Hl), Hc.
    specialize (IH (local_set_state now key (VNum (count + step)) None e) now
                  (count + step) Hl (get_set_state R e now key _ None) Hrest).
    destruct (increment_series client JSON_stringify key calls
                (local_set_state now key (VNum (count + step)) None e)) as [answers e2].
    cbn [fst] in *. now rewrite IH.
Qed.

(** X7. On the memory tier, [increment] calls on one key add up: each
    call answers the running sum of the steps, starting from the counter
    the first call finds (0 for an absent key, an expired entry or a value
    that is not a number), provided each call comes before the entry
    written by the previous one expires, that is within the default
    [entryLifespan] of it. *)
Theorem X7_increments_add_up :
  forall (R : Type) (client : RedisClient R) (JSON_stringify : value -> outcome string)
    (e : CacheEngine R) (key : string) (now step : Z) (calls : list (Z * Z)),
    local_tier e = true ->
    within_lifespan (entryLifespan (config e)) now calls ->
    fst (increment_series client JSON_stringify key ((now, step) :: calls) e)
    = running_sums (local_counter now key (memoryCache e)) (step :: map snd calls) /\
    (map_get key (memoryCache e) = None ->
     fst (increment_series client JSON_stringify key ((now, step) :: calls) e)
     = running_sums 0 (step :: map snd calls)).
Proof.
  intros R client JSON_stringify e key now step calls Hl Hin.
  assert (H : fst (increment_series client JSON_stringify key ((now, step) :: calls) e)
              = running_sums (local_counter now key (memoryCache e))
                  (step :: map snd calls)).
  { cbn [increment_series running_sums].
    rewrite (increment_local R client JSON_stringify e now key step Hl).
    pose proof (increment_series_from_counter R client JSON_stringify key calls
                  (local_set_state now key
                     (VNum (local_counter now key (memoryCache e) + step)) None e)
                  now (local_counter now key (memoryCache e) + step) Hl
                  (get_set_state R e now key _ None) Hin) as IH.
    destruct (increment_series client JSON_stringify key calls
                (local_set_state now key
                   (VNum (local_counter now key (memoryCache e) + step)) None e))
      as [answers e2].
    cbn [fst] in *. now rewrite IH. }
  split; [exact H|].
  intros Hk. rewrite H. unfold local_counter. now rewrite Hk.
Qed.

Lemma X7_increments_witness :
  (local_tier (memory_engine 10000) = true /\
   within_lifespan (entryLifespan (config (memory_engine 10000))) 1000
     [(2000, 5); (4000, -2)]) /\
  fst (increment_series down_client no_stringify "hits"
         [(1000, 1); (2000, 5); (4000, -2)] (memory_engine 10000))
  = [Some 1; Some 6; Some 4].
Proof.
  assert (H1 : local_tier (memory_engine 10000) = true) by reflexivity.
  assert (H2 : within_lifespan (entryLifespan (config (memory_engine 10000))) 1000
                 [(2000, 5); (4000, -2)]).
  { cbn. repeat split; right; vm_compute; discriminate. }
  split; [exact (conj H1 H2)|].
  destruct (X7_increments_add_up unit down_client no_stringify (memory_engine 10000)
              "hits" 1000 1 [(2000, 5); (4000, -2)] H1 H2) as [_ H].
  exact (H eq_refl).
Defined.

Lemma set_start_local :
  forall (R : Type) (client : RedisClient R) (JSON_stringify : value -> outcome string)
    (e : CacheEngine R) (now : Z) (key : string) (v : value) (lifespan : option Z),
    local_tier e = true ->
    set_start client JSON_stringify now key v lifespan e
    = (Ok (Settled true), local_set_state now key v lifespan e).
Proof.
  intros R client JSON_stringify e now key v lifespan Hl.
  unfold set_start, try_catch, bind, gets, ret.
  rewrite (ensureConnection_local R client e Hl), (local_tier_inactive R e Hl).
  now rewrite (set_local R client JSON_stringify e now key v lifespan Hl).
Qed.

Lemma finish_each_settled :
  forall (R : Type) (client : RedisClient R) (lifespan : option Z) (n : nat)
    (e : CacheEngine R),
    finish_each client lifespan (repeat (Settled true) n) e = (Ok (repeat true n), e).
Proof.
  intros R client lifespan n e. induction n as [|n IH]; [reflexivity|].
  cbn [repeat finish_each set_finish]. unfold bind, ret. now rewrite IH.
Qed.

Lemma set_each_local :
  forall (R : Type) (client : RedisClient R) (JSON_stringify : value -> outcome string)
    (now : Z) (lifespan : option Z) (data : list (string * value)) (e : CacheEngine R),
    local_tier e = true ->
    set_each client JSON_stringify now data lifespan e
    = (Ok (repeat true (List.length data)),
       set_series client JSON_stringify
         (map (fun kv => (now, fst kv, snd kv, lifespan)) data) e)
    /\ local_tier
         (set_series client JSON_stringify
            (map (fun kv => (now, fst kv, snd kv, lifespan)) data) e) = true
    /\ writes (metrics (set_series client JSON_stringify
                          (map (fun kv => (now, fst kv, snd kv, lifespan)) data) e))
       = writes (metrics e) + Z.of_nat (List.length data).
Proof.
  intros R client JSON_stringify now lifespan data e Hl.
  assert (Hstart : forall data e,
             local_tier e = true ->
             start_each client JSON_stringify now data lifespan e
             = (Ok (repeat (Settled true) (List.length data)),
                set_series client JSON_stringify
                  (map (fun kv => (now, fst kv, snd kv, lifespan)) data) e)
             /\ local_tier
                  (set_series client JSON_stringify
                     (map (fun kv => (now, fst kv, snd kv, lifespan)) data) e) = true
             /\ writes (metrics (set_series client JSON_stringify
                                   (map (fun kv => (now, fst kv, snd kv, lifespan))
                                      data) e))
                = writes (metrics e) + Z.of_nat (List.length data)).
  { clear. intros data. induction data as [|[k v] data IH]; intros e Hl.
    - cbn. repeat split; [assumption|lia].
    - cbn [start_each map set_series fst snd List.length repeat]. unfold bind.
      rewrite (set_start_local R client JSON_stringify e now k v lifespan Hl).
      rewrite (set_local R client JSON_stringify e now k v lifespan Hl). cbn [snd].
      destruct (IH (local_set_state now k v lifespan e) Hl) as (Heq & Hl' & Hw).
      rewrite Heq. unfold ret. repeat split; [assumption|].
      rewrite Hw. unfold local_set_state. simpl writes. lia. }
  destruct (Hstart data e Hl) as (Heq & Hl' & Hw).
  split; [|split; assumption].
  unfold set_each, bind. rewrite Heq. apply finish_each_settled.
Qed.

Lemma set_series_lookup :
  forall (R : Type) (client : RedisClient R) (JSON_stringify : value -> outcome string)
    (now : Z) (lifespan : option Z) (data : list (string * value)) (e : CacheEngine R)
    (key : string),
    local_tier e = true ->
    map_size (memoryCache e) + Z.of_nat (List.length data) <= memoryTierLimit (config e) ->
    map_get key
      (memoryCache
         (set_series client JSON_stringify
            (map (fun kv => (now, fst kv, snd kv, lifespan)) data) e))
    = match last_value key data with
      | Some v => Some (mkEntry v (local_expiration (config e) now lifespan) now)
      | None => map_get key (memoryCache e)
      end.
Proof.
  intros R client JSON_stringify now lifespan data.
  induction data as [|[k v] data IH]; intros e key Hl Hroom.
  - reflexivity.
  - cbn [map set_series fst snd last_value].
    rewrite (set_local R client JSON_stringify e now k v lifespan Hl). cbn [snd].
    cbn [List.length] in Hroom.
    assert (Hlt : (memoryTierLimit (config e) <=? map_size (memoryCache e)) = false)
      by (apply Z.leb_gt; lia).
    assert (Hcache : memoryCache (local_set_state now k v lifespan e)
                     = map_set k (mkEntry v (local_expiration (config e) now lifespan) now)
                         (memoryCache e)).
    { unfold local_set_state. cbn. now rewrite Hlt. }
    rewrite (IH (local_set_state now k v lifespan e) key Hl).
    + cbn [config local_set_state count_write set_metrics set_memoryCache].
      destruct (last_value key data); [reflexivity|].
      rewrite Hcache. destruct (String.eqb k key) eqn:E.
      * apply String.eqb_eq in E. subst k. apply map_get_set_same.
      * apply String.eqb_neq in E. apply map_get_set_other. congruence.
    + rewrite Hcache.
      pose proof (map_size_set_le (memoryCache e) k
                    (mkEntry v (local_expiration (config e) now lifespan) now)).
      cbn [config local_set_state count_write set_metrics set_memoryCache]. lia.
Qed.

(** X8. On the memory tier [setBatch] always answers true and counts
    one write per item; when the items fit under the limit (no eviction),
    every key of the batch then holds the value of its last item, with the
    expiration of the lifespan given, and every other key is unchanged. *)
Theorem X8_setBatch_writes_every_item :
  forall (R : Type) (client : RedisClient R) (JSON_stringify : value -> outcome string)
    (e : CacheEngine R) (now : Z) (data : list (string * value)) (lifespan : option Z),
    local_tier e = true ->
    let r := setBatch client JSON_stringify now data lifespan e in
    fst r = Ok true /\
    writes (metrics (snd r)) = writes (metrics e) + Z.of_nat (List.length data) /\
    (map_size (memoryCache e) + Z.of_nat (List.length data)
     <= memoryTierLimit (config e) ->
     forall key,
       map_get key (memoryCache (snd r))
       = match last_value key data with
         | Some v => Some (mkEntry v (local_expiration (config e) now lifespan) now)
         | None => map_get key (memoryCache e)
         end).
Proof.
  intros R client JSON_stringify e now data lifespan Hl. cbv zeta.
  destruct (set_each_local R client JSON_stringify now lifespan data e Hl)
    as (Heq & _ & Hw).
  unfold setBatch, try_catch, bind. rewrite Heq. unfold ret. cbn [fst snd].
  split.
  { f_equal. clear. induction (List.length data) as [|n IH]; [reflexivity|exact IH]. }
  split; [exact Hw|].
  intros Hroom key. now apply set_series_lookup.
Qed.

Lemma X8_setBatch_witness :
  (local_tier (memory_engine 10) = true /\
   map_size (memoryCache (memory_engine 10)) + Z.of_nat 3
   <= memoryTierLimit (config (memory_engine 10))) /\
  (let r := setBatch down_client no_stringify 1000
              [("a", VNum 1); ("b", VNum 2); ("a", VNum 3)] (Some 60)
              (memory_engine 10) in
   fst r = Ok true /\
   map_get "a" (memoryCache (snd r)) = Some (mkEntry (VNum 3) (Some 61000) 1000)).
Proof.
  assert (H1 : local_tier (memory_engine 10) = true) by reflexivity.
  assert (H2 : map_size (memoryCache (memory_engine 10)) + Z.of_nat 3
               <= memoryTierLimit (config (memory_engine 10)))
    by (vm_compute; discriminate).
  split; [exact (conj H1 H2)|].
  destruct (X8_setBatch_writes_every_item unit down_client no_stringify
              (memory_engine 10) 1000 [("a", VNum 1); ("b", VNum 2); ("a", VNum 3)]
              (Some 60) H1) as (Ha & _ & Hb).
  cbv zeta. split; [exact Ha|]. exact (Hb H2 "a").
Defined.

(** On the remote tier the calls of a batch are started together: the
    server receives both SET commands before the first EXPIRE. *)
Lemma setBatch_sends_every_SET_first :
  let r := setBatch recording_client (fun _ => Ok "1") 1000
             [("a", VNum 1); ("b", VNum 1)] (Some 60) recording_engine in
  remote_tier recording_engine = true /\
  fst r = Ok true /\
  remote (snd r) = ["PING"; "SET a"; "SET b"; "EXPIRE a"; "EXPIRE b"] /\
  writes (metrics (snd r)) = 2.
Proof. repeat split. Qed.

Lemma get_each_keys :
  forall (R : Type) (client : RedisClient R) (JSON_parse : string -> outcome value)
    (now : Z) (keys : list string) (e : CacheEngine R),
    exists outcomes e',
      get_each client JSON_parse now keys e = (Ok outcomes, e')
      /\ map fst outcomes = keys.
Proof.
  intros R client JSON_parse now keys.
  induction keys as [|key keys IH]; intros e.
  - exists [], e. split; reflexivity.
  - cbn [get_each]. unfold bind.
    pose proof (get_never_throws R client JSON_parse e now key) as Hg.
    destruct (get client JSON_parse now key e) as [[v|err] e1]; [|discriminate Hg].
    destruct (IH e1) as (outcomes & e2 & Heq & Hkeys).
    rewrite Heq. exists ((key, v) :: outcomes), e2.
    split; [reflexivity|]. cbn. now rewrite Hkeys.
Qed.

Lemma map_has_set {V : Type} (m : list (string * V)) (k k' : string) (v : V) :
  map_has k' (map_set k v m) = String.eqb k k' || map_has k' m.
Proof.
  unfold map_has. destruct (String.eqb k k') eqn:E.
  - apply String.eqb_eq in E. subst. now rewrite map_get_set_same.
  - apply String.eqb_neq in E. rewrite map_get_set_other by congruence. reflexivity.
Qed.

Lemma map_get_set {V : Type} (m : list (string * V)) (k k' : string) (v : V) :
  map_get k' (map_set k v m) = if String.eqb k k' then Some v else map_get k' m.
Proof.
  destruct (String.eqb k k') eqn:E.
  - apply String.eqb_eq in E. subst. apply map_get_set_same.
  - apply String.eqb_neq in E. apply map_get_set_other. congruence.
Qed.

Lemma last_value_in (key : string) (data : list (string * value)) :
  last_value key data <> None <-> In key (map fst data).
Proof.
  induction data as [|[k v] data IH]; cbn [last_value map fst In].
  - split; [congruence|tauto].
  - destruct (last_value key data) as [v'|].
    + split; [intros _; right; apply IH; discriminate|discriminate].
    + destruct (String.eqb k key) eqn:E.
      * apply String.eqb_eq in E. split; [auto|discriminate].
      * apply String.eqb_neq in E. split; [congruence|].
        intros [H|H]; [contradiction|]. apply IH in H. congruence.
Qed.

(** Assignments to keys other than [__proto__] on an object that still
    has [Object.prototype] define own properties, the last value of a key
    standing. *)
Lemma assign_each_ordinary_keys :
  forall (items : list (string * value)) (o : PlainObject),
    object_prototype o = ObjectPrototype ->
    ~ In "__proto__" (map fst items) ->
    exists o',
      assign_each items o = Ok o' /\
      object_prototype o' = ObjectPrototype /\
      forall key,
        map_get key (own_properties o')
        = match last_value key items with
          | Some v => Some v
          | None => map_get key (own_properties o)
          end.
Proof.
  induction items as [|[k v] items IH]; intros o Hproto Hnot.
  - exists o. repeat split. exact Hproto.
  - cbn [map fst In] in Hnot.
    assert (Hk : String.eqb k "__proto__" = false)
      by (apply String.eqb_neq; intros ->; apply Hnot; now left).
    assert (Hstep : assign_property k v o
                    = Ok (mkObject ObjectPrototype (map_set k v (own_properties o)))).
    { unfold assign_property. rewrite Hproto, Hk.
      destruct (map_has k (own_properties o)); reflexivity. }
    destruct (IH (mkObject ObjectPrototype (map_set k v (own_properties o))) eq_refl)
      as (o' & Heq & Hproto' & Hget); [tauto|].
    exists o'. cbn [assign_each]. rewrite Hstep.
    split; [exact Heq|]. split; [exact Hproto'|].
    intros key. rewrite Hget. cbn [last_value own_properties].
    destruct (last_value key items); [reflexivity|]. rewrite map_get_set.
    now destruct (String.eqb k key).
Qed.

(** X9. On either tier and whatever the tiers do, [getBatch] answers
    with an object. When the key [__proto__] is not among the keys asked
    for, its own properties are exactly those keys: every key has an
    answer, the value (or null) that the last [get] of this key gave, and
    no other key appears. The key [__proto__] is not answered that way:
    asked for alone, it leaves the object without any own property (the
    assignment goes to the prototype). *)
Theorem X9_getBatch_answers_every_key :
  forall (R : Type) (client : RedisClient R) (JSON_parse : string -> outcome value)
    (e : CacheEngine R) (now : Z) (keys : list string),
    (~ In "__proto__" keys ->
     exists outcomes result e',
       get_each client JSON_parse now keys e = (Ok outcomes, e') /\
       map fst outcomes = keys /\
       getBatch client JSON_parse now keys e = (Ok result, e') /\
       object_prototype result = ObjectPrototype /\
       (forall key, map_get key (own_properties result) = last_value key outcomes) /\
       (forall key, map_has key (own_properties result) = true <-> In key keys)) /\
    (exists result,
        fst (getBatch client JSON_parse now ["__proto__"] e) = Ok result /\
        own_properties result = []).
Proof.
  intros R client JSON_parse e now keys. split.
  - intros Hnot.
    destruct (get_each_keys R client JSON_parse now keys e)
      as (outcomes & e' & Heq & Hkeys).
    destruct (assign_each_ordinary_keys outcomes empty_object eq_refl)
      as (result & Hassign & Hproto & Hget); [now rewrite Hkeys|].
    exists outcomes, result, e'.
    split; [exact Heq|]. split; [exact Hkeys|].
    split.
    { unfold getBatch, try_catch, bind, lift_outcome. now rewrite Heq, Hassign. }
    split; [exact Hproto|].
    assert (Hvalue : forall key,
               map_get key (own_properties result) = last_value key outcomes).
    { intros key. rewrite Hget. now destruct (last_value key outcomes). }
    split; [exact Hvalue|].
    intros key. unfold map_has. rewrite Hvalue, <- Hkeys, <- last_value_in.
    destruct (last_value key outcomes); split; congruence.
  - unfold getBatch, try_catch, bind, lift_outcome, ret. cbn [get_each]. unfold bind, ret.
    pose proof (get_never_throws R client JSON_parse e now "__proto__") as Hg.
    destruct (get client JSON_parse now "__proto__" e) as [[v|err] e1];
      [|discriminate Hg].
    exists (set_prototype v empty_object).
    split; [reflexivity|]. now destruct v.
Qed.

Lemma X9_getBatch_witness :
  let e := snd (set down_client no_stringify 1000 "a" (VNum 1) None
                  (memory_engine 10000)) in
  ~ In "__proto__" ["a"; "b"] /\
  (exists result,
      fst (getBatch down_client no_parse 2000 ["a"; "b"] e) = Ok result /\
      map_get "a" (own_properties result) = Some (VNum 1) /\
      map_get "b" (own_properties result) = Some VNull /\
      map_has "c" (own_properties result) = false) /\
  fst (getBatch down_client no_parse 2000 ["__proto__"] e)
  = Ok (mkObject NullPrototype []).
Proof.
  cbv zeta.
  set (e := snd (set down_client no_stringify 1000 "a" (VNum 1) None
                   (memory_engine 10000))).
  assert (H1 : ~ In "__proto__" ["a"; "b"]).
  { cbn. intros [H|[H|[]]]; discriminate H. }
  split; [exact H1|]. split; [|reflexivity].
  destruct (X9_getBatch_answers_every_key unit down_client no_parse e 2000 ["a"; "b"])
    as [Hall _].
  destruct (Hall H1) as (outcomes & result & e' & Heach & _ & Hbatch & _ & Hvalue & _).
  exists result. rewrite Hbatch. split; [reflexivity|].
  assert (Ho : outcomes = [("a", VNum 1); ("b", VNull)]).
  { assert (Hc : get_each down_client no_parse 2000 ["a"; "b"] e
                 = (Ok [("a", VNum 1); ("b", VNull)],
                    snd (get_each down_client no_parse 2000 ["a"; "b"] e)))
      by reflexivity.
    rewrite Hc in Heach. now inversion Heach. }
  unfold map_has. rewrite !Hvalue, Ho. repeat split.
Defined.

(** ** [clear], [shutdown] and the two tiers *)

(** X10. [clear] on the memory tier empties the store, resets every
    counter and answers true. On the remote tier it sends FLUSHDB: when
    the command fails [clear] answers false and resets nothing; when it
    succeeds the counters are reset and the entries of the memory tier stay
    where they are. *)
Theorem X10_clear_resets_only_on_success :
  forall (R : Type) (client : RedisClient R) (e : CacheEngine R),
    (isPrimaryActive e = false ->
     fst (clear client e) = Ok true /\
     memoryCache (snd (clear client e)) = [] /\
     metrics (snd (clear client e)) = initial_metrics /\
     remote (snd (clear client e)) = remote e) /\
    (forall err r',
        isPrimaryActive e = true ->
        r_flushdb client (remote e) = (Throw err, r') ->
        fst (clear client e) = Ok false /\
        metrics (snd (clear client e)) = metrics e /\
        memoryCache (snd (clear client e)) = memoryCache e) /\
    (forall r',
        isPrimaryActive e = true ->
        r_flushdb client (remote e) = (Ok tt, r') ->
        fst (clear client e) = Ok true /\
        metrics (snd (clear client e)) = initial_metrics /\
        memoryCache (snd (clear client e)) = memoryCache e /\
        remote (snd (clear client e)) = r').
Proof.
  intros R client e.
  unfold clear, try_catch, bind, gets, modify, ret, call.
  split; [|split].
  - intros Ha. rewrite Ha. repeat split.
  - intros err r' Ha Hf. rewrite Ha, Hf. repeat split.
  - intros r' Ha Hf. rewrite Ha, Hf. repeat split.
Qed.

(** X11. After [shutdown] the engine is an empty memory-only cache and
    stays one: the client is gone, so a later connect notification does
    not bring the remote tier back and no call reconnects; the counters
    are kept; values written afterwards are served from memory. *)
Theorem X11_shutdown_leaves_a_memory_only_engine :
  forall (R : Type) (client : RedisClient R) (JSON_stringify : value -> outcome string)
    (JSON_parse : string -> outcome value) (e : CacheEngine R) (now later : Z)
    (key : string) (v : value) (lifespan : Z),
    connectionReady e = true \/ primaryEndpoint (config e) = "" ->
    later <= now + lifespan * 1000 ->
    let e' := shutdown client e in
    memoryCache e' = [] /\
    metrics e' = metrics e /\
    local_tier e' = true /\
    local_tier (onconnect e') = true /\
    ensureConnection client (onconnect e') = (Ok tt, onconnect e') /\
    fst (get client JSON_parse later key
           (snd (set client JSON_stringify now key v (Some lifespan) (onconnect e'))))
    = Ok v.
Proof.
  intros R client JSON_stringify JSON_parse e now later key v lifespan Hready Hlive.
  cbv zeta.
  assert (Hl : local_tier (onconnect (shutdown client e)) = true).
  { unfold local_tier, isPrimaryActive, onconnect, shutdown.
    destruct e as [r pc mc mt cfg pa cr]. simpl in Hready.
    destruct pc, cr; simpl; try reflexivity;
      (destruct Hready as [H|H]; [discriminate H|rewrite H; reflexivity]). }
  assert (Hl0 : local_tier (shutdown client e) = true).
  { unfold local_tier, isPrimaryActive, shutdown.
    destruct e as [r pc mc mt cfg pa cr]. simpl in Hready.
    destruct pc, cr; simpl; try reflexivity;
      (destruct Hready as [H|H]; [discriminate H|rewrite H; reflexivity]). }
  split; [unfold shutdown; destruct (primaryClient e); reflexivity|].
  split; [unfold shutdown; destruct (primaryClient e); reflexivity|].
  split; [exact Hl0|]. split; [exact Hl|].
  split; [now apply ensureConnection_local|].
  rewrite (set_local R client JSON_stringify _ now key v (Some lifespan) Hl).
  cbn [snd].
  set (e1 := local_set_state now key v (Some lifespan) (onconnect (shutdown client e))).
  assert (Hk : map_get key (memoryCache e1)
               = Some (mkEntry v (Some (now + lifespan * 1000)) now))
    by apply get_set_state.
  assert (Hx : past_expiration later (mkEntry v (Some (now + lifespan * 1000)) now)
               = false).
  { unfold past_expiration. cbn [expiration].
    apply andb_false_iff. right. now apply Z.ltb_ge. }
  now rewrite (get_local_live R client JSON_parse e1 later key _ Hl Hk Hx).
Qed.

Lemma X11_shutdown_witness :
  (connectionReady connected_engine = true /\ 2000 <= 1000 + 60 * 1000) /\
  remote_tier connected_engine = true /\
  local_tier (onconnect (shutdown empty_client connected_engine)) = true /\
  fst (get empty_client no_parse 2000 "k"
         (snd (set empty_client no_stringify 1000 "k" (VNum 1) (Some 60)
                 (onconnect (shutdown empty_client connected_engine)))))
  = Ok (VNum 1).
Proof.
  assert (H1 : connectionReady connected_engine = true) by reflexivity.
  assert (H2 : 2000 <= 1000 + 60 * 1000) by (vm_compute; discriminate).
  split; [exact (conj H1 H2)|]. split; [reflexivity|].
  destruct (X11_shutdown_leaves_a_memory_only_engine unit empty_client no_stringify
              no_parse connected_engine 1000 2000 "k" (VNum 1) 60 (or_introl H1) H2)
    as (_ & _ & _ & Ha & _ & Hb).
  split; [exact Ha|exact Hb].
Defined.

(** Entering a method on the remote tier. *)
Ltac enter_remote R client e H :=
  unfold try_catch, bind, gets, modify, ret, call, lift_outcome, throw;
  try rewrite (ensureConnection_remote R client e H);
  rewrite (remote_tier_active R e H).

Ltac split_cases :=
  repeat match goal with
         | |- context [match ?x with _ => _ end] =>
             lazymatch x with
             | context [match _ with _ => _ end] => fail
             | _ => destruct x
             end
         end.

(** X12. One tier serves a call. On the memory tier [set], [get],
    [has], [delete], [increment], [getTTL] and [setTTL] leave the remote
    side untouched (no command is sent); on the remote tier they leave the
    memory store untouched, whatever the server answers. *)
Theorem X12_a_call_touches_one_tier :
  forall (R : Type) (client : RedisClient R) (JSON_stringify : value -> outcome string)
    (JSON_parse : string -> outcome value) (e : CacheEngine R) (now : Z)
    (key : string) (v : value) (lifespan : option Z) (step seconds : Z),
    (local_tier e = true ->
     remote (snd (set client JSON_stringify now key v lifespan e)) = remote e /\
     remote (snd (get client JSON_parse now key e)) = remote e /\
     remote (snd (has client now key e)) = remote e /\
     remote (snd (delete client key e)) = remote e /\
     remote (snd (increment client JSON_stringify now key step e)) = remote e /\
     remote (snd (getTTL client now key e)) = remote e /\
     remote (snd (setTTL client now key seconds e)) = remote e) /\
    (remote_tier e = true ->
     memoryCache (snd (set client JSON_stringify now key v lifespan e)) = memoryCache e /\
     memoryCache (snd (get client JSON_parse now key e)) = memoryCache e /\
     memoryCache (snd (has client now key e)) = memoryCache e /\
     memoryCache (snd (delete client key e)) = memoryCache e /\
     memoryCache (snd (increment client JSON_stringify now key step e)) = memoryCache e /\
     memoryCache (snd (getTTL client now key e)) = memoryCache e /\
     memoryCache (snd (setTTL client now key seconds e)) = memoryCache e).
Proof.
  intros R client JSON_stringify JSON_parse e now key v lifespan step seconds.
  split.
  - intros Hl.
    rewrite (set_local R client JSON_stringify e now key v lifespan Hl).
    rewrite (increment_local R client JSON_stringify e now key step Hl).
    rewrite (delete_local R client e key Hl).
    rewrite (getTTL_local R client e now key Hl).
    rewrite (setTTL_local R client e now key seconds Hl).
    split; [reflexivity|]. split.
    { destruct (map_get key (memoryCache e)) as [entry|] eqn:Hk.
      - destruct (past_expiration now entry) eqn:Hx.
        + now rewrite (get_local_expired R client JSON_parse e now key entry Hl Hk Hx).
        + now rewrite (get_local_live R client JSON_parse e now key entry Hl Hk Hx).
      - now rewrite (get_local_absent R client JSON_parse e now key Hl Hk). }
    split.
    { destruct (map_get key (memoryCache e)) as [entry|] eqn:Hk.
      - destruct (past_expiration now entry) eqn:Hx.
        + now rewrite (has_local_expired R client e now key entry Hl Hk Hx).
        + now rewrite (has_local_live R client e now key entry Hl Hk Hx).
      - now rewrite (has_local_absent R client e now key Hl Hk). }
    split; [cbn; destruct (map_has key (memoryCache e)); reflexivity|].
    split; [reflexivity|]. split; [reflexivity|].
    destruct (map_get key (memoryCache e)); reflexivity.
  - intros Hr.
    split; [unfold set; enter_remote R client e Hr; split_cases; reflexivity|].
    split; [unfold get; enter_remote R client e Hr; split_cases; reflexivity|].
    split; [unfold has; enter_remote R client e Hr; split_cases; reflexivity|].
    split; [unfold delete; enter_remote R client e Hr; split_cases; reflexivity|].
    split; [unfold increment; enter_remote R client e Hr; split_cases; reflexivity|].
    split; [unfold getTTL; enter_remote R client e Hr; split_cases; reflexivity|].
    unfold setTTL; enter_remote R client e Hr; split_cases; reflexivity.
Qed.

(** X13. On either tier, [set] counts a write exactly when it answers
    true: a write that fails (the value cannot be encoded, the server
    rejects SET or EXPIRE) answers false and leaves [writes] as it was. *)
Theorem X13_writes_counts_successful_sets :
  forall (R : Type) (client : RedisClient R) (JSON_stringify : value -> outcome string)
    (e : CacheEngine R) (now : Z) (key : string) (v : value) (lifespan : option Z),
    let r := set client JSON_stringify now key v lifespan e in
    (fst r = Ok true \/ fst r = Ok false) /\
    writes (metrics (snd r))
    = writes (metrics e) + match fst r with Ok true => 1 | _ => 0 end.
Proof.
  intros R client JSON_stringify e now key v lifespan. cbv zeta.
  unfold set, try_catch, bind, gets, modify, ret, call, lift_outcome, evict.
  destruct (ensureConnection_keeps R client e) as (Hok & Hm & _ & _).
  destruct (ensureConnection client e) as [o e1]. cbn [fst snd] in Hok, Hm.
  subst o. rewrite <- Hm.
  destruct (isPrimaryActive e1).
  - destruct (JSON_stringify v) as [encoded|err]; [|split; [now right|cbn; lia]].
    destruct (r_set client key encoded (remote e1)) as [[[]|err] r1];
      [|split; [now right|cbn; lia]].
    change (config (set_remote r1 e1)) with (config e1).
    destruct (0 <? match lifespan with Some l => l | None => entryLifespan (config e1) end).
    + change (remote (set_remote r1 e1)) with r1.
      destruct (r_expire client key
                  match lifespan with Some l => l | None => entryLifespan (config e1) end
                  r1) as [[[]|err] r2]; cbn; (split; [auto|lia]).
    + cbn. split; [auto|lia].
  - destruct (memoryTierLimit (config e1) <=? map_size (memoryCache e1)); cbn;
      (split; [auto|lia]).
Qed.

(** ** Time to live *)

(** X14. On the memory tier, at a positive clock reading and for a
    number of seconds that is not negative, [setTTL] on a stored key
    gives the entry the expiration now + seconds*1000 and keeps its value
    and [lastAccessed]; [getTTL] at the same instant answers [seconds]. It
    does not look at the old expiration: an entry that had expired but was
    not purged yet is served again by [get] until the new expiration. On
    an absent key [setTTL] answers false and changes nothing. *)
Theorem X14_setTTL_gives_a_new_expiration :
  forall (R : Type) (client : RedisClient R) (JSON_parse : string -> outcome value)
    (e : CacheEngine R) (now later : Z) (key : string) (seconds : Z)
    (entry : InMemoryCacheEntry),
    local_tier e = true ->
    map_get key (memoryCache e) = Some entry ->
    0 < now ->
    0 <= seconds ->
    later <= now + seconds * 1000 ->
    let r := setTTL client now key seconds e in
    fst r = Ok true /\
    map_get key (memoryCache (snd r))
    = Some (mkEntry (entry_value entry) (Some (now + seconds * 1000))
              (lastAccessed entry)) /\
    fst (getTTL client now key (snd r)) = Ok seconds /\
    fst (get client JSON_parse later key (snd r)) = Ok (entry_value entry) /\
    (forall absent,
        map_get absent (memoryCache e) = None ->
        setTTL client now absent seconds e = (Ok false, e)).
Proof.
  intros R client JSON_parse e now later key seconds entry Hl Hk Hnow Hsec Hlater.
  cbv zeta. rewrite (setTTL_local R client e now key seconds Hl), Hk. cbn [fst snd].
  set (entry' := mkEntry (entry_value entry) (Some (now + seconds * 1000))
                   (lastAccessed entry)).
  set (e1 := set_memoryCache (map_set key entry' (memoryCache e)) e).
  assert (Hl1 : local_tier e1 = true) by exact Hl.
  assert (Hk1 : map_get key (memoryCache e1) = Some entry') by apply map_get_set_same.
  split; [reflexivity|]. split; [exact Hk1|]. split; [|split].
  - rewrite (getTTL_local R client e1 now key Hl1), Hk1. cbn [fst].
    unfold entry', has_expiration. cbn [expiration].
    assert (Hnz : (now + seconds * 1000 =? 0) = false) by (apply Z.eqb_neq; lia).
    rewrite Hnz. cbn [negb]. f_equal.
    replace (now + seconds * 1000 - now) with (seconds * 1000) by lia.
    rewrite Z.max_r by lia. apply Z.div_mul. lia.
  - assert (Hx : past_expiration later entry' = false).
    { unfold past_expiration, entry'. cbn [expiration].
      apply andb_false_iff. right. now apply Z.ltb_ge. }
    now rewrite (get_local_live R client JSON_parse e1 later key entry' Hl1 Hk1 Hx).
  - intros absent Ha. now rewrite (setTTL_local R client e now absent seconds Hl), Ha.
Qed.

Lemma X14_setTTL_witness :
  (local_tier short_lived_engine = true /\
   map_get "k" (memoryCache short_lived_engine)
   = Some (mkEntry (VStr "v") (Some 2000) 1000) /\
   past_expiration 5000 (mkEntry (VStr "v") (Some 2000) 1000) = true /\
   0 < 5000 /\ 0 <= 10 /\ 9000 <= 5000 + 10 * 1000) /\
  (let r := setTTL down_client 5000 "k" 10 short_lived_engine in
   fst (getTTL down_client 5000 "k" (snd r)) = Ok 10 /\
   fst (get down_client no_parse 9000 "k" (snd r)) = Ok (VStr "v")).
Proof.
  assert (H1 : local_tier short_lived_engine = true) by reflexivity.
  assert (H2 : map_get "k" (memoryCache short_lived_engine)
               = Some (mkEntry (VStr "v") (Some 2000) 1000)) by reflexivity.
  assert (H3 : past_expiration 5000 (mkEntry (VStr "v") (Some 2000) 1000) = true)
    by reflexivity.
  assert (H4 : 0 < 5000) by reflexivity.
  assert (H5 : 0 <= 10) by (vm_compute; discriminate).
  assert (H6 : 9000 <= 5000 + 10 * 1000) by (vm_compute; discriminate).
  split; [exact (conj H1 (conj H2 (conj H3 (conj H4 (conj H5 H6)))))|].
  destruct (X14_setTTL_gives_a_new_expiration unit down_client no_parse
              short_lived_engine 5000 9000 "k" 10 _ H1 H2 H4 H5 H6)
    as (_ & _ & Ha & Hb & _).
  cbv zeta. split; [exact Ha|exact Hb].
Defined.

(** X15. On the memory tier, for an entry written by [set] at a
    positive clock reading with a lifespan of [lifespan] seconds that is
    not negative, [getTTL] at any later time answers the whole seconds
    left, floor((now + lifespan*1000 - later) / 1000) and 0 once the time
    is up: never negative, never more than [lifespan], the full [lifespan]
    at the instant of the write; and it changes nothing. *)
Theorem X15_getTTL_counts_down_from_the_lifespan :
  forall (R : Type) (client : RedisClient R) (JSON_stringify : value -> outcome string)
    (e : CacheEngine R) (now later : Z) (key : string) (v : value) (lifespan : Z),
    local_tier e = true ->
    0 < now ->
    0 <= lifespan ->
    now <= later ->
    let e1 := snd (set client JSON_stringify now key v (Some lifespan) e) in
    let left := Z.max 0 (now + lifespan * 1000 - later) / 1000 in
    getTTL client later key e1 = (Ok left, e1) /\
    0 <= left <= lifespan /\
    (later = now -> left = lifespan) /\
    (now + lifespan * 1000 <= later -> left = 0).
Proof.
  intros R client JSON_stringify e now later key v lifespan Hl Hnow Hlife Hlater.
  cbv zeta. rewrite (set_local R client JSON_stringify e now key v _ Hl). cbn [snd].
  set (e1 := local_set_state now key v (Some lifespan) e).
  assert (Hl1 : local_tier e1 = true) by exact Hl.
  assert (Hk1 : map_get key (memoryCache e1)
                = Some (mkEntry v (Some (now + lifespan * 1000)) now))
    by apply get_set_state.
  split; [|split; [|split]].
  - rewrite (getTTL_local R client e1 later key Hl1), Hk1.
    unfold has_expiration. cbn [expiration].
    assert (Hnz : (now + lifespan * 1000 =? 0) = false) by (apply Z.eqb_neq; lia).
    now rewrite Hnz.
  - split.
    + apply Z.div_pos; lia.
    + rewrite <- (Z.div_mul lifespan 1000) at 2 by lia.
      apply Z.div_le_mono; lia.
  - intros ->. replace (now + lifespan * 1000 - now) with (lifespan * 1000) by lia.
    rewrite Z.max_r by lia. apply Z.div_mul. lia.
  - intros Hup. rewrite Z.max_l by lia. reflexivity.
Qed.

Lemma X15_getTTL_witness :
  (local_tier (memory_engine 10000) = true /\ 0 < 1000 /\ 0 <= 60 /\ 1000 <= 2500) /\
  fst (getTTL down_client 2500 "k"
         (snd (set down_client no_stringify 1000 "k" (VNum 1) (Some 60)
                 (memory_engine 10000))))
  = Ok 58.
Proof.
  assert (H1 : local_tier (memory_engine 10000) = true) by reflexivity.
  assert (H2 : 0 < 1000) by reflexivity.
  assert (H3 : 0 <= 60) by (vm_compute; discriminate).
  assert (H4 : 1000 <= 2500) by (vm_compute; discriminate).
  split; [exact (conj H1 (conj H2 (conj H3 H4)))|].
  destruct (X15_getTTL_counts_down_from_the_lifespan unit down_client no_stringify
              (memory_engine 10000) 1000 2500 "k" (VNum 1) 60 H1 H2 H3 H4) as [H _].
  cbv zeta in H. rewrite H. reflexivity.
Defined.

(** ** [memoize] and [acquireLock] *)

(** X16. On the memory tier a memoized function is computed once per
    cache key: the first call on an absent key runs the function and
    caches its result; a later call whose parameters build the same key,
    made before the entry expires, answers the cached result without
    running the function, also when the parameters differ. (The result
    must not be null.) *)
Theorem X16_memoize_computes_once_per_key :
  forall (R : Type) (client : RedisClient R) (JSON_stringify : value -> outcome string)
    (JSON_parse : string -> outcome value) (G P : Type) (fn : P -> Eff G value)
    (keyBuilder : P -> string) (lifespan : option Z) (e : CacheEngine R)
    (now1 later1 now2 later2 : Z) (p1 p2 : P) (n : nat) (g g1 : G) (v : value),
    local_tier e = true ->
    map_get (keyBuilder p1) (memoryCache e) = None ->
    keyBuilder p2 = keyBuilder p1 ->
    fn p1 g = (Ok v, g1) ->
    v <> VNull ->
    match lifespan with
    | Some l => now2 <= later1 + l * 1000
    | None => entryLifespan (config e) <= 0
              \/ now2 <= later1 + entryLifespan (config e) * 1000
    end ->
    let counted := fun p => counting (fn p) in
    let first := memoize client JSON_stringify JSON_parse counted keyBuilder lifespan
                   now1 later1 p1 (n, g) e in
    let second := memoize client JSON_stringify JSON_parse counted keyBuilder lifespan
                    now2 later2 p2 (snd (fst first)) (snd first) in
    fst first = (Ok v, (S n, g1)) /\
    fst second = (Ok v, (S n, g1)).
Proof.
  intros R client JSON_stringify JSON_parse G P fn keyBuilder lifespan e
    now1 later1 now2 later2 p1 p2 n g g1 v Hl Hk Hsame Hfn Hnn Hlive.
  cbv zeta.
  set (e1 := local_set_state later1 (keyBuilder p1) v lifespan (count_failed e)).
  assert (Hfirst : memoize client JSON_stringify JSON_parse (fun p => counting (fn p))
                     keyBuilder lifespan now1 later1 p1 (n, g) e
                   = (Ok v, (S n, g1), e1)).
  { unfold memoize, getOrSet.
    rewrite (get_local_absent R client JSON_parse e now1 _ Hl Hk).
    cbn [is_null negb]. unfold counting. cbn [fst snd]. rewrite Hfn.
    assert (Hl1 : local_tier (count_failed e) = true) by exact Hl.
    rewrite (set_local R client JSON_stringify (count_failed e) later1 _ v lifespan Hl1).
    reflexivity. }
  rewrite Hfirst. cbn [fst snd]. split; [reflexivity|].
  assert (Hl2 : local_tier e1 = true) by exact Hl.
  assert (Hk2 : map_get (keyBuilder p1) (memoryCache e1)
                = Some (mkEntry v (local_expiration (config e) later1 lifespan) later1))
    by exact (get_set_state R (count_failed e) later1 (keyBuilder p1) v lifespan).
  pose proof (written_entry_live (config e) later1 now2 v lifespan Hlive) as Hx.
  unfold memoize, getOrSet. rewrite Hsame.
  rewrite (get_local_live R client JSON_parse e1 now2 _ _ Hl2 Hk2 Hx).
  cbn [entry_value]. destruct v; try congruence; reflexivity.
Qed.

Lemma X16_memoize_witness :
  let fn := fun p : Z => @ret unit value (VNum (p * p)) in
  let keyBuilder := fun p : Z => ("square:" ++ string_of_Z (Z.abs p))%string in
  (local_tier (memory_engine 10000) = true /\
   map_get (keyBuilder 3) (memoryCache (memory_engine 10000)) = None /\
   keyBuilder (-3) = keyBuilder 3 /\
   2000 <= 1100 + 60 * 1000) /\
  (let first := memoize down_client no_stringify no_parse (fun p => counting (fn p))
                  keyBuilder (Some 60) 1000 1100 3 (0%nat, tt) (memory_engine 10000) in
   fst (memoize down_client no_stringify no_parse (fun p => counting (fn p))
          keyBuilder (Some 60) 2000 2100 (-3) (snd (fst first)) (snd first))
   = (Ok (VNum 9), (1%nat, tt))).
Proof.
  cbv zeta.
  assert (H1 : local_tier (memory_engine 10000) = true) by reflexivity.
  assert (H2 : map_get ("square:" ++ string_of_Z (Z.abs 3))%string
                 (memoryCache (memory_engine 10000)) = None) by reflexivity.
  assert (H3 : ("square:" ++ string_of_Z (Z.abs (-3)))%string
               = ("square:" ++ string_of_Z (Z.abs 3))%string) by reflexivity.
  assert (H4 : 2000 <= 1100 + 60 * 1000) by (vm_compute; discriminate).
  split; [exact (conj H1 (conj H2 (conj H3 H4)))|].
  assert (H5 : VNum (3 * 3) <> VNull) by discriminate.
  destruct (X16_memoize_computes_once_per_key unit down_client no_stringify no_parse
              unit Z (fun p : Z => @ret unit value (VNum (p * p)))
              (fun p : Z => ("square:" ++ string_of_Z (Z.abs p))%string)
              (Some 60) (memory_engine 10000) 1000 1100 2000 2100 3 (-3) 0%nat tt tt
              (VNum (3 * 3)) H1 H2 H3 eq_refl H5 H4) as [_ H].
  exact H.
Defined.

Lemma acquireLock_loop_held :
  forall (R : Type) (client : RedisClient R) (JSON_stringify : value -> outcome string)
    (JSON_parse : string -> outcome value) (startTime : Z) (lockKey lockToken : string)
    (duration timeout : Z) (holder : string) (expires last : Z) (polls : list Z)
    (e : CacheEngine R) (accessed : Z),
    local_tier e = true ->
    map_get lockKey (memoryCache e)
    = Some (mkEntry (VStr holder) (Some expires) accessed) ->
    holder <> "" ->
    Forall (fun poll => poll - startTime < timeout /\ poll <= expires) polls ->
    timeout <= last - startTime ->
    exists e',
      acquireLock_loop client JSON_stringify JSON_parse (polls ++ [last])
        startTime lockKey lockToken duration timeout e = (Ok (Some false), e') /\
      option_map entry_value (map_get lockKey (memoryCache e')) = Some (VStr holder) /\
      successful (metrics e') = successful (metrics e) + Z.of_nat (List.length polls) /\
      writes (metrics e') = writes (metrics e).
Proof.
  intros R client JSON_stringify JSON_parse startTime lockKey lockToken duration
    timeout holder expires last polls.
  induction polls as [|poll polls IH]; intros e accessed Hl Hk Hholder Hall Hlast.
  - exists e. cbn [app acquireLock_loop]. apply Z.ltb_ge in Hlast. rewrite Hlast.
    unfold ret. rewrite Hk. cbn. repeat split; lia.
  - inversion Hall as [|? ? [Hin Hlive] Hrest]; subst.
    assert (Hx : past_expiration poll (mkEntry (VStr holder) (Some expires) accessed)
                 = false).
    { unfold past_expiration. cbn [expiration].
      apply andb_false_iff. right. now apply Z.ltb_ge. }
    set (e1 := count_successful
                 (set_memoryCache
                    (map_set lockKey (mkEntry (VStr holder) (Some expires) poll)
                       (memoryCache e)) e)).
    assert (Hl1 : local_tier e1 = true) by exact Hl.
    assert (Hk1 : map_get lockKey (memoryCache e1)
                  = Some (mkEntry (VStr holder) (Some expires) poll))
      by apply map_get_set_same.
    destruct (IH e1 poll Hl1 Hk1 Hholder Hrest Hlast) as (e' & Heq & Hb & Hc & Hd).
    exists e'. split; [|split; [exact Hb|split]].
    + cbn [app acquireLock_loop]. apply Z.ltb_lt in Hin. rewrite Hin.
      unfold bind.
      rewrite (get_local_live R client JSON_parse e poll lockKey _ Hl Hk Hx).
      cbn [entry_value truthy expiration].
      apply String.eqb_neq in Hholder. rewrite Hholder. cbn [negb].
      exact Heq.
    + rewrite Hc. cbn [List.length]. subst e1. simpl successful. lia.
    + rewrite Hd. reflexivity.
Qed.

(** X17. On the memory tier, while the lock key holds another caller's
    token that has not expired, [acquireLock] tests the key at every poll
    and never writes: whatever the number of polls before its timeout, it
    answers false at the first poll past the timeout, the holder's token is
    still in place, and each poll was counted as a successful read. With a
    timeout already elapsed at the first poll it answers false at once. *)
Theorem X17_acquireLock_polls_until_its_timeout :
  forall (R : Type) (client : RedisClient R) (JSON_stringify : value -> outcome string)
    (JSON_parse : string -> outcome value) (e : CacheEngine R) (startTime : Z)
    (polls : list Z) (last : Z) (lockToken lockKey holder : string)
    (duration timeout : option Z) (expires accessed : Z),
    local_tier e = true ->
    map_get lockKey (memoryCache e)
    = Some (mkEntry (VStr holder) (Some expires) accessed) ->
    holder <> "" ->
    Forall (fun poll =>
              poll - startTime < match timeout with Some t => t | None => 10000 end
              /\ poll <= expires) polls ->
    match timeout with Some t => t | None => 10000 end <= last - startTime ->
    let r := acquireLock client JSON_stringify JSON_parse startTime (polls ++ [last])
               lockToken lockKey duration timeout e in
    fst r = Ok (Some false) /\
    option_map entry_value (map_get lockKey (memoryCache (snd r)))
    = Some (VStr holder) /\
    successful (metrics (snd r)) = successful (metrics e) + Z.of_nat (List.length polls) /\
    writes (metrics (snd r)) = writes (metrics e).
Proof.
  intros R client JSON_stringify JSON_parse e startTime polls last lockToken lockKey
    holder duration timeout expires accessed Hl Hk Hholder Hall Hlast.
  cbv zeta. unfold acquireLock.
  destruct (acquireLock_loop_held R client JSON_stringify JSON_parse startTime lockKey
              lockToken (match duration with Some d => d | None => 30 end)
              (match timeout with Some t => t | None => 10000 end)
              holder expires last polls e accessed Hl Hk Hholder Hall Hlast)
    as (e' & Heq & Hb & Hc & Hd).
  rewrite Heq. cbn [fst snd]. repeat split; assumption.
Qed.

Lemma X17_acquireLock_witness :
  let e := snd (set down_client no_stringify 1000 "job" (VStr "0.holder") (Some 30)
                  (memory_engine 10000)) in
  (local_tier e = true /\
   map_get "job" (memoryCache e) = Some (mkEntry (VStr "0.holder") (Some 31000) 1000) /\
   Forall (fun poll => poll - 2000 < 25 /\ poll <= 31000) [2000; 2010; 2020] /\
   25 <= 2030 - 2000) /\
  (let r := acquireLock down_client no_stringify no_parse 2000 [2000; 2010; 2020; 2030]
              "0.other" "job" None (Some 25) e in
   fst r = Ok (Some false) /\
   successful (metrics (snd r)) = successful (metrics e) + 3).
Proof.
  cbv zeta.
  set (e := snd (set down_client no_stringify 1000 "job" (VStr "0.holder") (Some 30)
                   (memory_engine 10000))).
  assert (H1 : local_tier e = true) by reflexivity.
  assert (H2 : map_get "job" (memoryCache e)
               = Some (mkEntry (VStr "0.holder") (Some 31000) 1000)) by reflexivity.
  assert (H3 : Forall (fun poll => poll - 2000 < 25 /\ poll <= 31000)
                 [2000; 2010; 2020]).
  { repeat constructor; vm_compute; discriminate. }
  assert (H4 : 25 <= 2030 - 2000) by (vm_compute; discriminate).
  split; [exact (conj H1 (conj H2 (conj H3 H4)))|].
  assert (H5 : "0.holder" <> "") by discriminate.
  destruct (X17_acquireLock_polls_until_its_timeout unit down_client no_stringify
              no_parse e 2000 [2000; 2010; 2020] 2030 "0.other" "job" "0.holder"
              None (Some 25) 31000 1000 H1 H2 H5 H3 H4) as (Ha & _ & Hb & _).
  split; [exact Ha|exact Hb].
Defined.

(** ** More on [rateLimit] *)

(** X18. For a positive window, on either tier and also when the
    counter cannot be incremented, [rateLimit] answers with a
    [windowReset] that lies strictly after the start of the call and at
    most one window after the clock reading [caught] that the catch takes
    when the increment has failed (any reading not before the start):
    when the increment succeeds it is at most one window after the start,
    when it fails it is one window after [caught].
    A refused call has quota 0 and a count above [maxRequests]; a count
    within [maxRequests] is permitted with quota maxRequests - count. *)
Theorem X18_rateLimit_answer_is_consistent :
  forall (R : Type) (client : RedisClient R) (JSON_stringify : value -> outcome string)
    (e : CacheEngine R) (now caught : Z) (key : string) (maxRequests windowSeconds : Z),
    0 < windowSeconds ->
    now <= caught ->
    exists answer,
      fst (rateLimit client JSON_stringify now caught key maxRequests windowSeconds e)
      = Ok answer /\
      now < windowReset answer <= caught + windowSeconds * 1000 /\
      (is_ok (fst (increment client JSON_stringify now
                     (traffic_key key (now / (windowSeconds * 1000))) 1 e)) = true ->
       windowReset answer <= now + windowSeconds * 1000) /\
      (is_ok (fst (increment client JSON_stringify now
                     (traffic_key key (now / (windowSeconds * 1000))) 1 e)) = false ->
       windowReset answer = caught + windowSeconds * 1000) /\
      (permitted answer = false ->
       quota answer = 0 /\ maxRequests < requestCount answer) /\
      (requestCount answer <= maxRequests ->
       permitted answer = true /\ quota answer = maxRequests - requestCount answer).
Proof.
  intros R client JSON_stringify e now caught key maxRequests windowSeconds Hws Hcaught.
  assert (Hd : 0 < windowSeconds * 1000) by lia.
  pose proof (Z.mul_div_le now _ Hd) as Hlow.
  pose proof (Z.mul_succ_div_gt now _ Hd) as Hhigh.
  unfold rateLimit, try_catch, bind, ret.
  destruct (increment client JSON_stringify now
              (traffic_key key (now / (windowSeconds * 1000))) 1 e)
    as [[current|err] e1].
  - assert (Hshape :
        forall e2,
          exists answer,
            fst (Ok (mkTraffic (current <=? maxRequests)
                       (Z.max 0 (maxRequests - current))
                       ((now / (windowSeconds * 1000) + 1) * windowSeconds * 1000)
                       current), e2 : CacheEngine R) = Ok answer /\
            now < windowReset answer <= caught + windowSeconds * 1000 /\
            (is_ok (fst (@Ok Z current, e1)) = true ->
             windowReset answer <= now + windowSeconds * 1000) /\
            (is_ok (fst (@Ok Z current, e1)) = false ->
             windowReset answer = caught + windowSeconds * 1000) /\
            (permitted answer = false ->
             quota answer = 0 /\ maxRequests < requestCount answer) /\
            (requestCount answer <= maxRequests ->
             permitted answer = true
             /\ quota answer = maxRequests - requestCount answer)).
    { intros e2. eexists. split; [reflexivity|]. cbn.
      split; [nia|]. split; [intros _; nia|]. split; [discriminate|]. split.
      - intros Hp. apply Z.leb_gt in Hp. lia.
      - intros Hc. split; [now apply Z.leb_le|lia]. }
    destruct (current =? 1).
    + pose proof (set_never_throws R client JSON_stringify e1 now
                    (traffic_key key (now / (windowSeconds * 1000))) (VNum current)
                    (Some windowSeconds)) as Hs.
      destruct (set client JSON_stringify now
                  (traffic_key key (now / (windowSeconds * 1000))) (VNum current)
                  (Some windowSeconds) e1) as [[b|err] e2]; [|discriminate Hs].
      apply Hshape.
    + apply Hshape.
  - eexists. split; [reflexivity|]. cbn.
    split; [lia|]. split; [discriminate|]. split; [reflexivity|].
    split; [discriminate|]. intros _. split; reflexivity.
Qed.

Lemma X18_rateLimit_witness :
  (0 < 60 /\ 1700000000000 <= 1700000000250) /\
  (exists answer,
      fst (rateLimit down_client no_stringify 1700000000000 1700000000250 "ip" 0 60
             (memory_engine 10))
      = Ok answer /\
      1700000000000 < windowReset answer <= 1700000000250 + 60 * 1000 /\
      permitted answer = false /\ quota answer = 0) /\
  (exists answer,
      fst (rateLimit down_client no_stringify 1700000000000 1700000000250 "ip" 3 60
             connected_engine)
      = Ok answer /\
      windowReset answer = 1700000060250).
Proof.
  assert (H1 : 0 < 60) by reflexivity.
  assert (H2 : 1700000000000 <= 1700000000250) by (vm_compute; discriminate).
  split; [exact (conj H1 H2)|]. split.
  - destruct (X18_rateLimit_answer_is_consistent unit down_client no_stringify
                (memory_engine 10) 1700000000000 1700000000250 "ip" 0 60 H1 H2)
      as (answer & Heq & Hreset & _ & _ & Hrefused & _).
    exists answer. split; [exact Heq|]. split; [exact Hreset|].
    assert (Hp : permitted answer = false).
    { assert (Hc : fst (rateLimit down_client no_stringify 1700000000000
                          1700000000250 "ip" 0 60 (memory_engine 10))
                   = Ok (mkTraffic false 0 1700000040000 1)) by reflexivity.
      rewrite Hc in Heq. inversion Heq. reflexivity. }
    split; [exact Hp|]. now destruct (Hrefused Hp).
  - destruct (X18_rateLimit_answer_is_consistent unit down_client no_stringify
                connected_engine 1700000000000 1700000000250 "ip" 3 60 H1 H2)
      as (answer & Heq & _).
    exists answer. split; [exact Heq|].
    assert (Hc : fst (rateLimit down_client no_stringify 1700000000000
                        1700000000250 "ip" 3 60 connected_engine)
                 = Ok (mkTraffic true 2 1700000060250 1)) by reflexivity.
    rewrite Hc in Heq. inversion Heq. reflexivity.
Defined.

Lemma rateLimit_series_in_window :
  forall (R : Type) (client : RedisClient R) (JSON_stringify : value -> outcome string)
    (key : string) (maxRequests windowSeconds window : Z) (rest : list (Z * Z))
    (e : CacheEngine R) (t count : Z),
    local_tier e = true ->
    0 < windowSeconds ->
    windowSeconds <= entryLifespan (config e) \/ entryLifespan (config e) <= 0 ->
    t / (windowSeconds * 1000) = window ->
    map_get (traffic_key key window) (memoryCache e)
    = Some (mkEntry (VNum count)
              (if count =? 1 then Some (t + windowSeconds * 1000)
               else local_expiration (config e) t None) t) ->
    Forall (fun call => fst call / (windowSeconds * 1000) = window) rest ->
    fst (rateLimit_series client JSON_stringify key maxRequests windowSeconds rest e)
    = window_answers maxRequests ((window + 1) * windowSeconds * 1000) count
        (List.length rest).
Proof.
  intros R client JSON_stringify key maxRequests windowSeconds window rest.
  induction rest as [|[t' caught] rest IH]; intros e t count Hl Hws Hlife Hw Hk Hall.
  - reflexivity.
  - inversion Hall as [|? ? Hw' Hrest]; subst. cbn [fst] in Hw'.
    cbn [rateLimit_series List.length window_answers].
    assert (Hsame : t / (windowSeconds * 1000) = t' / (windowSeconds * 1000))
      by congruence.
    destruct (rateLimit_in_window_step R client JSON_stringify e t t' caught key
                maxRequests windowSeconds count Hl Hws Hlife Hsame Hk)
      as (Hres & Hl1 & Hcfg & Hentry).
    destruct (rateLimit client JSON_stringify t' caught key maxRequests windowSeconds e)
      as [o e1].
    cbn [fst snd] in Hres, Hl1, Hcfg, Hentry.
    rewrite <- Hcfg in Hlife, Hentry. rewrite Hw' in Hentry.
    specialize (IH e1 t' (count + 1) Hl1 Hws Hlife Hw' Hentry Hrest).
    destruct (rateLimit_series client JSON_stringify key maxRequests windowSeconds
                rest e1) as [answers e2].
    cbn [fst] in *. f_equal; assumption.
Qed.



Lemma string_of_Z_inj (a b : Z) : string_of_Z a = string_of_Z b -> a = b.
Proof.
  unfold string_of_Z. intros H.
  assert (Hnn : forall z, Z.to_int z <> Decimal.Pos Decimal.Nil
                          /\ Z.to_int z <> Decimal.Neg Decimal.Nil).
  { intros [|p|p]; simpl; split; try discriminate;
      intros Hc; inversion Hc as [Hp]; now apply Unsigned.to_uint_nonnil in Hp. }
  destruct (Hnn a) as [Ha1 Ha2]. destruct (Hnn b) as [Hb1 Hb2].
  pose proof (NilZero.isi _ Ha1 Ha2) as Ia.
  pose proof (NilZero.isi _ Hb1 Hb2) as Ib.
  rewrite H in Ia. rewrite Ia in Ib. inversion Ib as [Heq].
  rewrite <- (DecimalZ.of_to a), <- (DecimalZ.of_to b). now rewrite Heq.
Qed.

Lemma append_inj_l (p a b : string) : (p ++ a)%string = (p ++ b)%string -> a = b.
Proof.
  induction p as [|c p IH]; simpl; intros H; [assumption|].
  inversion H. now apply IH.
Qed.

Lemma traffic_key_window_inj (key : string) (w w' : Z) :
  traffic_key key w = traffic_key key w' -> w = w'.
Proof.
  unfold traffic_key. intros H.
  apply append_inj_l in H. apply append_inj_l in H. apply append_inj_l in H.
  now apply string_of_Z_inj.
Qed.

Lemma map_get_delete_none {V : Type} (m : list (string * V)) (k c : string) :
  map_get k m = None -> map_get k (map_delete c m) = None.
Proof.
  intros H. destruct (String.eqb c k) eqn:E.
  - apply String.eqb_eq in E. subst. apply map_get_delete_same.
  - apply String.eqb_neq in E. rewrite map_get_delete_other by congruence. exact H.
Qed.

Lemma absent_after_set_of_another_key :
  forall (R : Type) (e : CacheEngine R) (now : Z) (key other : string) (v : value)
    (lifespan : option Z),
    other <> key ->
    map_get other (memoryCache e) = None ->
    map_get other (memoryCache (local_set_state now key v lifespan e)) = None.
Proof.
  intros R e now key other v lifespan Hne Habs.
  unfold local_set_state. cbn [memoryCache count_write set_metrics set_memoryCache].
  rewrite map_get_set_other by exact Hne.
  destruct (memoryTierLimit (config e) <=? map_size (memoryCache e)); [|exact Habs].
  unfold evict_map. destruct (nonempty (evict_scan (memoryCache e) "" now));
    [now apply map_get_delete_none|exact Habs].
Qed.

(** X20. On the memory tier the counters of two windows are separate
    entries: a call in another window than the previous one, whose counter
    does not exist yet, answers requestCount 1, however many calls the
    previous window has seen. *)
Theorem X20_a_new_window_starts_at_one :
  forall (R : Type) (client : RedisClient R) (JSON_stringify : value -> outcome string)
    (e : CacheEngine R) (key : string)
    (maxRequests windowSeconds now caught later caught' : Z),
    local_tier e = true ->
    now / (windowSeconds * 1000) <> later / (windowSeconds * 1000) ->
    map_get (traffic_key key (later / (windowSeconds * 1000))) (memoryCache e) = None ->
    let r1 :=
      rateLimit client JSON_stringify now caught key maxRequests windowSeconds e in
    fst (rateLimit client JSON_stringify later caught' key maxRequests windowSeconds
           (snd r1))
    = Ok (mkTraffic (1 <=? maxRequests) (Z.max 0 (maxRequests - 1))
            ((later / (windowSeconds * 1000) + 1) * windowSeconds * 1000) 1).
Proof.
  intros R client JSON_stringify e key maxRequests windowSeconds now caught later
    caught' Hl Hdiff Hfree. cbv zeta.
  assert (Hkeys : traffic_key key (later / (windowSeconds * 1000))
                  <> traffic_key key (now / (windowSeconds * 1000))).
  { intros H. apply traffic_key_window_inj in H. congruence. }
  pose proof (rateLimit_local R client JSON_stringify e now caught key maxRequests
                windowSeconds Hl) as H1.
  cbv zeta in H1. rewrite H1. cbn [snd].
  match goal with
  | |- fst (rateLimit _ _ _ _ _ _ _ ?st) = _ => set (e1 := st)
  end.
  assert (Hl1 : local_tier e1 = true).
  { subst e1. destruct (_ =? 1); exact Hl. }
  assert (Hfree1 : map_get (traffic_key key (later / (windowSeconds * 1000)))
                     (memoryCache e1) = None).
  { subst e1. destruct (_ =? 1).
    - apply absent_after_set_of_another_key; [exact Hkeys|].
      now apply absent_after_set_of_another_key.
    - now apply absent_after_set_of_another_key. }
  pose proof (rateLimit_local R client JSON_stringify e1 later caught' key maxRequests
                windowSeconds Hl1) as H2.
  cbv zeta in H2. rewrite H2. cbn [fst].
  unfold local_counter. rewrite Hfree1. reflexivity.
Qed.

Lemma X20_new_window_witness :
  let e := snd (rateLimit_series down_client no_stringify "ip" 3 60
                  [(1700000000000, 1700000000000); (1700000001000, 1700000001000);
                   (1700000002000, 1700000002000)] (memory_engine 10000)) in
  (local_tier e = true /\
   1700000003000 / (60 * 1000) <> 1700000040000 / (60 * 1000) /\
   map_get (traffic_key "ip" (1700000040000 / (60 * 1000))) (memoryCache e) = None) /\
  fst (rateLimit down_client no_stringify 1700000003000 1700000003000 "ip" 3 60 e)
  = Ok (mkTraffic false 0 1700000040000 4) /\
  fst (rateLimit down_client no_stringify 1700000040000 1700000040000 "ip" 3 60
         (snd (rateLimit down_client no_stringify 1700000003000 1700000003000
                 "ip" 3 60 e)))
  = Ok (mkTraffic true 2 1700000100000 1).
Proof.
  cbv zeta.
  set (e := snd (rateLimit_series down_client no_stringify "ip" 3 60
                   [(1700000000000, 1700000000000); (1700000001000, 1700000001000);
                    (1700000002000, 1700000002000)] (memory_engine 10000))).
  assert (H1 : local_tier e = true) by reflexivity.
  assert (H2 : 1700000003000 / (60 * 1000) <> 1700000040000 / (60 * 1000))
    by (vm_compute; discriminate).
  assert (H3 : map_get (traffic_key "ip" (1700000040000 / (60 * 1000))) (memoryCache e)
               = None) by reflexivity.
  split; [exact (conj H1 (conj H2 H3))|]. split; [reflexivity|].
  exact (X20_a_new_window_starts_at_one unit down_client no_stringify e "ip" 3 60
           1700000003000 1700000003000 1700000040000 1700000040000 H1 H2 H3).
Defined.

(** ** Cache keys and [Music.getDownloadUrl] *)

(** X21. [getCacheKey] never makes two different (type, identifier)
    pairs collide: equal keys come from the same type and the same
    identifier. *)
Theorem X21_getCacheKey_is_injective :
  forall (type1 type2 : CacheKeyType) (identifier1 identifier2 : string),
    getCacheKey type1 identifier1 = getCacheKey type2 identifier2 ->
    type1 = type2 /\ identifier1 = identifier2.
Proof.
  intros type1 type2 identifier1 identifier2 H.
  unfold getCacheKey, CACHE_KEY_BASE in H.
  destruct type1, type2; cbn in H; try discriminate H;
    (split; [reflexivity|]); now inversion H.
Qed.

Lemma X21_getCacheKey_witness :
  getCacheKey KInfo "42" = getCacheKey KInfo "42" /\
  getCacheKey KInfo "42" = "KEYGENMUSIC:info:42" /\
  (KInfo = KInfo /\ "42" = "42").
Proof.
  assert (H : getCacheKey KInfo "42" = getCacheKey KInfo "42") by reflexivity.
  split; [exact H|]. split; [reflexivity|].
  exact (X21_getCacheKey_is_injective KInfo KInfo "42" "42" H).
Defined.

(** X22. [Music.getDownloadUrl] builds its cache key from the literal
    text "id", not from its argument: on the memory tier, once a call has
    resolved and cached the URL of one music, a call for any other id made
    within the 86400 s lifespan answers that same URL, without looking the
    other id up ([Library.info] is not called, whatever it would do). *)
Theorem X22_getDownloadUrl_shares_one_cache_entry :
  forall (R : Type) (client : RedisClient R) (JSON_stringify : value -> outcome string)
    (JSON_parse : string -> outcome value)
    (info info' : string -> bool -> Eff (CacheEngine R) (option MusicType))
    (e e2 : CacheEngine R) (now1 later1 now2 later2 : Z) (id1 id2 : string)
    (m : MusicType),
    local_tier e = true ->
    map_get (getCacheKey KDownload "id") (memoryCache e) = None ->
    info id1 true (count_failed e) = (Ok (Some m), e2) ->
    local_tier e2 = true ->
    now2 <= later1 + 86400 * 1000 ->
    let first := getDownloadUrl client JSON_stringify JSON_parse info now1 later1 id1 e in
    fst first = Ok (VStr (KEYGENMUSIC_URL ++ path m)) /\
    fst (getDownloadUrl client JSON_stringify JSON_parse info' now2 later2 id2
           (snd first))
    = Ok (VStr (KEYGENMUSIC_URL ++ path m)).
Proof.
  intros R client JSON_stringify JSON_parse info info' e e2 now1 later1 now2 later2
    id1 id2 m Hl Hk Hinfo Hl2 Hlive.
  cbv zeta.
  set (url := (KEYGENMUSIC_URL ++ path m)%string).
  set (e3 := local_set_state later1 (getCacheKey KDownload "id") (VStr url)
               (Some 86400) e2).
  assert (Hfirst : getDownloadUrl client JSON_stringify JSON_parse info now1 later1 id1 e
                   = (Ok (VStr url), e3)).
  { unfold getDownloadUrl, bind.
    rewrite (get_local_absent R client JSON_parse e now1 _ Hl Hk).
    cbn [truthy]. rewrite Hinfo.
    rewrite (set_local R client JSON_stringify e2 later1 _ _ _ Hl2). reflexivity. }
  rewrite Hfirst. cbn [fst snd]. split; [reflexivity|].
  assert (Hl3 : local_tier e3 = true) by exact Hl2.
  assert (Hk3 : map_get (getCacheKey KDownload "id") (memoryCache e3)
                = Some (mkEntry (VStr url) (Some (later1 + 86400 * 1000)) later1))
    by apply get_set_state.
  assert (Hx : past_expiration now2
                 (mkEntry (VStr url) (Some (later1 + 86400 * 1000)) later1) = false).
  { unfold past_expiration. cbn [expiration].
    apply andb_false_iff. right. now apply Z.ltb_ge. }
  unfold getDownloadUrl, bind.
  rewrite (get_local_live R client JSON_parse e3 now2 _ _ Hl3 Hk3 Hx).
  reflexivity.
Qed.

Lemma X22_getDownloadUrl_witness :
  let info := fun (id : string) (internal : bool) =>
                @ret (CacheEngine unit) (option MusicType)
                  (Some (mkMusic 7 "composer" "software" "" ("/kgm/" ++ id ++ ".mp3"))) in
  let e := memory_engine 10000 in
  (local_tier e = true /\
   map_get (getCacheKey KDownload "id") (memoryCache e) = None /\
   2000 <= 1500 + 86400 * 1000) /\
  (let first := getDownloadUrl down_client no_stringify no_parse info 1000 1500 "7" e in
   fst first = Ok (VStr "https://keygenmusic.tk/kgm/7.mp3") /\
   fst (getDownloadUrl down_client no_stringify no_parse info 2000 2500 "8" (snd first))
   = Ok (VStr "https://keygenmusic.tk/kgm/7.mp3")).
Proof.
  cbv zeta.
  set (info := fun (id : string) (internal : bool) =>
                 @ret (CacheEngine unit) (option MusicType)
                   (Some (mkMusic 7 "composer" "software" "" ("/kgm/" ++ id ++ ".mp3")))).
  assert (H1 : local_tier (memory_engine 10000) = true) by reflexivity.
  assert (H2 : map_get (getCacheKey KDownload "id") (memoryCache (memory_engine 10000))
               = None) by reflexivity.
  assert (H3 : 2000 <= 1500 + 86400 * 1000) by (vm_compute; discriminate).
  split; [exact (conj H1 (conj H2 H3))|].
  assert (Hinfo : info "7" true (count_failed (memory_engine 10000))
                  = (Ok (Some (mkMusic 7 "composer" "software" "" "/kgm/7.mp3")),
                     count_failed (memory_engine 10000))) by reflexivity.
  exact (X22_getDownloadUrl_shares_one_cache_entry unit down_client no_stringify
           no_parse info info (memory_engine 10000) _ 1000 1500 2000 2500 "7" "8"
           _ H1 H2 Hinfo eq_refl H3).
Defined.

(** ** The connection *)

(** X23. A new engine starts on the memory tier, empty and with all
    counters at 0, whatever the configuration: with an endpoint the
    handshake is only started, and no later call starts it again. When the
    PING of the handshake fails the client is dropped, so the engine stays
    on the memory tier even if a connect notification arrives; when the
    client was created and the PING succeeds the remote tier serves. *)
Theorem X23_a_new_engine_starts_on_the_memory_tier :
  forall (R : Type) (client : RedisClient R) (env_REDIS_URL : option string)
    (c : CacheStorageConfigInput) (r : R),
    let e0 := new_CacheEngine client env_REDIS_URL c r in
    local_tier e0 = true /\
    memoryCache e0 = [] /\
    metrics e0 = initial_metrics /\
    ensureConnection client e0 = (Ok tt, e0) /\
    (forall err r',
        r_ping client (remote e0) = (Throw err, r') ->
        let e1 := snd (ping_settled client e0) in
        primaryClient e1 = false /\
        local_tier e1 = true /\
        local_tier (onconnect e1) = true) /\
    (forall r',
        primaryClient e0 = true ->
        r_ping client (remote e0) = (Ok tt, r') ->
        remote_tier (snd (ping_settled client e0)) = true).
Proof.
  intros R client env_REDIS_URL c r. cbv zeta.
  unfold new_CacheEngine.
  destruct (nonempty (primaryEndpoint (resolve_config env_REDIS_URL c))) eqn:Hend.
  - destruct (r_connect client r) as [[[]|cerr] r0].
    + split; [reflexivity|]. split; [reflexivity|]. split; [reflexivity|].
      split; [reflexivity|]. split.
      * intros err r' Hping. unfold ping_settled, try_catch, bind, modify, call.
        cbn [remote] in Hping |- *. rewrite Hping. repeat split.
      * intros r' _ Hping. unfold ping_settled, try_catch, bind, modify, call.
        cbn [remote] in Hping |- *. rewrite Hping. reflexivity.
    + split; [reflexivity|]. split; [reflexivity|]. split; [reflexivity|].
      split; [reflexivity|]. split.
      * intros err r' Hping. unfold ping_settled, try_catch, bind, modify, call.
        cbn [remote] in Hping |- *. rewrite Hping. repeat split.
      * intros r' Hc. discriminate Hc.
  - assert (Hl : forall pc pa (r1 : R),
               local_tier (mkEngine r1 pc [] initial_metrics
                             (resolve_config env_REDIS_URL c) pa false)
               = negb (pa && pc)).
    { intros pc pa r1. unfold local_tier, isPrimaryActive.
      cbn [primaryActive primaryClient connectionReady config].
      rewrite Hend. cbn [negb orb]. apply andb_true_r. }
    split; [now rewrite Hl|]. split; [reflexivity|]. split; [reflexivity|].
    split.
    { unfold ensureConnection. cbn [connectionReady config negb andb].
      now rewrite Hend. }
    split.
    + intros err r' Hping. unfold ping_settled, try_catch, bind, modify, call.
      cbn [remote] in Hping |- *. rewrite Hping.
      unfold onconnect, set_primaryClient, set_primaryActive.
      cbn [snd remote primaryClient memoryCache metrics config primaryActive
             connectionReady].
      rewrite !Hl. repeat split.
    + intros r' Hc. discriminate Hc.
Qed.

Lemma X23_new_engine_witness :
  let silent : RedisClient unit :=
    mkClient unit (ret tt) unreachable (fun _ => unreachable)
      (fun _ _ => unreachable) (fun _ _ => unreachable) (fun _ => unreachable)
      (fun _ => unreachable) (fun _ => unreachable) (fun _ _ => unreachable)
      (fun _ => unreachable) unreachable (fun r => r) in
  let e0 := new_CacheEngine silent (Some "redis://cache:6379") defaults tt in
  (primaryClient e0 = true /\
   r_ping silent (remote e0) = (Throw (TransportError "ECONNREFUSED"), tt)) /\
  local_tier e0 = true /\
  primaryClient (snd (ping_settled silent e0)) = false /\
  local_tier (onconnect (snd (ping_settled silent e0))) = true.
Proof.
  cbv zeta.
  set (silent := mkClient unit (ret tt) unreachable (fun _ => unreachable)
      (fun _ _ => unreachable) (fun _ _ => unreachable) (fun _ => unreachable)
      (fun _ => unreachable) (fun _ => unreachable) (fun _ _ => unreachable)
      (fun _ => unreachable) unreachable (fun r => r)).
  destruct (X23_a_new_engine_starts_on_the_memory_tier unit silent
              (Some "redis://cache:6379") defaults tt) as (Ha & _ & _ & _ & Hb & _).
  assert (Hping : r_ping silent
                    (remote (new_CacheEngine silent (Some "redis://cache:6379")
                               defaults tt))
                  = (Throw (TransportError "ECONNREFUSED"), tt)) by reflexivity.
  destruct (Hb _ _ Hping) as (Hc & _ & Hd).
  split; [split; [reflexivity|exact Hping]|].
  exact (conj Ha (conj Hc Hd)).
Defined.

(** ** Sessions, from creation to deletion *)

(** X24. On the memory tier a session that was created is found again
    within its lifespan, with [createdAt] kept and [lastActive] set to the
    time of the read; [deleteSession] then answers true, and a later
    [getSession] answers null without storing anything. *)
Theorem X24_session_lifecycle :
  forall (R : Type) (client : RedisClient R) (JSON_stringify : value -> outcome string)
    (JSON_parse : string -> outcome value) (e : CacheEngine R) (t0 t1 t2 : Z)
    (sessionId : string) (userId data : value) (lifespan : option Z),
    local_tier e = true ->
    t1 <= t0 + (match lifespan with Some l => l | None => 86400 end) * 1000 ->
    let e1 := snd (createSession client JSON_stringify t0 sessionId userId data
                     lifespan e) in
    let r1 := getSession client JSON_stringify JSON_parse t1 sessionId e1 in
    let r2 := deleteSession client sessionId (snd r1) in
    let r3 := getSession client JSON_stringify JSON_parse t2 sessionId (snd r2) in
    fst r1 = Ok (VSession userId data t0 t1) /\
    fst r2 = Ok true /\
    fst r3 = Ok VNull /\
    memoryCache (snd r3) = memoryCache (snd r2) /\
    writes (metrics (snd r3)) = writes (metrics (snd r2)).
Proof.
  intros R client JSON_stringify JSON_parse e t0 t1 t2 sessionId userId data lifespan
    Hl Hlive.
  cbv zeta.
  rewrite (createSession_local R client JSON_stringify e t0 sessionId userId data
             lifespan Hl).
  cbn [snd].
  set (l := match lifespan with Some l => l | None => 86400 end) in *.
  set (key := session_key sessionId).
  set (e1 := local_set_state t0 key (VSession userId data t0 t0) (Some l) e).
  assert (Hl1 : local_tier e1 = true) by exact Hl.
  assert (Hk1 : map_get key (memoryCache e1)
                = Some (mkEntry (VSession userId data t0 t0)
                          (local_expiration (config e) t0 (Some l)) t0))
    by apply get_set_state.
  assert (Hx1 : past_expiration t1
                  (mkEntry (VSession userId data t0 t0)
                     (local_expiration (config e) t0 (Some l)) t0) = false)
    by (apply written_entry_live; exact Hlive).
  set (e1' := count_successful
                (set_memoryCache
                   (map_set key
                      (mkEntry (VSession userId data t0 t0)
                         (local_expiration (config e) t0 (Some l)) t1)
                      (memoryCache e1)) e1)).
  set (e2 := local_set_state t1 key (VSession userId data t0 t1) None e1').
  assert (Hr1 : getSession client JSON_stringify JSON_parse t1 sessionId e1
                = (Ok (VSession userId data t0 t1), e2)).
  { unfold getSession, bind, lift_outcome, ret. fold key.
    rewrite (get_local_live R client JSON_parse e1 t1 key _ Hl1 Hk1 Hx1).
    cbn [entry_value expiration truthy assign_lastActive]. fold e1'.
    assert (Hl1' : local_tier e1' = true) by exact Hl.
    rewrite (set_local R client JSON_stringify e1' t1 key _ None Hl1').
    reflexivity. }
  rewrite Hr1. cbn [fst snd]. split; [reflexivity|].
  assert (Hl2 : local_tier e2 = true) by exact Hl.
  assert (Hhas : map_has key (memoryCache e2) = true).
  { unfold map_has. unfold e2. rewrite get_set_state. reflexivity. }
  unfold deleteSession. fold key.
  rewrite (delete_local R client e2 key Hl2). rewrite Hhas. cbn [fst snd].
  split; [reflexivity|].
  set (e3 := count_removal (set_memoryCache (map_delete key (memoryCache e2)) e2)).
  assert (Hl3 : local_tier e3 = true) by exact Hl.
  assert (Hk3 : map_get key (memoryCache e3) = None) by apply map_get_delete_same.
  unfold getSession, bind, ret. fold key.
  rewrite (get_local_absent R client JSON_parse e3 t2 key Hl3 Hk3).
  cbn [truthy fst snd]. repeat split.
Qed.

Lemma X24_session_witness :
  let e := memory_engine 10000 in
  (local_tier e = true /\ 5000 <= 1000 + 86400 * 1000) /\
  (let e1 := snd (createSession down_client no_stringify 1000 "s1" (VNum 42)
                    (VStr "cart") None e) in
   let r1 := getSession down_client no_stringify no_parse 5000 "s1" e1 in
   let r2 := deleteSession down_client "s1" (snd r1) in
   let r3 := getSession down_client no_stringify no_parse 6000 "s1" (snd r2) in
   fst r1 = Ok (VSession (VNum 42) (VStr "cart") 1000 5000) /\
   fst r2 = Ok true /\
   fst r3 = Ok VNull /\
   memoryCache (snd r3) = memoryCache (snd r2) /\
   writes (metrics (snd r3)) = writes (metrics (snd r2))).
Proof.
  cbv zeta.
  assert (H1 : local_tier (memory_engine 10000) = true) by reflexivity.
  assert (H2 : 5000 <= 1000 + 86400 * 1000) by (vm_compute; discriminate).
  split; [exact (conj H1 H2)|].
  exact (X24_session_lifecycle unit down_client no_stringify no_parse
           (memory_engine 10000) 1000 5000 6000 "s1" (VNum 42) (VStr "cart") None
           H1 H2).
Defined.

(** ** Reads of the remote tier *)

(** X25. What [get] makes of the server's reply on the remote tier: nil
    and the empty payload are misses; a payload that decodes is a hit; a
    payload that does not decode is answered with null and counted both as
    a hit and as a miss; a transport failure is a miss. *)
Theorem X25_remote_get_outcomes :
  forall (R : Type) (client : RedisClient R) (JSON_parse : string -> outcome value)
    (e : CacheEngine R) (now : Z) (key : string),
    remote_tier e = true ->
    let r := get client JSON_parse now key e in
    (forall r',
        r_get client key (remote e) = (Ok None, r') ->
        r = (Ok VNull, count_failed (set_remote r' e))) /\
    (forall r',
        r_get client key (remote e) = (Ok (Some ""), r') ->
        r = (Ok VNull, count_failed (set_remote r' e))) /\
    (forall s r' v,
        s <> "" ->
        r_get client key (remote e) = (Ok (Some s), r') ->
        JSON_parse s = Ok v ->
        r = (Ok v, count_successful (set_remote r' e))) /\
    (forall s r' err,
        s <> "" ->
        r_get client key (remote e) = (Ok (Some s), r') ->
        JSON_parse s = Throw err ->
        r = (Ok VNull, count_failed (count_successful (set_remote r' e)))) /\
    (forall err r',
        r_get client key (remote e) = (Throw err, r') ->
        r = (Ok VNull, count_failed (set_remote r' e))).
Proof.
  intros R client JSON_parse e now key Hr. cbv zeta.
  assert (Hget : forall o r',
             r_get client key (remote e) = (o, r') ->
             get client JSON_parse now key e
             = match o with
               | Ok (Some s) =>
                   if nonempty s then
                     match JSON_parse s with
                     | Ok v => (Ok v, count_successful (set_remote r' e))
                     | Throw _ =>
                         (Ok VNull, count_failed (count_successful (set_remote r' e)))
                     end
                   else (Ok VNull, count_failed (set_remote r' e))
               | Ok None => (Ok VNull, count_failed (set_remote r' e))
               | Throw _ => (Ok VNull, count_failed (set_remote r' e))
               end).
  { intros o r' Hg.
    unfold get, try_catch, bind, gets, modify, ret, call, lift_outcome.
    rewrite (ensureConnection_remote R client e Hr).
    rewrite (remote_tier_active R e Hr), Hg.
    destruct o as [[s|]|err]; [|reflexivity|reflexivity].
    destruct (nonempty s); [|reflexivity].
    destruct (JSON_parse s); reflexivity. }
  split; [|split; [|split; [|split]]].
  - intros r' Hg. exact (Hget _ _ Hg).
  - intros r' Hg. exact (Hget _ _ Hg).
  - intros s r' v Hs Hg Hp. rewrite (Hget _ _ Hg), (nonempty_true s Hs), Hp.
    reflexivity.
  - intros s r' err Hs Hg Hp. rewrite (Hget _ _ Hg), (nonempty_true s Hs), Hp.
    reflexivity.
  - intros err r' Hg. exact (Hget _ _ Hg).
Qed.

Lemma X25_remote_get_witness :
  remote_tier connected_engine = true /\
  r_get empty_client "k" (remote connected_engine) = (Ok None, tt) /\
  get empty_client no_parse 1000 "k" connected_engine
  = (Ok VNull, count_failed (set_remote tt connected_engine)).
Proof.
  assert (H1 : remote_tier connected_engine = true) by reflexivity.
  assert (H2 : r_get empty_client "k" (remote connected_engine) = (Ok None, tt))
    by reflexivity.
  destruct (X25_remote_get_outcomes unit empty_client no_parse connected_engine
              1000 "k" H1) as (Ha & _).
  exact (conj H1 (conj H2 (Ha tt H2))).
Defined.

(** ** A lifespan of zero *)

(** X26. A write with an explicit lifespan of 0 seconds or less behaves
    differently on the two tiers. On the memory tier the entry is expired
    for every read made after the instant of the write, as long as the
    expiration it gets, now + lifespan*1000, is not exactly 0. On the
    remote tier the value is stored and no EXPIRE is sent: the server
    keeps it without any expiry. *)
Theorem X26_a_lifespan_of_zero_differs_between_the_tiers :
  forall (R : Type) (client : RedisClient R) (JSON_stringify : value -> outcome string)
    (JSON_parse : string -> outcome value) (e : CacheEngine R) (now later : Z)
    (key : string) (v : value) (l : Z),
    l <= 0 ->
    (local_tier e = true ->
     now < later ->
     now + l * 1000 <> 0 ->
     let e1 := snd (set client JSON_stringify now key v (Some l) e) in
     fst (get client JSON_parse later key e1) = Ok VNull /\
     fst (has client later key e1) = Ok false /\
     fst (getTTL client later key e1) = Ok 0) /\
    (remote_tier e = true ->
     forall encoded r1,
       JSON_stringify v = Ok encoded ->
       r_set client key encoded (remote e) = (Ok tt, r1) ->
       set client JSON_stringify now key v (Some l) e
       = (Ok true, count_write (set_remote r1 e))).
Proof.
  intros R client JSON_stringify JSON_parse e now later key v l Hle. split.
  - intros Hl Hlater Hnz. cbv zeta.
    rewrite (set_local R client JSON_stringify e now key v (Some l) Hl). cbn [snd].
    set (e1 := local_set_state now key v (Some l) e).
    assert (Hl1 : local_tier e1 = true) by exact Hl.
    assert (Hk1 : map_get key (memoryCache e1)
                  = Some (mkEntry v (Some (now + l * 1000)) now))
      by apply get_set_state.
    assert (Hx : past_expiration later (mkEntry v (Some (now + l * 1000)) now) = true).
    { unfold past_expiration. cbn [expiration].
      apply andb_true_iff. split.
      - apply negb_true_iff. now apply Z.eqb_neq.
      - apply Z.ltb_lt. lia. }
    rewrite (get_local_expired R client JSON_parse e1 later key _ Hl1 Hk1 Hx).
    rewrite (has_local_expired R client e1 later key _ Hl1 Hk1 Hx).
    rewrite (getTTL_local R client e1 later key Hl1), Hk1.
    cbn [fst expiration]. split; [reflexivity|]. split; [reflexivity|].
    unfold has_expiration.
    destruct (now + l * 1000 =? 0) eqn:E; [apply Z.eqb_eq in E; contradiction|].
    cbn [negb]. f_equal.
    rewrite Z.max_l by lia. reflexivity.
  - intros Hr encoded r1 Henc Hset.
    rewrite (set_remote_tier R client JSON_stringify e now key v (Some l) encoded r1
               Hr Henc Hset).
    destruct (0 <? l) eqn:E; [apply Z.ltb_lt in E; lia|reflexivity].
Qed.

Lemma X26_lifespan_zero_witness :
  let e := memory_engine 10000 in
  let quote := fun _ : value => Ok "v" in
  (0 <= 0 /\ local_tier e = true /\ 1000 < 1001 /\ 1000 + 0 * 1000 <> 0) /\
  (let e1 := snd (set down_client no_stringify 1000 "k" (VStr "v") (Some 0) e) in
   fst (get down_client no_parse 1001 "k" e1) = Ok VNull /\
   fst (has down_client 1001 "k" e1) = Ok false /\
   fst (getTTL down_client 1001 "k" e1) = Ok 0) /\
  (remote_tier connected_engine = true /\
   r_set empty_client "k" "v" (remote connected_engine) = (Ok tt, tt)) /\
  set empty_client quote 1000 "k" (VStr "v") (Some 0) connected_engine
  = (Ok true, count_write (set_remote tt connected_engine)).
Proof.
  cbv zeta.
  assert (H0 : 0 <= 0) by lia.
  assert (H1 : local_tier (memory_engine 10000) = true) by reflexivity.
  assert (H2 : 1000 < 1001) by lia.
  assert (H3 : 1000 + 0 * 1000 <> 0) by (vm_compute; discriminate).
  assert (H4 : remote_tier connected_engine = true) by reflexivity.
  assert (H5 : r_set empty_client "k" "v" (remote connected_engine) = (Ok tt, tt))
    by reflexivity.
  split; [exact (conj H0 (conj H1 (conj H2 H3)))|].
  split.
  - exact (proj1 (X26_a_lifespan_of_zero_differs_between_the_tiers unit down_client
                    no_stringify no_parse (memory_engine 10000) 1000 1001 "k"
                    (VStr "v") 0 H0) H1 H2 H3).
  - split; [exact (conj H4 H5)|].
    exact (proj2 (X26_a_lifespan_of_zero_differs_between_the_tiers unit empty_client
                    (fun _ : value => Ok "v") no_parse connected_engine 1000 1001 "k"
                    (VStr "v") 0 H0) H4 "v" tt eq_refl H5).
Defined.

(** ** Diagnostics *)

(** X27. [diagnostics] only reports. It answers [primaryActive] true
    exactly when there is a client and its PING succeeds, [memoryActive]
    always true, and the metrics [getMetrics] gives; a failed PING does
    not switch the tier: the engine's own [primaryActive] flag, its client
    and the Local Store are as before. *)
Theorem X27_diagnostics_only_reports :
  forall (R : Type) (client : RedisClient R) (e : CacheEngine R),
    let r := diagnostics client e in
    fst (fst (fst r)) = primaryClient e && is_ok (fst (r_ping client (remote e))) /\
    snd (fst (fst r)) = true /\
    snd (fst r) = fst (getMetrics e) /\
    primaryActive (snd r) = primaryActive e /\
    primaryClient (snd r) = primaryClient e /\
    memoryCache (snd r) = memoryCache e /\
    local_tier (snd r) = local_tier e /\
    remote_tier (snd r) = remote_tier e.
Proof.
  intros R client e. cbv zeta. unfold diagnostics, call.
  destruct (primaryClient e) eqn:Hc.
  - destruct (r_ping client (remote e)) as [[[]|err] r'];
      cbn [fst snd is_ok andb];
      unfold getMetrics, local_tier, remote_tier, isPrimaryActive;
      cbn [fst snd remote primaryClient memoryCache metrics config primaryActive
             connectionReady set_remote set_metrics];
      rewrite ?Hc; repeat split.
  - cbn [fst snd andb];
      unfold getMetrics, local_tier, remote_tier, isPrimaryActive;
      cbn [fst snd remote primaryClient memoryCache metrics config primaryActive
             connectionReady set_remote set_metrics];
      rewrite ?Hc; repeat split.
Qed.
